(** * Omicli: the scroll-driven 3D viewer of [main.js] and its second
      entry point

    A shallow embedding of the two entry-point scripts of the repository:
    the model preparer ([prepareModel]), the loader callbacks
    ([loadCarModel], [loadOtherModels]), the registry switch
    ([switchModel]) and the scroll handler ([handleScroll]).

    Conventions of the embedding.
    - JavaScript objects live in a store ([heap]); a reference is an index
      into it, so that [currentModel], [models.car] and the light target
      can alias one object, as they do in the scripts.
    - The plain object [models] is a finite map from its own keys to
      references.  A read [models[key]] that finds no own key goes on to
      [Object.prototype]: its standard functions, its [__proto__] accessor,
      and the property [visible] once the scripts have written it there.
      Such a read can leave a function, [Object.prototype] or the primitive
      [true] in [currentModel] and in the light's target.
    - DOM lengths ([offsetTop], [offsetHeight], [innerHeight]) are
      integers; [scrollY] and the 3D coordinates are numbers, modelled by
      exact rationals.  The guards of [handleScroll] only subtract, add and
      halve integers, which is exact on JavaScript numbers as well.
    - A statement either returns or throws after having mutated part of
      the state: it yields a [completion] and the state it left; what
      follows a statement that threw is skipped.  The scripts are modules,
      hence strict code.
    - Three.js transforms are modelled for translation and per-axis scale
      (the two fields [prepareModel] writes); rotations stay at identity.
    - Console output, the progress element and the scene's child list are
      not part of the state: no modelled operation reads them. *)

From stdpp Require Import base strings list gmap.
From Stdlib Require Import ZArith QArith Lia.

Open Scope Q_scope.

(** ** Vectors and boxes (three.js [Vector3], [Box3]) *)

Record Vector3 := Vec3 { vx : Q; vy : Q; vz : Q }.

Definition vadd (a b : Vector3) : Vector3 :=
  Vec3 (vx a + vx b) (vy a + vy b) (vz a + vz b).

Definition vsub (a b : Vector3) : Vector3 :=
  Vec3 (vx a - vx b) (vy a - vy b) (vz a - vz b).

Definition vmul (a b : Vector3) : Vector3 :=
  Vec3 (vx a * vx b) (vy a * vy b) (vz a * vz b).

Definition multiplyScalar (a : Vector3) (s : Q) : Vector3 :=
  Vec3 (vx a * s) (vy a * s) (vz a * s).

Definition qmin (a b : Q) : Q := if Qle_bool a b then a else b.
Definition qmax (a b : Q) : Q := if Qle_bool a b then b else a.

Definition vmin (a b : Vector3) : Vector3 :=
  Vec3 (qmin (vx a) (vx b)) (qmin (vy a) (vy b)) (qmin (vz a) (vz b)).

Definition vmax (a b : Vector3) : Vector3 :=
  Vec3 (qmax (vx a) (vx b)) (qmax (vy a) (vy b)) (qmax (vz a) (vz b)).

Definition veq (a b : Vector3) : Prop :=
  vx a == vx b /\ vy a == vy b /\ vz a == vz b.

Definition origin : Vector3 := Vec3 0 0 0.

(** A [Box3] is empty ([None], three.js keeps +Infinity/-Infinity corners)
    or spans from a minimal to a maximal corner. *)
Definition Box3 : Type := option (Vector3 * Vector3).

Definition makeEmpty : Box3 := None.

Definition expandByPoint (b : Box3) (p : Vector3) : Box3 :=
  match b with
  | None => Some (p, p)
  | Some (lo, hi) => Some (vmin lo p, vmax hi p)
  end.

Definition setFromPoints (pts : list Vector3) : Box3 :=
  fold_left expandByPoint pts makeEmpty.

Definition union (a b : Box3) : Box3 :=
  match a, b with
  | None, _ => b
  | _, None => a
  | Some (lo1, hi1), Some (lo2, hi2) => Some (vmin lo1 lo2, vmax hi1 hi2)
  end.

Definition getCenter (b : Box3) : Vector3 :=
  match b with
  | None => origin
  | Some (lo, hi) => multiplyScalar (vadd lo hi) (1 # 2)
  end.

(** The world matrix of an object, restricted to scale and translation:
    a point [p] is sent to [m_scale * p + m_pos]. *)
Record Matrix4 := Mat4 { m_scale : Vector3; m_pos : Vector3 }.

Definition identity : Matrix4 := Mat4 (Vec3 1 1 1) origin.

Definition applyToPoint (m : Matrix4) (p : Vector3) : Vector3 :=
  vadd (vmul (m_scale m) p) (m_pos m).

(** [parent.matrixWorld * local] *)
Definition multiplyMatrices (parent local : Matrix4) : Matrix4 :=
  Mat4 (vmul (m_scale parent) (m_scale local))
       (applyToPoint parent (m_pos local)).

Definition corners (lo hi : Vector3) : list Vector3 :=
  [ Vec3 (vx lo) (vy lo) (vz lo); Vec3 (vx lo) (vy lo) (vz hi);
    Vec3 (vx lo) (vy hi) (vz lo); Vec3 (vx lo) (vy hi) (vz hi);
    Vec3 (vx hi) (vy lo) (vz lo); Vec3 (vx hi) (vy lo) (vz hi);
    Vec3 (vx hi) (vy hi) (vz lo); Vec3 (vx hi) (vy hi) (vz hi) ].

(** [Box3.applyMatrix4]: the box of the eight transformed corners. *)
Definition applyMatrix4 (m : Matrix4) (b : Box3) : Box3 :=
  match b with
  | None => None
  | Some (lo, hi) => setFromPoints (map (applyToPoint m) (corners lo hi))
  end.

(** ** Scene-graph nodes (three.js [Object3D], [Mesh], [Material]) *)

Record Material := mkMaterial {
  needsUpdate : bool;
  roughness : option Q;     (* [None]: the material has no such channel *)
  metalness : option Q
}.

(** A node of the scene graph.  [geometry] holds the vertex positions of a
    mesh and is absent on groups. *)
#[warnings="-register-all"]
Inductive Object3D := mkObject3D {
  position : Vector3;
  scale : Vector3;
  visible : bool;
  isMesh : bool;
  castShadow : bool;
  receiveShadow : bool;
  material : option Material;
  geometry : option (list Vector3);
  children : list Object3D
}.

Definition set_position (p : Vector3) (o : Object3D) : Object3D :=
  mkObject3D p (scale o) (visible o) (isMesh o) (castShadow o)
             (receiveShadow o) (material o) (geometry o) (children o).

Definition set_scale (s : Vector3) (o : Object3D) : Object3D :=
  mkObject3D (position o) s (visible o) (isMesh o) (castShadow o)
             (receiveShadow o) (material o) (geometry o) (children o).

Definition set_visible (b : bool) (o : Object3D) : Object3D :=
  mkObject3D (position o) (scale o) b (isMesh o) (castShadow o)
             (receiveShadow o) (material o) (geometry o) (children o).

Definition set_children (ch : list Object3D) (o : Object3D) : Object3D :=
  mkObject3D (position o) (scale o) (visible o) (isMesh o) (castShadow o)
             (receiveShadow o) (material o) (geometry o) ch.

(** [Object3D.traverse]: the callback on the node, then on every
    descendant.  The callbacks of the scripts write fields of the visited
    node only, never its child list. *)
Fixpoint traverse (callback : Object3D -> Object3D) (o : Object3D) : Object3D :=
  match o with
  | mkObject3D _ _ _ _ _ _ _ _ ch =>
      set_children (map (traverse callback) ch) (callback o)
  end.

(** [Box3.expandByObject]: the node's world matrix is refreshed from its
    parent's, the geometry's bounding box is taken to world space and
    joined, then the children are visited. *)
Fixpoint expandByObject (parentWorld : Matrix4) (o : Object3D) (box : Box3) : Box3 :=
  match o with
  | mkObject3D p s _ _ _ _ _ g ch =>
      let matrixWorld := multiplyMatrices parentWorld (Mat4 s p) in
      let box1 :=
        match g with
        | Some pts => union box (applyMatrix4 matrixWorld (setFromPoints pts))
        | None => box
        end in
      fold_left (fun b c => expandByObject matrixWorld c b) ch box1
  end.

(** [new THREE.Box3().setFromObject(model)] for a node without parent. *)
Definition setFromObject (o : Object3D) : Box3 :=
  expandByObject identity o makeEmpty.

(** ** [prepareModel] (identical in both scripts) *)

Definition prepareMaterial (m : Material) : Material :=
  mkMaterial true
    (match roughness m with Some _ => Some (6 # 10) | None => None end)
    (match metalness m with Some _ => Some (1 # 10) | None => None end).

(** The callback handed to [model.traverse]. *)
Definition prepareChild (child : Object3D) : Object3D :=
  if isMesh child then
    mkObject3D (position child) (scale child) (visible child) (isMesh child)
               true true
               (match material child with
                | Some m => Some (prepareMaterial m)
                | None => None
                end)
               (geometry child) (children child)
  else child.

Definition prepareModel (model : Object3D) (isCar : bool) : Object3D :=
  let box := setFromObject model in
  let center := getCenter box in
  let model1 := set_position (vsub (position model) center) model in
  let model2 :=
    if isCar then set_scale (Vec3 (12 # 10) (12 # 10) (12 # 10)) model1
    else set_scale (Vec3 (8 # 10) (8 # 10) (8 # 10)) model1 in
  traverse prepareChild model2.

(** ** The page as the scroll handler reads it *)

(** An element matched by the section selector: [offsetTop],
    [offsetHeight] and [getAttribute('data-model')] ([None] is [null]). *)
Record SectionElement := mkSection {
  offsetTop : Z;
  offsetHeight : Z;
  dataModel : option string
}.

(** What one run of the handler reads from [document] and [window]. *)
Record Page := mkPage {
  sections : list SectionElement;
  scrollY : Q;
  innerHeight : Z
}.

Definition Qlt_bool (a b : Q) : bool := negb (Qle_bool b a).

(** [sectionTop - window.innerHeight / 2] *)
Definition lowerBound (innerHeight : Z) (section : SectionElement) : Q :=
  inject_Z (offsetTop section) - inject_Z innerHeight / 2.

(** [sectionTop + sectionHeight - window.innerHeight / 2] *)
Definition upperBound (innerHeight : Z) (section : SectionElement) : Q :=
  inject_Z (offsetTop section) + inject_Z (offsetHeight section)
  - inject_Z innerHeight / 2.

(** The test of the [forEach] callback. *)
Definition inRange (w : Page) (section : SectionElement) : bool :=
  Qle_bool (lowerBound (innerHeight w) section) (scrollY w)
  && Qlt_bool (scrollY w) (upperBound (innerHeight w) section).

(** ** The module state of a script *)

(** A call of [loader.load]: which callbacks it was given. *)
Inductive Request :=
  | ReqCar (path : string)
  | ReqOther (key path : string).

#[global] Instance Request_eq_dec : EqDecision Request.
Proof. solve_decision. Defined.

(** What a read of [models[key]] can yield, and so what [currentModel]
    and the light's target can hold: a loaded scene, or, through the
    prototype of the plain object [models], one of the functions of
    [Object.prototype], [Object.prototype] itself, or the primitive
    [true]. *)
Inductive Value :=
  | VModel (ref : nat)
  | VFunction (name : string)
  | VObjectPrototype
  | VTrue.

#[global] Instance Value_eq_dec : EqDecision Value.
Proof. solve_decision. Defined.

Record State := mkState {
  heap : list Object3D;            (* the scenes created so far *)
  models : gmap string nat;        (* own keys of [const models = {}] *)
  protoVisible : option bool;      (* [Object.prototype.visible]; [None]
                                      while nothing has written it *)
  currentModel : option Value;     (* [let currentModel = null] *)
  lightTarget : option Value;      (* [directionalLight.target]; [None] is
                                      the light's own default target *)
  inflight : list Request;         (* loads started and not yet settled *)
  loadCalls : list Request         (* every [loader.load] call so far *)
}.

Definition initial : State := mkState [] ∅ None None None [] [].

Inductive completion := Returned | Threw.

(** Sequencing: what follows a statement that threw is skipped. *)
Definition andThen (r : completion * State)
    (rest : State -> completion * State) : completion * State :=
  match r with
  | (Returned, st) => rest st
  | (Threw, st) => (Threw, st)
  end.

Definition with_heap (h : list Object3D) (st : State) : State :=
  mkState h (models st) (protoVisible st) (currentModel st) (lightTarget st)
          (inflight st) (loadCalls st).

Definition with_protoVisible (b : bool) (st : State) : State :=
  mkState (heap st) (models st) (Some b) (currentModel st) (lightTarget st)
          (inflight st) (loadCalls st).

(** [ref.visible = b] on a scene *)
Definition assignVisible (ref : nat) (b : bool) (st : State) : State :=
  with_heap (alter (set_visible b) ref (heap st)) st.

(** [currentModel = v] *)
Definition assignCurrent (v : Value) (st : State) : State :=
  mkState (heap st) (models st) (protoVisible st) (Some v) (lightTarget st)
          (inflight st) (loadCalls st).

(** [directionalLight.target = v] *)
Definition aimLight (v : Value) (st : State) : State :=
  mkState (heap st) (models st) (protoVisible st) (currentModel st) (Some v)
          (inflight st) (loadCalls st).

Definition isVisible (st : State) (ref : nat) : bool :=
  match heap st !! ref with
  | Some o => visible o
  | None => false
  end.

(** A string used as a condition: the empty string is falsy. *)
Definition truthy (s : string) : bool :=
  match s with
  | EmptyString => false
  | String _ _ => true
  end.

(** The function-valued properties of [Object.prototype]. *)
Definition objectPrototypeFunctions : list string :=
  [ "constructor"; "hasOwnProperty"; "isPrototypeOf"; "propertyIsEnumerable";
    "toLocaleString"; "toString"; "valueOf";
    "__defineGetter__"; "__defineSetter__";
    "__lookupGetter__"; "__lookupSetter__" ]%string.

(** [models[key]] used as a condition and as a value: an own key when
    there is one, otherwise what [Object.prototype] has under that name.
    [None] stands for a falsy result ([undefined] or [false]). *)
Definition getModel (key : string) (st : State) : option Value :=
  match models st !! key with
  | Some ref => Some (VModel ref)
  | None =>
      if bool_decide (key ∈ objectPrototypeFunctions) then Some (VFunction key)
      else if String.eqb key "__proto__" then Some VObjectPrototype
      else if String.eqb key "visible" then
        match protoVisible st with
        | Some true => Some VTrue
        | _ => None
        end
      else None
  end.

(** [v.visible = b].  A function gets an own property that nothing reads;
    on [Object.prototype] the property is seen by later reads of
    [models.visible]; on a primitive the write throws in strict code. *)
Definition writeVisible (v : Value) (b : bool) (st : State) : completion * State :=
  match v with
  | VModel ref => (Returned, assignVisible ref b st)
  | VFunction _ => (Returned, st)
  | VObjectPrototype => (Returned, with_protoVisible b st)
  | VTrue => (Threw, st)
  end.

(** [v.updateMatrixWorld()]: a scene recomputes its matrices, which the
    embedding derives from position and scale on demand; the other values
    have no such method. *)
Definition updateMatrixWorld (v : Value) (st : State) : completion * State :=
  match v with
  | VModel _ => (Returned, st)
  | _ => (Threw, st)
  end.

(** ** [switchModel] (identical in both scripts) *)

(** [if (currentModel) { currentModel.visible = false; }] *)
Definition hideCurrent (st : State) : completion * State :=
  match currentModel st with
  | Some cur => writeVisible cur false st
  | None => (Returned, st)
  end.

(** The body of the second test. *)
Definition showModel (v : Value) (st : State) : completion * State :=
  andThen (writeVisible v true (assignCurrent v st))
          (fun st1 => updateMatrixWorld v (aimLight v st1)).

Definition switchModel (modelKey : option string) (st : State)
    : completion * State :=
  andThen (hideCurrent st) (fun st1 =>
    match modelKey with
    | Some key =>
        if truthy key then
          match getModel key st1 with
          | Some v => showModel v st1
          | None => (Returned, st1)
          end
        else (Returned, st1)
    | None => (Returned, st1)
    end).

(** The block guarded by the first test of [handleScroll], identical in
    both scripts.  [models.car] is an own key or [undefined]; writing the
    [visible] of [undefined] throws, after the current model was hidden. *)
Definition backToCar (st : State) : completion * State :=
  match currentModel st with
  | Some cur =>
      if bool_decide (Some cur ≠ (VModel <$> models st !! "car"%string)) then
        andThen (writeVisible cur false st) (fun st1 =>
          match models st1 !! "car"%string with
          | Some car =>
              let st2 := assignVisible car true st1 in
              updateMatrixWorld (VModel car)
                (aimLight (VModel car) (assignCurrent (VModel car) st2))
          | None => (Threw, st1)       (* [models.car] is [undefined] *)
          end)
      else (Returned, st)
  | None => (Returned, st)
  end.

(** The body of the [forEach] callback below the index test. *)
Definition visitSection (w : Page) (section : SectionElement) (st : State)
    : completion * State :=
  if inRange w section then switchModel (dataModel section) st
  else (Returned, st).

(** [NodeList.forEach((element, index) => ...)]: a callback that throws
    ends the loop. *)
Fixpoint forEach {A : Type} (callback : A -> nat -> State -> completion * State)
    (l : list A) (index : nat) (st : State) : completion * State :=
  match l with
  | [] => (Returned, st)
  | a :: l' =>
      andThen (callback a index st) (fun st1 => forEach callback l' (S index) st1)
  end.

(** ** The loader *)

(** [loader.load(path, onLoad, onProgress, onError)] starts a load and
    returns at once; the loader later calls exactly one of [onLoad] and
    [onError]. *)
Definition loader_load (r : Request) (st : State) : State :=
  mkState (heap st) (models st) (protoVisible st) (currentModel st)
          (lightTarget st) (inflight st ++ [r]) (loadCalls st ++ [r]).

(** The load [r] leaves the in-flight list when it settles. *)
Fixpoint settle (r : Request) (l : list Request) : list Request :=
  match l with
  | [] => []
  | r' :: l' => if decide (r = r') then l' else r' :: settle r l'
  end.

Definition settled (r : Request) (st : State) : State :=
  mkState (heap st) (models st) (protoVisible st) (currentModel st)
          (lightTarget st) (settle r (inflight st)) (loadCalls st).

(** The object a load delivers ([gltf.scene]) is new: it gets the next
    reference of the store. *)
Definition alloc (o : Object3D) (st : State) : nat * State :=
  (length (heap st), with_heap (heap st ++ [o]) st).

(** [models[key] = ref] *)
Definition register (key : string) (ref : nat) (st : State) : State :=
  mkState (heap st) (<[key := ref]> (models st)) (protoVisible st)
          (currentModel st) (lightTarget st) (inflight st) (loadCalls st).

(** What happens while the page is open. *)
Inductive Event :=
  | LoadDone (r : Request) (gltfScene : Object3D)   (* [onLoad] of [r] *)
  | LoadError (r : Request)                         (* [onError] of [r] *)
  | Scroll (w : Page)                               (* the scroll listener *)
  | Switch (modelKey : option string).              (* a call of [switchModel] *)

Definition isPending (r : Request) (st : State) : bool :=
  bool_decide (r ∈ inflight st).

(** ** [main.js] *)

Module MainJs.

Definition carPath : string :=
  "public/vehicle_-_subaru_brz_rocket_bunny/scene.gltf".

Definition modelPaths : list (string * string) :=
  [ ("livingroom", "public/cozy_living_room_baked_gltf/scene.gltf");
    ("bedroom", "public/millennium_falcon/scene.gltf");
    ("kitchen", "public/city_gltf/scene.gltf") ]%string.

Definition loadOtherModels (st : State) : State :=
  fold_left (fun s entry => loader_load (ReqOther entry.1 entry.2) s)
            modelPaths st.

Definition loadCarModel (st : State) : State :=
  loader_load (ReqCar carPath) st.

(** The [onLoad] callback of [loadCarModel]. *)
Definition onCarLoaded (gltfScene : Object3D) (st : State) : State :=
  let model := prepareModel gltfScene true in
  let (ref, st1) := alloc model st in
  loadOtherModels (register "car" ref (assignCurrent (VModel ref) st1)).

(** The [onError] callback of [loadCarModel]. *)
Definition onCarError (st : State) : State := loadOtherModels st.

(** The [onLoad] callback of [loadOtherModels] for [key]. *)
Definition onOtherLoaded (key : string) (gltfScene : Object3D) (st : State) : State :=
  let model := set_visible false (prepareModel gltfScene false) in
  let (ref, st1) := alloc model st in
  register key ref st1.

(** The [onError] callback of [loadOtherModels]: it only logs. *)
Definition onOtherError (key : string) (st : State) : State := st.

Definition handleScroll (w : Page) (st : State) : completion * State :=
  match sections w !! 1%nat with
  | None => (Threw, st)                (* [sections[1]] is [undefined] *)
  | Some second =>
      if Qlt_bool (scrollY w) (lowerBound (innerHeight w) second) then backToCar st
      else
        forEach (fun section index s =>
                   if (index =? 0)%nat then (Returned, s)
                   else visitSection w section s)
                (sections w) 0%nat st
  end.

(** The script's top level: [loadCarModel()]. *)
Definition boot : State := loadCarModel initial.

Definition dispatch (ev : Event) (st : State) : completion * State :=
  match ev with
  | LoadDone r gltfScene =>
      if isPending r st then
        match r with
        | ReqCar _ => (Returned, onCarLoaded gltfScene (settled r st))
        | ReqOther key _ => (Returned, onOtherLoaded key gltfScene (settled r st))
        end
      else (Returned, st)
  | LoadError r =>
      if isPending r st then
        match r with
        | ReqCar _ => (Returned, onCarError (settled r st))
        | ReqOther key _ => (Returned, onOtherError key (settled r st))
        end
      else (Returned, st)
  | Scroll w => handleScroll w st
  | Switch modelKey => switchModel modelKey st
  end.

(** The state after a sequence of events; a handler that throws leaves
    what it had written so far. *)
Definition run (evs : list Event) (st : State) : State :=
  fold_left (fun s ev => (dispatch ev s).2) evs st.

(** How each handler of the sequence ended. *)
Fixpoint outcomes (evs : list Event) (st : State) : list completion :=
  match evs with
  | [] => []
  | ev :: evs' => (dispatch ev st).1 :: outcomes evs' (dispatch ev st).2
  end.

End MainJs.

(** ** The second entry point ([isSolutionsPage] is fixed at page load) *)

Module Part000.

Definition carPath : string := "public/city_gltf/scene.gltf".

Definition modelPaths : list (string * string) :=
  [ ("livingroom", "public/cozy_living_room_baked_gltf/scene.gltf");
    ("bedroom", "public/millennium_falcon/scene.gltf");
    ("kitchen", "public/city_gltf/scene.gltf") ]%string.

Definition loadOtherModels (st : State) : State :=
  fold_left (fun s entry => loader_load (ReqOther entry.1 entry.2) s)
            modelPaths st.

Definition loadCarModel (st : State) : State :=
  loader_load (ReqCar carPath) st.

Definition onCarLoaded (gltfScene : Object3D) (st : State) : State :=
  let model := prepareModel gltfScene true in
  let (ref, st1) := alloc model st in
  loadOtherModels (register "car" ref (assignCurrent (VModel ref) st1)).

Definition onCarError (st : State) : State := loadOtherModels st.

Definition onOtherLoaded (isSolutionsPage : bool) (key : string)
    (gltfScene : Object3D) (st : State) : State :=
  let model := set_visible false (prepareModel gltfScene false) in
  let (ref, st1) := alloc model st in
  let st2 := register key ref st1 in
  if isSolutionsPage && String.eqb key "livingroom"
     && negb (bool_decide (is_Some (currentModel st2)))
  then assignVisible ref true (assignCurrent (VModel ref) st2)
  else st2.

Definition onOtherError (key : string) (st : State) : State := st.

Definition handleScroll (isSolutionsPage : bool) (w : Page) (st : State)
    : completion * State :=
  let handleSections :=
    forEach (fun section (_ : nat) s => visitSection w section s)
            (sections w) 0%nat st in
  if negb isSolutionsPage then
    match sections w !! 1%nat with
    | None => (Threw, st)
    | Some second =>
        if Qlt_bool (scrollY w) (lowerBound (innerHeight w) second) then backToCar st
        else handleSections
    end
  else handleSections.

(** The script's top level. *)
Definition boot (isSolutionsPage : bool) : State :=
  if negb isSolutionsPage then loadCarModel initial
  else loadOtherModels initial.

Definition dispatch (isSolutionsPage : bool) (ev : Event) (st : State)
    : completion * State :=
  match ev with
  | LoadDone r gltfScene =>
      if isPending r st then
        match r with
        | ReqCar _ => (Returned, onCarLoaded gltfScene (settled r st))
        | ReqOther key _ =>
            (Returned, onOtherLoaded isSolutionsPage key gltfScene (settled r st))
        end
      else (Returned, st)
  | LoadError r =>
      if isPending r st then
        match r with
        | ReqCar _ => (Returned, onCarError (settled r st))
        | ReqOther key _ => (Returned, onOtherError key (settled r st))
        end
      else (Returned, st)
  | Scroll w => handleScroll isSolutionsPage w st
  | Switch modelKey => switchModel modelKey st
  end.

Definition run (isSolutionsPage : bool) (evs : list Event) (st : State) : State :=
  fold_left (fun s ev => (dispatch isSolutionsPage ev s).2) evs st.

Fixpoint outcomes (isSolutionsPage : bool) (evs : list Event) (st : State)
    : list completion :=
  match evs with
  | [] => []
  | ev :: evs' =>
      (dispatch isSolutionsPage ev st).1
      :: outcomes isSolutionsPage evs' (dispatch isSolutionsPage ev st).2
  end.

End Part000.

(** ** Observations and invariants of the registry *)

(** The registered keys whose model has [visible = true]. *)
Definition visibleKeys (st : State) : list string :=
  (filter (fun kv => isVisible st kv.2 = true) (map_to_list (models st))).*1.

(** The key a load was started for. *)
Definition requestKey (r : Request) : string :=
  match r with
  | ReqCar _ => "car"%string
  | ReqOther key _ => key
  end.

(** The loads one run of [loadOtherModels] starts (the table is the same
    in both scripts). *)
Definition backgroundRequests : list Request :=
  (fun entry => ReqOther entry.1 entry.2) <$> MainJs.modelPaths.

(** How many loads of [key] are in flight. *)
Definition loadsInFlight (key : string) (st : State) : nat :=
  length (filter (fun r => requestKey r = key) (inflight st)).

(** A name that a read of [models] may find on [Object.prototype]: one of
    its functions, [__proto__], or [visible], which the scripts themselves
    can create there. *)
Definition inheritedName (key : string) : bool :=
  bool_decide (key ∈ objectPrototypeFunctions)
  || String.eqb key "__proto__" || String.eqb key "visible".

(** A section whose [data-model], if any, is no such name. *)
Definition plainSection (s : SectionElement) : Prop :=
  forall key, dataModel s = Some key -> inheritedName key = false.

(** An event that hands no such name to [switchModel]. *)
Definition plainEvent (ev : Event) : Prop :=
  match ev with
  | Scroll w => Forall plainSection (sections w)
  | Switch (Some key) => inheritedName key = false
  | _ => True
  end.

(** Every reference held by the script designates an object. *)
Definition refsValid (st : State) : Prop :=
  (forall k n, models st !! k = Some n -> (n < length (heap st))%nat) /\
  (forall n, currentModel st = Some (VModel n) -> (n < length (heap st))%nat).

(** A registered model that is visible is the current one. *)
Definition onlyCurrentVisible (st : State) : Prop :=
  forall k n, models st !! k = Some n -> isVisible st n = true ->
              currentModel st = Some (VModel n).

(** Two keys never share an object. *)
Definition noAlias (st : State) : Prop :=
  forall k1 k2 n, models st !! k1 = Some n -> models st !! k2 = Some n -> k1 = k2.

(** While the car is loading nothing else has happened. *)
Definition carFirst (st : State) : Prop :=
  forall p, ReqCar p ∈ inflight st ->
            models st = ∅ /\ inflight st = [ReqCar p] /\ loadCalls st = [ReqCar p].

(** Once the car is registered [currentModel] is not [null]. *)
Definition carCurrent (st : State) : Prop :=
  is_Some (models st !! "car"%string) -> is_Some (currentModel st).

(** Keys in flight are pairwise distinct, not the car's when started by
    [loadOtherModels], and not registered yet; no key was requested
    twice. *)
Definition loadsFresh (st : State) : Prop :=
  NoDup (requestKey <$> inflight st) /\
  NoDup (requestKey <$> loadCalls st) /\
  (forall r, r ∈ inflight st -> models st !! requestKey r = None) /\
  (forall k p, ReqOther k p ∈ inflight st -> k <> "car"%string).

Record inv (st : State) : Prop := mkInv {
  inv_refs : refsValid st;
  inv_visible : onlyCurrentVisible st;
  inv_alias : noAlias st;
  inv_carFirst : carFirst st;
  inv_carCurrent : carCurrent st;
  inv_loads : loadsFresh st
}.

(** The viewer shows nothing: no model is registered, current or aimed at,
    and no object exists. *)
Definition nothingShown (st : State) : Prop :=
  heap st = [] /\ models st = ∅ /\ currentModel st = None /\ lightTarget st = None.

(** The events of a session in which every load fails, on pages with at
    least two sections none of which names an inherited property. *)
Definition failureOrScroll (ev : Event) : Prop :=
  match ev with
  | LoadDone _ _ => False
  | LoadError _ => True
  | Scroll w => (2 <= length (sections w))%nat /\ Forall plainSection (sections w)
  | Switch _ => False
  end.

(** The load of [key] is over and has registered nothing, and the car's
    load is over as well (so that [loadOtherModels] will not run again). *)
Definition keyAbsent (key : string) (st : State) : Prop :=
  models st !! key = None /\
  (key ∉ requestKey <$> inflight st) /\
  (forall p, ReqCar p ∉ inflight st).

(** ** Sample data *)

(** A section bound to the living room, 600 pixels high. *)
Definition exampleSection : SectionElement :=
  mkSection 1000 600 (Some "livingroom"%string).

(** A mesh at the origin, scale 1, visible, with a geometry that spans
    from (0,0,0) to (2,0,0), so that its bounding box is centred at
    (1,0,0). *)
Definition offCentreMesh : Object3D :=
  mkObject3D origin (Vec3 1 1 1) true true false false
    (Some (mkMaterial false (Some 1) None))
    (Some [Vec3 0 0 0; Vec3 2 0 0]) [].

(** A loaded scene: a group at the origin with scale 1 that holds the
    mesh above. *)
Definition offCentreScene : Object3D :=
  mkObject3D origin (Vec3 1 1 1) true false false false None None
    [offCentreMesh].

(** [main.js] after the car's load has completed: the car is registered,
    current and visible; the three background loads are in flight. *)
Definition carLoaded : State :=
  MainJs.run [LoadDone (ReqCar MainJs.carPath) offCentreScene] MainJs.boot.

(** [main.js] after the car and the living room have loaded and the
    living room was switched to. *)
Definition livingRoomShown : State :=
  MainJs.run
    [ LoadDone (ReqCar MainJs.carPath) offCentreScene;
      LoadDone (ReqOther "livingroom" "public/cozy_living_room_baked_gltf/scene.gltf")
               offCentreScene;
      Switch (Some "livingroom"%string) ]
    MainJs.boot.

(** A page of two sections scrolled to its top, in a window 800 pixels
    high; the first section names the kitchen. *)
Definition pageAtTop : Page :=
  mkPage [mkSection 0 1000 (Some "kitchen"%string); exampleSection] 0 800.

(** The car and the living room are loaded; the car is current. *)
Definition bothLoaded : State :=
  MainJs.run
    [ LoadDone (ReqCar MainJs.carPath) offCentreScene;
      LoadDone (ReqOther "livingroom" "public/cozy_living_room_baked_gltf/scene.gltf")
               offCentreScene ]
    MainJs.boot.

(** A layout in which the first section (1000 pixels from 0) extends over
    the second (100 pixels from 600), scrolled to 400 in a window 800
    pixels high: the offset is past the second section's range (200 to
    300) and inside the first one's (-400 to 600). *)
Definition overlappingPage : Page :=
  mkPage [ mkSection 0 1000 (Some "livingroom"%string);
           mkSection 600 100 (Some "bedroom"%string) ] 400 800.

(** [main.js] after the car's load has failed: the three background loads
    are in flight. *)
Definition carFailed : State :=
  MainJs.run [LoadError (ReqCar MainJs.carPath)] MainJs.boot.

Definition bedroomRequest : Request :=
  ReqOther "bedroom" "public/millennium_falcon/scene.gltf".

(** The rest of a session in which the bedroom's load has failed: the two
    other loads complete and the page is scrolled. *)
Definition afterBedroomFailure : list Event :=
  [ LoadDone (ReqOther "livingroom" "public/cozy_living_room_baked_gltf/scene.gltf")
             offCentreScene;
    LoadDone (ReqOther "kitchen" "public/city_gltf/scene.gltf") offCentreScene;
    Scroll pageAtTop;
    Switch (Some "bedroom"%string) ].

(** [main.js] after the car's load has failed, the living room has loaded
    and was switched to. *)
Definition livingRoomWithoutCar : State :=
  MainJs.run
    [ LoadError (ReqCar MainJs.carPath);
      LoadDone (ReqOther "livingroom" "public/cozy_living_room_baked_gltf/scene.gltf")
               offCentreScene;
      Switch (Some "livingroom"%string) ]
    MainJs.boot.

(** ** Views of a scene graph *)

(** The nodes of a subtree in the order [traverse] visits them: the node
    itself, then the subtrees of its children. *)
Fixpoint nodes (o : Object3D) : list Object3D :=
  match o with
  | mkObject3D _ _ _ _ _ _ _ _ ch => o :: concat (map nodes ch)
  end.

(** A node without its child list: the fields a [traverse] callback of
    the scripts may write. *)
Definition shallow (o : Object3D) : Object3D := set_children [] o.

(** The scale [prepareModel] writes. *)
Definition preparedScale (isCar : bool) : Vector3 :=
  if isCar then Vec3 (12 # 10) (12 # 10) (12 # 10)
  else Vec3 (8 # 10) (8 # 10) (8 # 10).

(** ** Moving a scene *)

(** [b] is [a] moved by [t], up to equality of numbers. *)
Definition movedBy (t a b : Vector3) : Prop := veq b (vadd a t).

Definition boxMovedBy (t : Vector3) (a b : Box3) : Prop :=
  match a, b with
  | None, None => True
  | Some (lo, hi), Some (lo', hi') => movedBy t lo lo' /\ movedBy t hi hi'
  | _, _ => False
  end.

(** [m'] is [m] followed by the translation [t]. *)
Definition matrixMovedBy (t : Vector3) (m m' : Matrix4) : Prop :=
  veq (m_scale m') (m_scale m) /\ movedBy t (m_pos m) (m_pos m').

(** A scene none of whose nodes has a vertex. *)
Definition noVertices (model : Object3D) : Prop :=
  Forall (fun n => geometry n = None \/ geometry n = Some []) (nodes model).

(** A group that holds an empty group. *)
Definition emptyScene : Object3D :=
  mkObject3D (Vec3 3 4 5) (Vec3 1 1 1) true false false false None None
    [mkObject3D origin (Vec3 2 2 2) true false false false None (Some []) []].

(** ** More invariants of a session *)

(** A pointer that holds a scene holds a registered one. *)
Definition pointersSound (st : State) : Prop :=
  (forall n, currentModel st = Some (VModel n) ->
             exists k, models st !! k = Some n) /\
  (forall n, lightTarget st = Some (VModel n) ->
             exists k, models st !! k = Some n).

(** The state of a session that never handed an inherited name to
    [switchModel]: nothing was written on [Object.prototype],
    [currentModel] is [null] or a scene, and the light is aimed at its
    default target or at the current model. *)
Definition tidy (st : State) : Prop :=
  protoVisible st = None /\
  (forall v, currentModel st = Some v -> exists n, v = VModel n) /\
  (forall v, lightTarget st = Some v -> currentModel st = Some v).

(** The states a walk over sections without inherited names goes
    through, from [st0]. *)
Definition walkState (st0 st : State) : Prop :=
  inv st /\ models st = models st0 /\ currentModel st <> Some VTrue.

(** Every registered model carries the scale of its kind. *)
Definition scaleByKey (st : State) : Prop :=
  forall k n, models st !! k = Some n ->
    exists o, heap st !! n = Some o /\
              scale o = preparedScale (bool_decide (k = "car"%string)).

(** Events whose scroll pages have a second section. *)
Definition secondSectionPresent (ev : Event) : Prop :=
  match ev with
  | Scroll w => (2 <= length (sections w))%nat
  | _ => True
  end.

(** The sections follow one another down the page: heights are not
    negative and a section starts no higher than any earlier one ends. *)
Definition stacked (l : list SectionElement) : Prop :=
  (forall i a, l !! i = Some a -> (0 <= offsetHeight a)%Z) /\
  (forall i j a b, (i < j)%nat -> l !! i = Some a -> l !! j = Some b ->
                   (offsetTop a + offsetHeight a <= offsetTop b)%Z).

(** The loads of a session with a car: only the car's load has been
    started and nothing is registered, or the car's load has settled and
    the background loads were started after it. *)
Definition carThenBackground (carPath : string) (st : State) : Prop :=
  (inflight st = [ReqCar carPath] /\ loadCalls st = [ReqCar carPath] /\
   models st = ∅) \/
  (loadCalls st = ReqCar carPath :: backgroundRequests /\
   inflight st ⊆ backgroundRequests).

(** The loads of a session on the solutions page: the background loads
    and no car. *)
Definition backgroundOnly (st : State) : Prop :=
  loadCalls st = backgroundRequests /\
  inflight st ⊆ backgroundRequests /\
  models st !! "car"%string = None.

(** ** More sample data *)

(** The page of [pageAtTop] scrolled to 700: inside the second section's
    range (600 to 1200). *)
Definition pageAtLivingRoom : Page :=
  mkPage [mkSection 0 1000 (Some "kitchen"%string); exampleSection] 700 800.

(** The same page with the second section bound to the bedroom. *)
Definition pageAtBedroom : Page :=
  mkPage [ mkSection 0 1000 (Some "kitchen"%string);
           mkSection 1000 600 (Some "bedroom"%string) ] 700 800.

(** The events that lead [main.js] to [bothLoaded]. *)
Definition carAndLivingRoomLoad : list Event :=
  [ LoadDone (ReqCar MainJs.carPath) offCentreScene;
    LoadDone (ReqOther "livingroom" "public/cozy_living_room_baked_gltf/scene.gltf")
             offCentreScene ].

(** The car has loaded and a switch to the bedroom, which is not loaded,
    has hidden it. *)
Definition carHiddenEvents : list Event :=
  [ LoadDone (ReqCar MainJs.carPath) offCentreScene;
    Switch (Some "bedroom"%string) ].

(** On the solutions page the living room has loaded. *)
Definition livingRoomLoadOnSolutions : list Event :=
  [ LoadDone (ReqOther "livingroom" "public/cozy_living_room_baked_gltf/scene.gltf")
             offCentreScene ].

(** The page of [pageAtTop] with the second section bound to the name of
    a function of [Object.prototype], scrolled into that section. *)
Definition pageAtConstructor : Page :=
  mkPage [ mkSection 0 1000 (Some "kitchen"%string);
           mkSection 1000 600 (Some "constructor"%string) ] 700 800.

(** A page with a section bound to [__proto__] (range 600 to 1200) and
    one bound to [visible] (range 1200 to 1800), scrolled to [y]. *)
Definition pageWithProtoAndVisible (y : Q) : Page :=
  mkPage [ mkSection 0 1000 (Some "kitchen"%string);
           mkSection 1000 600 (Some "__proto__"%string);
           mkSection 1600 600 (Some "visible"%string) ] y 800.

(** A session of [main.js] that leaves the primitive [true] in
    [currentModel]: a scroll into the [__proto__] section while the car is
    loading, the car's load, a scroll into the [visible] section. *)
Definition sessionToTrue : list Event :=
  [ Scroll (pageWithProtoAndVisible 700);
    LoadDone (ReqCar MainJs.carPath) offCentreScene;
    Scroll (pageWithProtoAndVisible 1300) ].

(** The same session followed by the living room's load. *)
Definition sessionToTrueLoaded : list Event :=
  sessionToTrue ++
  [ LoadDone (ReqOther "livingroom" "public/cozy_living_room_baked_gltf/scene.gltf")
             offCentreScene ].

(** Every load fails, then the page is scrolled into the section bound
    to [constructor]. *)
Definition failuresThenConstructor : list Event :=
  [ LoadError (ReqCar MainJs.carPath);
    LoadError (ReqOther "livingroom" "public/cozy_living_room_baked_gltf/scene.gltf");
    LoadError (ReqOther "bedroom" "public/millennium_falcon/scene.gltf");
    LoadError (ReqOther "kitchen" "public/city_gltf/scene.gltf");
    Scroll pageAtConstructor ].

(** * Properties *)

(** Discharges that the events (or sections) of a concrete list name no
    inherited property and have the sections they need. *)
Ltac plain_events :=
  simpl;
  repeat first
    [ apply Forall_nil
    | apply Forall_cons; split
    | exact I
    | reflexivity
    | lia
    | intros ? [= <-]; reflexivity
    | intros ? [=]
    | split ].

(** ** Sequencing *)

Lemma andThen_return (r : completion * State) :
  andThen r (fun st => (Returned, st)) = r.
Proof. destruct r as [[] st]; reflexivity. Qed.

Lemma andThen_preserves (P : State -> Prop) (r : completion * State)
    (rest : State -> completion * State) :
  P r.2 -> (forall st, P st -> P (rest st).2) -> P (andThen r rest).2.
Proof. destruct r as [[] st]; simpl; auto. Qed.

Lemma andThen_returned (r : completion * State)
    (rest : State -> completion * State) :
  r.1 = Returned -> andThen r rest = rest r.2.
Proof. destruct r as [[] st]; simpl; [reflexivity|discriminate]. Qed.

Lemma andThen_threw (r : completion * State)
    (rest : State -> completion * State) :
  r.1 = Threw -> andThen r rest = r.
Proof. destruct r as [[] st]; simpl; [discriminate|reflexivity]. Qed.

(** ** Comparisons on numbers *)

Lemma Qlt_bool_iff (a b : Q) : Qlt_bool a b = true <-> a < b.
Proof.
  unfold Qlt_bool. rewrite negb_true_iff. split.
  - intros H. apply Qnot_le_lt. intros Hle.
    apply Qle_bool_iff in Hle. congruence.
  - intros H. destruct (Qle_bool b a) eqn:E; [|reflexivity].
    apply Qle_bool_iff in E. exfalso. exact (Qlt_not_le _ _ H E).
Qed.

Lemma Qlt_bool_false_iff (a b : Q) : Qlt_bool a b = false <-> b <= a.
Proof.
  unfold Qlt_bool. rewrite negb_false_iff. apply Qle_bool_iff.
Qed.

Lemma Qlt_bool_irrefl (a : Q) : Qlt_bool a a = false.
Proof. apply Qlt_bool_false_iff. apply Qle_refl. Qed.

Lemma Qle_bool_refl (a : Q) : Qle_bool a a = true.
Proof. apply Qle_bool_iff. apply Qle_refl. Qed.

Lemma inRange_iff (w : Page) (s : SectionElement) :
  inRange w s = true <->
  lowerBound (innerHeight w) s <= scrollY w /\
  scrollY w < upperBound (innerHeight w) s.
Proof.
  unfold inRange. rewrite andb_true_iff, Qle_bool_iff, Qlt_bool_iff. tauto.
Qed.

Lemma bounds_gap (ih : Z) (s : SectionElement) :
  upperBound ih s == lowerBound ih s + inject_Z (offsetHeight s).
Proof. unfold upperBound, lowerBound. ring. Qed.

Lemma lower_lt_upper (ih : Z) (s : SectionElement) :
  (0 < offsetHeight s)%Z -> lowerBound ih s < upperBound ih s.
Proof.
  intros H. rewrite bounds_gap.
  rewrite <- (Qplus_0_r (lowerBound ih s)) at 1.
  apply Qplus_lt_r. change 0 with (inject_Z 0). rewrite <- Zlt_Qlt. exact H.
Qed.

(** C9: the test of the section callback is the half-open interval from
    [offsetTop - innerHeight/2] to [offsetTop + offsetHeight - innerHeight/2]:
    for a section of positive height a scroll offset equal to the lower
    bound is inside, one equal to the upper bound is outside; on a page
    whose second section it is, [handleScroll] of [main.js] does at the
    lower bound exactly what [switchModel] does with the section's key, and
    nothing at the upper bound. *)
Theorem active_range_half_open
    (secs : list SectionElement) (ih : Z) (s : SectionElement) :
  (0 < offsetHeight s)%Z ->
  (forall y, inRange (mkPage secs y ih) s = true <->
             lowerBound ih s <= y /\ y < upperBound ih s) /\
  inRange (mkPage secs (lowerBound ih s) ih) s = true /\
  inRange (mkPage secs (upperBound ih s) ih) s = false /\
  (forall first st,
      MainJs.handleScroll (mkPage [first; s] (lowerBound ih s) ih) st
      = switchModel (dataModel s) st /\
      MainJs.handleScroll (mkPage [first; s] (upperBound ih s) ih) st
      = (Returned, st)).
Proof.
  intros Hpos.
  pose proof (lower_lt_upper ih s Hpos) as Hlt.
  assert (Hlo : forall l, inRange (mkPage l (lowerBound ih s) ih) s = true).
  { intros l. apply inRange_iff. simpl. split; [apply Qle_refl | exact Hlt]. }
  assert (Hhi : forall l, inRange (mkPage l (upperBound ih s) ih) s = false).
  { intros l. unfold inRange. simpl. rewrite Qlt_bool_irrefl. apply andb_false_r. }
  split; [|split; [|split]].
  - intros y. apply (inRange_iff (mkPage secs y ih) s).
  - apply Hlo.
  - apply Hhi.
  - intros first st. split.
    + unfold MainJs.handleScroll. simpl. rewrite Qlt_bool_irrefl.
      unfold visitSection. rewrite Hlo. apply andThen_return.
    + unfold MainJs.handleScroll. simpl.
      replace (Qlt_bool (upperBound ih s) (lowerBound ih s)) with false.
      2:{ symmetry. apply Qlt_bool_false_iff. apply Qlt_le_weak. exact Hlt. }
      unfold visitSection. rewrite Hhi. reflexivity.
Qed.

Lemma active_range_half_open_witness :
  inRange (mkPage [] (lowerBound 800 exampleSection) 800) exampleSection = true /\
  inRange (mkPage [] (upperBound 800 exampleSection) 800) exampleSection = false.
Proof.
  assert (H : (0 < offsetHeight exampleSection)%Z) by (vm_compute; reflexivity).
  destruct (active_range_half_open [] 800 exampleSection H) as (_ & Hlo & Hhi & _).
  split; assumption.
Defined.

(** ** [prepareModel] *)

Lemma traverse_scale (f : Object3D -> Object3D) (o : Object3D) :
  scale (traverse f o) = scale (f o).
Proof. destruct o. reflexivity. Qed.

Lemma traverse_visible (f : Object3D -> Object3D) (o : Object3D) :
  visible (traverse f o) = visible (f o).
Proof. destruct o. reflexivity. Qed.

Lemma traverse_position (f : Object3D -> Object3D) (o : Object3D) :
  position (traverse f o) = position (f o).
Proof. destruct o. reflexivity. Qed.

Lemma prepareChild_scale (o : Object3D) : scale (prepareChild o) = scale o.
Proof. unfold prepareChild. destruct (isMesh o); reflexivity. Qed.

Lemma prepareChild_visible (o : Object3D) : visible (prepareChild o) = visible o.
Proof. unfold prepareChild. destruct (isMesh o); reflexivity. Qed.

(** The scale written by [prepareModel] does not depend on the input. *)
Lemma prepareModel_scale (model : Object3D) (isCar : bool) :
  scale (prepareModel model isCar) =
  if isCar then Vec3 (12 # 10) (12 # 10) (12 # 10)
  else Vec3 (8 # 10) (8 # 10) (8 # 10).
Proof.
  unfold prepareModel. rewrite traverse_scale, prepareChild_scale.
  destruct isCar; reflexivity.
Qed.

(** [prepareModel] leaves the [visible] flag of the root as it found it. *)
Lemma prepareModel_visible (model : Object3D) (isCar : bool) :
  visible (prepareModel model isCar) = visible model.
Proof.
  unfold prepareModel. rewrite traverse_visible, prepareChild_visible.
  destruct isCar; reflexivity.
Qed.

(** The position written by [prepareModel] is the old one minus the centre
    of the box measured under the old scale. *)
Lemma prepareModel_position (model : Object3D) (isCar : bool) :
  position (prepareModel model isCar) =
  vsub (position model) (getCenter (setFromObject model)).
Proof.
  unfold prepareModel. rewrite traverse_position.
  destruct isCar; unfold prepareChild; simpl;
    destruct (isMesh model); reflexivity.
Qed.

(** C4: on a loaded scene at the origin with scale 1 whose box is centred
    at (1,0,0), [prepareModel] moves the scene by (-1,0,0) and then sets the
    scale 0.8 (1.2 for the car): the scale is as claimed, but the box of
    the returned node is centred at (-0.2,0,0) (at (0.2,0,0) for the car),
    not at the origin. *)
Theorem prepareModel_centre_off_origin :
  scale (prepareModel offCentreScene false) = Vec3 (8 # 10) (8 # 10) (8 # 10) /\
  scale (prepareModel offCentreScene true) = Vec3 (12 # 10) (12 # 10) (12 # 10) /\
  veq (getCenter (setFromObject offCentreScene)) (Vec3 1 0 0) /\
  veq (position (prepareModel offCentreScene false)) (Vec3 (-1) 0 0) /\
  veq (getCenter (setFromObject (prepareModel offCentreScene false)))
      (Vec3 (- (2 # 10)) 0 0) /\
  veq (getCenter (setFromObject (prepareModel offCentreScene true)))
      (Vec3 (2 # 10) 0 0) /\
  ~ veq (getCenter (setFromObject (prepareModel offCentreScene false))) origin /\
  ~ veq (getCenter (setFromObject (prepareModel offCentreScene true))) origin.
Proof.
  split; [reflexivity|]. split; [reflexivity|].
  split; [vm_compute; repeat split; reflexivity|].
  split; [vm_compute; repeat split; reflexivity|].
  split; [vm_compute; repeat split; reflexivity|].
  split; [vm_compute; repeat split; reflexivity|].
  split; intros (Hx & _); vm_compute in Hx; discriminate Hx.
Qed.

(** ** The store and the [visible] flags *)

Lemma isVisible_assignVisible_ne (st : State) (n m : nat) (b : bool) :
  n <> m -> isVisible (assignVisible n b st) m = isVisible st m.
Proof.
  intros Hne. unfold isVisible, assignVisible. simpl.
  rewrite list_lookup_alter_ne by exact Hne. reflexivity.
Qed.

Lemma isVisible_assignVisible_eq (st : State) (n : nat) (b : bool) :
  (n < length (heap st))%nat -> isVisible (assignVisible n b st) n = b.
Proof.
  intros Hlt. unfold isVisible, assignVisible. simpl.
  rewrite list_lookup_alter_eq.
  destruct (lookup_lt_is_Some_2 _ _ Hlt) as [o Ho]. rewrite Ho. reflexivity.
Qed.

Lemma isVisible_assignVisible_false (st : State) (n : nat) :
  isVisible (assignVisible n false st) n = false.
Proof.
  unfold isVisible, assignVisible. simpl. rewrite list_lookup_alter_eq.
  destruct (heap st !! n); reflexivity.
Qed.

Lemma isVisible_valid (st : State) (n : nat) :
  isVisible st n = true -> (n < length (heap st))%nat.
Proof.
  unfold isVisible. intros H. destruct (heap st !! n) eqn:E; [|discriminate].
  eapply lookup_lt_Some; eauto.
Qed.

Lemma length_heap_assignVisible (st : State) (n : nat) (b : bool) :
  length (heap (assignVisible n b st)) = length (heap st).
Proof. unfold assignVisible. simpl. apply length_alter. Qed.

(** What a write of [visible] leaves alone, whether it throws or not. *)
Lemma writeVisible_frame (v : Value) (b : bool) (st : State) :
  models (writeVisible v b st).2 = models st /\
  currentModel (writeVisible v b st).2 = currentModel st /\
  lightTarget (writeVisible v b st).2 = lightTarget st /\
  inflight (writeVisible v b st).2 = inflight st /\
  loadCalls (writeVisible v b st).2 = loadCalls st /\
  length (heap (writeVisible v b st).2) = length (heap st).
Proof.
  destruct v; simpl; repeat split; try reflexivity. apply length_alter.
Qed.

Lemma writeVisible_other (v : Value) (b : bool) (st : State) (n : nat) :
  v <> VModel n -> isVisible (writeVisible v b st).2 n = isVisible st n.
Proof.
  intros Hne. destruct v as [m| | |]; simpl; try reflexivity.
  apply isVisible_assignVisible_ne. congruence.
Qed.

Lemma writeVisible_throws (v : Value) (b : bool) (st : State) :
  (writeVisible v b st).1 = Threw <-> v = VTrue.
Proof. destruct v; simpl; split; congruence. Qed.

(** What [hideCurrent] leaves alone. *)
Lemma hideCurrent_frame (st : State) :
  models (hideCurrent st).2 = models st /\
  currentModel (hideCurrent st).2 = currentModel st /\
  lightTarget (hideCurrent st).2 = lightTarget st /\
  inflight (hideCurrent st).2 = inflight st /\
  loadCalls (hideCurrent st).2 = loadCalls st /\
  length (heap (hideCurrent st).2) = length (heap st).
Proof.
  unfold hideCurrent. destruct (currentModel st) as [v|] eqn:E.
  - destruct (writeVisible_frame v false st) as (H1 & H2 & H3 & H4 & H5 & H6).
    rewrite H2. auto 10.
  - simpl. rewrite E. auto 10.
Qed.

Lemma hideCurrent_throws (st : State) :
  (hideCurrent st).1 = Threw <-> currentModel st = Some VTrue.
Proof.
  unfold hideCurrent. destruct (currentModel st) as [v|].
  - rewrite writeVisible_throws. split; congruence.
  - simpl. split; discriminate.
Qed.

Lemma hideCurrent_visible_other (st : State) (n : nat) :
  currentModel st <> Some (VModel n) ->
  isVisible (hideCurrent st).2 n = isVisible st n.
Proof.
  intros Hne. unfold hideCurrent.
  destruct (currentModel st) as [v|]; [|reflexivity].
  apply writeVisible_other. congruence.
Qed.

Lemma hideCurrent_visible_current (st : State) (n : nat) :
  currentModel st = Some (VModel n) -> isVisible (hideCurrent st).2 n = false.
Proof.
  intros H. unfold hideCurrent. rewrite H. apply isVisible_assignVisible_false.
Qed.

(** After [hideCurrent], in a state where only the current model could be
    visible, no registered model is visible. *)
Lemma hideCurrent_none_visible (st : State) :
  onlyCurrentVisible st ->
  forall k n, models (hideCurrent st).2 !! k = Some n ->
              isVisible (hideCurrent st).2 n = false.
Proof.
  intros Hv k n Hk.
  destruct (hideCurrent_frame st) as (Hm & _). rewrite Hm in Hk.
  destruct (decide (currentModel st = Some (VModel n))) as [Hc|Hc].
  - apply hideCurrent_visible_current. exact Hc.
  - rewrite hideCurrent_visible_other by exact Hc.
    destruct (isVisible st n) eqn:E; [|reflexivity].
    exfalso. apply Hc. eapply Hv; eauto.
Qed.

(** A read of [models] that yields a scene found an own key. *)
Lemma getModel_model (key : string) (st : State) (n : nat) :
  getModel key st = Some (VModel n) <-> models st !! key = Some n.
Proof.
  unfold getModel. destruct (models st !! key) as [m|].
  - split; congruence.
  - split; [|discriminate]. case_bool_decide; [discriminate|].
    destruct (String.eqb key "__proto__"); [discriminate|].
    destruct (String.eqb key "visible"); [|discriminate].
    destruct (protoVisible st) as [[]|]; discriminate.
Qed.

(** ** The invariant is kept by every handler *)

(** A state that differs from an invariant one in the store's contents,
    in [Object.prototype] and in the two pointers only. *)
Lemma inv_frame (st st' : State) :
  inv st ->
  models st' = models st ->
  inflight st' = inflight st ->
  loadCalls st' = loadCalls st ->
  length (heap st') = length (heap st) ->
  (forall n, currentModel st' = Some (VModel n) -> (n < length (heap st))%nat) ->
  onlyCurrentVisible st' ->
  (is_Some (currentModel st) -> is_Some (currentModel st')) ->
  inv st'.
Proof.
  intros [Hr Hv Ha Hf Hc Hl] Hm Hi Hlc Hlen Hcur Hv' Hsome.
  split.
  - split.
    + intros k n. rewrite Hm, Hlen. apply Hr.
    + intros n Hn. rewrite Hlen. apply Hcur. exact Hn.
  - exact Hv'.
  - unfold noAlias. rewrite Hm. exact Ha.
  - unfold carFirst. rewrite Hm, Hi, Hlc. exact Hf.
  - unfold carCurrent. rewrite Hm. intros H. apply Hsome, Hc, H.
  - unfold loadsFresh. rewrite Hm, Hi, Hlc. exact Hl.
Qed.

Lemma inv_hideCurrent (st : State) : inv st -> inv (hideCurrent st).2.
Proof.
  intros Hinv. destruct (hideCurrent_frame st) as (Hm & Hc & _ & Hi & Hl & Hlen).
  apply (inv_frame st); try assumption.
  - intros n Hn. rewrite Hc in Hn. destruct (inv_refs _ Hinv) as [_ Hr]. apply Hr, Hn.
  - intros k n Hk Hvis.
    rewrite (hideCurrent_none_visible st (inv_visible _ Hinv) k n Hk) in Hvis.
    discriminate.
  - rewrite Hc. auto.
Qed.

(** Showing a value in a state where no registered model is visible. *)
Lemma inv_showModel (st : State) (v : Value) :
  inv st ->
  (forall k n, models st !! k = Some n -> isVisible st n = false) ->
  (forall m, v = VModel m -> exists k, models st !! k = Some m) ->
  inv (showModel v st).2.
Proof.
  intros Hinv Hnone Hreg.
  assert (Hfr : models (showModel v st).2 = models st /\
                inflight (showModel v st).2 = inflight st /\
                loadCalls (showModel v st).2 = loadCalls st /\
                length (heap (showModel v st).2) = length (heap st) /\
                currentModel (showModel v st).2 = Some v /\
                (forall n, v <> VModel n ->
                           isVisible (showModel v st).2 n = isVisible st n)).
  { unfold showModel. destruct v as [m| | |]; simpl; repeat split;
      try reflexivity; try apply length_alter.
    intros n Hne. unfold isVisible. simpl.
    rewrite list_lookup_alter_ne by congruence. reflexivity. }
  destruct Hfr as (Hm & Hi & Hl & Hlen & Hc & Hvis).
  apply (inv_frame st); try assumption.
  - intros n. rewrite Hc. intros [= ->].
    destruct (Hreg n eq_refl) as [k Hk].
    destruct (inv_refs _ Hinv) as [Hr _]. eapply Hr, Hk.
  - intros k n Hk Hv. rewrite Hm in Hk. rewrite Hc.
    destruct (decide (v = VModel n)) as [->|Hne]; [reflexivity|].
    rewrite Hvis in Hv by exact Hne. rewrite (Hnone k n Hk) in Hv. discriminate.
  - rewrite Hc. eauto.
Qed.

Lemma inv_switchModel (modelKey : option string) (st : State) :
  inv st -> inv (switchModel modelKey st).2.
Proof.
  intros Hinv. unfold switchModel.
  pose proof (inv_hideCurrent st Hinv) as H1.
  pose proof (hideCurrent_none_visible st (inv_visible _ Hinv)) as Hnone.
  destruct (hideCurrent st) as [[] st1]; simpl in *; [|exact H1].
  destruct modelKey as [key|]; [|exact H1].
  destruct (truthy key); [|exact H1].
  destruct (getModel key st1) as [v|] eqn:E; [|exact H1].
  apply inv_showModel; [exact H1|exact Hnone|].
  intros m ->. exists key. apply getModel_model, E.
Qed.

Lemma inv_backToCar (st : State) : inv st -> inv (backToCar st).2.
Proof.
  intros Hinv. unfold backToCar.
  destruct (currentModel st) as [cur|] eqn:Ecur; [|exact Hinv].
  case_bool_decide; [|exact Hinv].
  pose proof (inv_hideCurrent st Hinv) as H1.
  pose proof (hideCurrent_none_visible st (inv_visible _ Hinv)) as Hnone.
  unfold hideCurrent in H1, Hnone. rewrite Ecur in H1, Hnone.
  destruct (writeVisible cur false st) as [[] st1]; simpl in *; [|exact H1].
  destruct (models st1 !! "car"%string) as [car|] eqn:E; [|exact H1].
  pose proof (inv_showModel st1 (VModel car) H1 Hnone) as H2.
  apply H2. intros m [= <-]. eauto.
Qed.

Lemma inv_visitSection (w : Page) (s : SectionElement) (st : State) :
  inv st -> inv (visitSection w s st).2.
Proof.
  intros H. unfold visitSection. destruct (inRange w s); [|exact H].
  apply inv_switchModel, H.
Qed.

Lemma forEach_preserves {A : Type} (P : State -> Prop)
    (callback : A -> nat -> State -> completion * State) :
  (forall a i st, P st -> P (callback a i st).2) ->
  forall l i st, P st -> P (forEach callback l i st).2.
Proof.
  intros Hcb l. induction l as [|a l IH]; intros i st H; simpl; [exact H|].
  apply andThen_preserves; [apply Hcb, H|]. intros st1 H1. apply IH, H1.
Qed.

Lemma inv_handleScroll_main (w : Page) (st : State) :
  inv st -> inv (MainJs.handleScroll w st).2.
Proof.
  intros H. unfold MainJs.handleScroll.
  destruct (sections w !! 1%nat) as [second|]; [|exact H].
  destruct (Qlt_bool _ _); [apply inv_backToCar, H|].
  apply forEach_preserves; [|exact H].
  intros a i s Hs. destruct (i =? 0)%nat; [exact Hs|apply inv_visitSection, Hs].
Qed.

Lemma inv_handleScroll_part000 (b : bool) (w : Page) (st : State) :
  inv st -> inv (Part000.handleScroll b w st).2.
Proof.
  intros H. unfold Part000.handleScroll.
  assert (Hwalk : inv (forEach (fun section (_ : nat) s => visitSection w section s)
                               (sections w) 0%nat st).2).
  { apply forEach_preserves; [|exact H]. intros a i s Hs. apply inv_visitSection, Hs. }
  destruct b; simpl; [exact Hwalk|].
  destruct (sections w !! 1%nat) as [second|]; [|exact H].
  destruct (Qlt_bool _ _); [apply inv_backToCar, H|exact Hwalk].
Qed.

(** ** Settling loads *)

Lemma settle_subseteq (r x : Request) (l : list Request) :
  x ∈ settle r l -> x ∈ l.
Proof.
  induction l as [|r' l IH]; simpl; [auto|].
  destruct (decide (r = r')); intros H.
  - right. exact H.
  - apply elem_of_cons in H as [->|H]; [left|right; auto].
Qed.

Lemma settle_keys_subseteq (r : Request) (k : string) (l : list Request) :
  k ∈ requestKey <$> settle r l -> k ∈ requestKey <$> l.
Proof.
  rewrite !list_elem_of_fmap. intros (x & -> & Hx).
  exists x. split; [reflexivity|]. eapply settle_subseteq; eauto.
Qed.

Lemma settle_keys_NoDup (r : Request) (l : list Request) :
  NoDup (requestKey <$> l) -> NoDup (requestKey <$> settle r l).
Proof.
  induction l as [|r' l IH]; simpl; [auto|].
  rewrite NoDup_cons. intros [Hn Hd].
  destruct (decide (r = r')); [exact Hd|].
  simpl. apply NoDup_cons. split; [|auto].
  intros Hin. apply Hn. eapply settle_keys_subseteq; eauto.
Qed.

Lemma settle_key_gone (r : Request) (l : list Request) :
  r ∈ l -> NoDup (requestKey <$> l) ->
  requestKey r ∉ requestKey <$> settle r l.
Proof.
  induction l as [|r' l IH]; simpl; intros Hin Hd.
  - inversion Hin.
  - apply NoDup_cons in Hd as [Hn Hd].
    destruct (decide (r = r')) as [->|Hne]; [exact Hn|].
    apply elem_of_cons in Hin as [->|Hin]; [congruence|].
    simpl. rewrite not_elem_of_cons. split; [|auto].
    intros Heq. apply Hn. rewrite <- Heq.
    apply list_elem_of_fmap. exists r. auto.
Qed.

Lemma settle_single (r : Request) : settle r [r] = [].
Proof. simpl. destruct (decide (r = r)); [reflexivity|congruence]. Qed.

Lemma isPending_true (r : Request) (st : State) :
  isPending r st = true <-> r ∈ inflight st.
Proof. unfold isPending. apply bool_decide_eq_true. Qed.

(** [loadOtherModels] starts the three configured loads, in the order of
    the table, and touches nothing else. *)
Lemma loadOtherModels_main_eq (st : State) :
  MainJs.loadOtherModels st =
  mkState (heap st) (models st) (protoVisible st) (currentModel st)
    (lightTarget st)
    (inflight st ++ backgroundRequests)
    (loadCalls st ++ backgroundRequests).
Proof.
  unfold MainJs.loadOtherModels, loader_load. simpl.
  rewrite <- !app_assoc. reflexivity.
Qed.

Lemma loadOtherModels_same (st : State) :
  Part000.loadOtherModels st = MainJs.loadOtherModels st.
Proof. reflexivity. Qed.

(** ** The load callbacks keep the invariant *)

Lemma inv_initial_car (p : string) : inv (loader_load (ReqCar p) initial).
Proof.
  split.
  - split; simpl; [intros k n; rewrite lookup_empty|intros n]; discriminate.
  - intros k n. simpl. rewrite lookup_empty. discriminate.
  - intros k1 k2 n. simpl. rewrite lookup_empty. discriminate.
  - intros p'. simpl. intros H. apply list_elem_of_singleton in H as [= <-]. auto.
  - intros [x Hx]. simpl in Hx. rewrite lookup_empty in Hx. discriminate.
  - split; [|split; [|split]]; simpl.
    + apply NoDup_singleton.
    + apply NoDup_singleton.
    + intros r _. apply lookup_empty.
    + intros k p' H. apply list_elem_of_singleton in H. discriminate.
Qed.

Lemma otherKeys_NoDup :
  NoDup (requestKey <$> backgroundRequests).
Proof. simpl. apply (bool_decide_unpack _). vm_compute. reflexivity. Qed.

Lemma otherKeys_not_car (r : Request) :
  r ∈ backgroundRequests ->
  requestKey r <> "car"%string /\ exists k p, r = ReqOther k p.
Proof.
  unfold backgroundRequests, MainJs.modelPaths. simpl.
  rewrite !elem_of_cons, elem_of_nil.
  intros [->|[->|[->|[]]]]; (split; [discriminate|eauto]).
Qed.

(** Starting the background loads in a state with nothing in flight in
    which at most the car is registered. *)
Lemma inv_loadOtherModels (st : State) :
  inv st -> inflight st = [] ->
  (forall k, k <> "car"%string -> models st !! k = None) ->
  NoDup (requestKey <$> (loadCalls st ++ backgroundRequests)) ->
  inv (MainJs.loadOtherModels st).
Proof.
  intros [Hr Hv Ha Hf Hc Hl] Hi Hm Hnd. rewrite loadOtherModels_main_eq, Hi.
  rewrite app_nil_l.
  split; try assumption.
  - intros p. cbn [inflight]. intros Hin.
    apply otherKeys_not_car in Hin as [_ (k & p' & [=])].
  - split; [|split; [|split]]; cbn [inflight loadCalls models].
    + apply otherKeys_NoDup.
    + exact Hnd.
    + intros r Hin. apply Hm. apply otherKeys_not_car, Hin.
    + intros k p Hin. apply otherKeys_not_car in Hin as [Hne _]. exact Hne.
Qed.

Lemma isVisible_alloc_old (st : State) (o : Object3D) (n : nat) :
  (n < length (heap st))%nat ->
  isVisible (alloc o st).2 n = isVisible st n.
Proof.
  intros Hlt. unfold isVisible, alloc. simpl.
  rewrite lookup_app_l by exact Hlt. reflexivity.
Qed.

Lemma isVisible_alloc_new (st : State) (o : Object3D) :
  isVisible (alloc o st).2 (length (heap st)) = visible o.
Proof.
  unfold isVisible, alloc. simpl.
  rewrite lookup_app_r by lia. rewrite Nat.sub_diag. reflexivity.
Qed.

(** The car's load can only settle while it is the sole load. *)
Lemma car_pending_alone (st : State) (p : string) :
  inv st -> ReqCar p ∈ inflight st ->
  models st = ∅ /\ settle (ReqCar p) (inflight st) = [] /\
  loadCalls st = [ReqCar p].
Proof.
  intros Hinv Hin. destruct (inv_carFirst _ Hinv p Hin) as (Hm & Hi & Hl).
  rewrite Hi, settle_single. auto.
Qed.

Lemma inv_onCarError (st : State) (p : string) :
  inv st -> ReqCar p ∈ inflight st ->
  inv (MainJs.onCarError (settled (ReqCar p) st)).
Proof.
  intros Hinv Hin. destruct (car_pending_alone st p Hinv Hin) as (Hm & Hs & Hl).
  unfold MainJs.onCarError. apply inv_loadOtherModels.
  - destruct Hinv as [Hr Hv Ha Hf Hc Hlf]. split; try assumption.
    + intros p'. simpl. rewrite Hs. intros H. inversion H.
    + unfold loadsFresh. simpl. rewrite Hs, Hm, Hl. simpl.
      split; [apply NoDup_nil_2|]. split; [apply NoDup_singleton|].
      split; [intros r H; inversion H|intros k p' H; inversion H].
  - simpl. exact Hs.
  - simpl. intros k _. rewrite Hm. apply lookup_empty.
  - simpl. rewrite Hl. apply (bool_decide_unpack _). vm_compute. reflexivity.
Qed.

Lemma inv_onCarLoaded (st : State) (p : string) (gltfScene : Object3D) :
  inv st -> ReqCar p ∈ inflight st ->
  inv (MainJs.onCarLoaded gltfScene (settled (ReqCar p) st)).
Proof.
  intros Hinv Hin. destruct (car_pending_alone st p Hinv Hin) as (Hm & Hs & Hl).
  unfold MainJs.onCarLoaded, alloc. cbn [settled heap].
  set (model := prepareModel gltfScene true).
  apply inv_loadOtherModels.
  - unfold register, assignCurrent, with_heap. simpl. rewrite Hm, Hs, Hl.
    split.
    + split; simpl.
      * intros k n Hk. apply lookup_insert_Some in Hk as [[_ <-]|[_ Hk]].
        -- rewrite length_app. simpl. lia.
        -- rewrite lookup_empty in Hk. discriminate.
      * intros n [= <-]. rewrite length_app. simpl. lia.
    + intros k n. simpl. intros Hk _.
      apply lookup_insert_Some in Hk as [[_ <-]|[_ Hk]]; [reflexivity|].
      rewrite lookup_empty in Hk. discriminate.
    + intros k1 k2 n. simpl. intros H1 H2.
      apply lookup_insert_Some in H1 as [[<- _]|[_ H1]];
        [|rewrite lookup_empty in H1; discriminate].
      apply lookup_insert_Some in H2 as [[<- _]|[_ H2]];
        [reflexivity|rewrite lookup_empty in H2; discriminate].
    + intros p'. simpl. intros H. inversion H.
    + intros _. simpl. eauto.
    + split; [|split; [|split]]; simpl.
      * apply NoDup_nil_2.
      * apply NoDup_singleton.
      * intros r H. inversion H.
      * intros k p' H. inversion H.
  - simpl. exact Hs.
  - simpl. intros k Hk. rewrite Hm, lookup_insert_ne by congruence.
    apply lookup_empty.
  - simpl. rewrite Hl. apply (bool_decide_unpack _). vm_compute. reflexivity.
Qed.

(** A background load that settles without registering anything. *)
Lemma inv_settled_other (st : State) (k p : string) :
  inv st -> ReqOther k p ∈ inflight st -> inv (settled (ReqOther k p) st).
Proof.
  intros [Hr Hv Ha Hf Hc Hl] Hin. split; try assumption.
  - intros p'. simpl. intros H. apply settle_subseteq in H.
    destruct (Hf p' H) as (_ & Hi & _). rewrite Hi in Hin.
    apply list_elem_of_singleton in Hin. discriminate.
  - destruct Hl as (H1 & H2 & H3 & H4).
    split; [|split; [|split]]; simpl.
    + apply settle_keys_NoDup, H1.
    + exact H2.
    + intros r H. apply H3. eapply settle_subseteq, H.
    + intros k' p' H. eapply H4. eapply settle_subseteq, H.
Qed.

Lemma settled_key_free (st : State) (k p : string) (r : Request) :
  inv st -> ReqOther k p ∈ inflight st ->
  r ∈ inflight (settled (ReqOther k p) st) -> requestKey r <> k.
Proof.
  intros Hinv Hin Hr Heq.
  destruct (inv_loads _ Hinv) as (H1 & _).
  apply (settle_key_gone _ _ Hin H1). simpl.
  apply list_elem_of_fmap. exists r. split; [congruence|exact Hr].
Qed.

Lemma inv_onOtherLoaded (st : State) (k p : string) (gltfScene : Object3D) :
  inv st -> ReqOther k p ∈ inflight st ->
  inv (MainJs.onOtherLoaded k gltfScene (settled (ReqOther k p) st)).
Proof.
  intros Hinv Hin.
  pose proof (inv_settled_other st k p Hinv Hin) as H0.
  pose proof (fun r => settled_key_free st k p r Hinv Hin) as Hfree.
  assert (Hcar : k <> "car"%string).
  { destruct (inv_loads _ Hinv) as (_ & _ & _ & H4). eapply H4, Hin. }
  assert (Hnocar : forall p', ReqCar p' ∉ inflight (settled (ReqOther k p) st)).
  { intros p' H. simpl in H. apply settle_subseteq in H.
    destruct (inv_carFirst _ Hinv p' H) as (_ & Hi & _).
    rewrite Hi in Hin. apply list_elem_of_singleton in Hin. discriminate. }
  set (st0 := settled (ReqOther k p) st) in *. clearbody st0.
  destruct H0 as [[Hr1 Hr2] Hv Ha Hf Hc Hl].
  unfold MainJs.onOtherLoaded.
  set (model := set_visible false (prepareModel gltfScene false)).
  assert (Hnew : isVisible (alloc model st0).2 (length (heap st0)) = false).
  { rewrite isVisible_alloc_new. reflexivity. }
  unfold alloc in *. cbn [fst snd] in *.
  split.
  - split; simpl; rewrite length_app; simpl.
    + intros k' n Hk. apply lookup_insert_Some in Hk as [[_ <-]|[_ Hk]]; [lia|].
      apply Hr1 in Hk. lia.
    + intros n Hn. apply Hr2 in Hn. lia.
  - intros k' n Hk Hvis. simpl in Hk.
    apply lookup_insert_Some in Hk as [[_ <-]|[_ Hk]].
    + change (isVisible (with_heap (heap st0 ++ [model]) st0) (length (heap st0)) = true) in Hvis.
      rewrite Hnew in Hvis. discriminate.
    + simpl. apply (Hv k' n Hk).
      rewrite <- (isVisible_alloc_old st0 model n (Hr1 _ _ Hk)). exact Hvis.
  - intros k1 k2 n. simpl. intros H1 H2.
    apply lookup_insert_Some in H1 as [[<- <-]|[Hn1 H1]];
      apply lookup_insert_Some in H2 as [[<- E]|[Hn2 H2]]; subst; try reflexivity.
    + apply Hr1 in H2. lia.
    + apply Hr1 in H1. lia.
    + eapply Ha; eauto.
  - intros p'. simpl. intros H. destruct (Hnocar p' H).
  - intros Hs. simpl in *. rewrite lookup_insert_ne in Hs by congruence.
    apply Hc, Hs.
  - destruct Hl as (H1 & H2 & H3 & H4).
    split; [|split; [|split]]; simpl; try assumption.
    intros r H. rewrite lookup_insert_ne; [apply H3, H|].
    intros Heq. apply (Hfree r H). congruence.
Qed.

Lemma inv_onOtherLoaded_part000 (b : bool) (st : State) (k p : string)
    (gltfScene : Object3D) :
  inv st -> ReqOther k p ∈ inflight st ->
  inv (Part000.onOtherLoaded b k gltfScene (settled (ReqOther k p) st)).
Proof.
  intros Hinv Hin.
  pose proof (inv_onOtherLoaded st k p gltfScene Hinv Hin) as H2.
  unfold Part000.onOtherLoaded, MainJs.onOtherLoaded in *.
  set (st0 := settled (ReqOther k p) st) in *.
  set (model := set_visible false (prepareModel gltfScene false)) in *.
  unfold alloc in *. cbn [fst snd] in *.
  set (st2 := register k (length (heap st0)) (with_heap (heap st0 ++ [model]) st0)) in *.
  clearbody st0.
  destruct (b && String.eqb k "livingroom" && _) eqn:E; [|exact H2].
  apply andb_true_iff in E as [_ E]. apply negb_true_iff, bool_decide_eq_false in E.
  assert (Hnone : currentModel st2 = None).
  { destruct (currentModel st2); [exfalso; apply E; eauto|reflexivity]. }
  apply (inv_frame st2); try assumption; try reflexivity.
  - simpl. apply length_alter.
  - simpl. intros n [= <-]. rewrite length_app. simpl. lia.
  - intros k' n Hk Hvis. simpl.
    destruct (decide (length (heap st0) = n)) as [->|Hne]; [reflexivity|].
    rewrite isVisible_assignVisible_ne in Hvis by exact Hne.
    change (isVisible st2 n = true) in Hvis.
    pose proof (inv_visible _ H2 k' n Hk Hvis) as Hcur. congruence.
  - simpl. eauto.
Qed.

(** ** Every reachable state satisfies the invariant *)

Lemma inv_initial : inv initial.
Proof.
  split.
  - split; simpl; [intros k n; rewrite lookup_empty|intros n]; discriminate.
  - intros k n. simpl. rewrite lookup_empty. discriminate.
  - intros k1 k2 n. simpl. rewrite lookup_empty. discriminate.
  - intros p. simpl. intros H. inversion H.
  - intros [x Hx]. simpl in Hx. rewrite lookup_empty in Hx. discriminate.
  - split; [|split; [|split]]; simpl.
    + apply NoDup_nil_2.
    + apply NoDup_nil_2.
    + intros r H. inversion H.
    + intros k p H. inversion H.
Qed.

Lemma inv_boot_main : inv MainJs.boot.
Proof. apply inv_initial_car. Qed.

Lemma inv_boot_part000 (b : bool) : inv (Part000.boot b).
Proof.
  destruct b; simpl.
  - apply inv_loadOtherModels.
    + apply inv_initial.
    + reflexivity.
    + intros k _. apply lookup_empty.
    + simpl. apply otherKeys_NoDup.
  - apply inv_initial_car.
Qed.

Lemma inv_dispatch_main (ev : Event) (st : State) :
  inv st -> inv (MainJs.dispatch ev st).2.
Proof.
  intros Hinv. destruct ev as [r g|r|w|k]; simpl.
  - destruct (isPending r st) eqn:E; [|exact Hinv].
    apply isPending_true in E. destruct r as [p|k p]; simpl.
    + apply inv_onCarLoaded; assumption.
    + apply inv_onOtherLoaded; assumption.
  - destruct (isPending r st) eqn:E; [|exact Hinv].
    apply isPending_true in E. destruct r as [p|k p]; simpl.
    + apply inv_onCarError; assumption.
    + apply inv_settled_other; assumption.
  - apply inv_handleScroll_main, Hinv.
  - apply inv_switchModel, Hinv.
Qed.

Lemma inv_dispatch_part000 (b : bool) (ev : Event) (st : State) :
  inv st -> inv (Part000.dispatch b ev st).2.
Proof.
  intros Hinv. destruct ev as [r g|r|w|k]; simpl.
  - destruct (isPending r st) eqn:E; [|exact Hinv].
    apply isPending_true in E. destruct r as [p|k p]; simpl.
    + apply (inv_onCarLoaded st p g); assumption.
    + apply inv_onOtherLoaded_part000; assumption.
  - destruct (isPending r st) eqn:E; [|exact Hinv].
    apply isPending_true in E. destruct r as [p|k p]; simpl.
    + apply (inv_onCarError st p); assumption.
    + apply inv_settled_other; assumption.
  - apply inv_handleScroll_part000, Hinv.
  - apply inv_switchModel, Hinv.
Qed.

Lemma inv_run_main (evs : list Event) (st : State) :
  inv st -> inv (MainJs.run evs st).
Proof.
  revert st. induction evs as [|ev evs IH]; intros st H; simpl; [exact H|].
  apply IH, inv_dispatch_main, H.
Qed.

Lemma inv_run_part000 (b : bool) (evs : list Event) (st : State) :
  inv st -> inv (Part000.run b evs st).
Proof.
  revert st. induction evs as [|ev evs IH]; intros st H; simpl; [exact H|].
  apply IH, inv_dispatch_part000, H.
Qed.

(** A state reached by a run of either script satisfies the invariant. *)
Ltac reach_inv H :=
  destruct H as [->| ->];
  [ apply inv_run_main, inv_boot_main
  | apply inv_run_part000, inv_boot_part000 ].

(** ** At most one visible model *)

Lemma elem_of_visibleKeys (st : State) (k : string) :
  k ∈ visibleKeys st <->
  exists n, models st !! k = Some n /\ isVisible st n = true.
Proof.
  unfold visibleKeys. rewrite list_elem_of_fmap. split.
  - intros ([k' n] & -> & Hin). apply list_elem_of_filter in Hin as [Hv Hin].
    apply elem_of_map_to_list in Hin. exists n. auto.
  - intros (n & Hk & Hv). exists (k, n). split; [reflexivity|].
    apply list_elem_of_filter. split; [exact Hv|].
    apply elem_of_map_to_list. exact Hk.
Qed.

Lemma visibleKeys_NoDup (st : State) : NoDup (visibleKeys st).
Proof.
  unfold visibleKeys.
  eapply sublist_NoDup; [apply (NoDup_fst_map_to_list (models st))|].
  apply fmap_sublist, sublist_filter.
Qed.

Lemma NoDup_all_equal_length {A : Type} (l : list A) :
  NoDup l -> (forall x y, x ∈ l -> y ∈ l -> x = y) -> (length l <= 1)%nat.
Proof.
  intros Hd Heq. destruct l as [|a [|b l]]; simpl; try lia.
  exfalso. apply NoDup_cons in Hd as [Hn _]. apply Hn.
  rewrite (Heq a b); [left|left|right; left].
Qed.

Lemma inv_at_most_one_visible (st : State) :
  inv st -> (length (visibleKeys st) <= 1)%nat.
Proof.
  intros Hinv. apply NoDup_all_equal_length; [apply visibleKeys_NoDup|].
  intros k1 k2 H1 H2.
  apply elem_of_visibleKeys in H1 as (n1 & Hk1 & Hv1).
  apply elem_of_visibleKeys in H2 as (n2 & Hk2 & Hv2).
  pose proof (inv_visible _ Hinv _ _ Hk1 Hv1) as C1.
  pose proof (inv_visible _ Hinv _ _ Hk2 Hv2) as C2.
  assert (n1 = n2) by congruence. subst n2.
  eapply (inv_alias _ Hinv); eauto.
Qed.

Lemma visibleKeys_nil (st : State) :
  (forall k n, models st !! k = Some n -> isVisible st n = false) ->
  visibleKeys st = [].
Proof.
  intros H. destruct (visibleKeys st) as [|k l] eqn:E; [reflexivity|].
  assert (Hk : k ∈ visibleKeys st) by (rewrite E; left).
  apply elem_of_visibleKeys in Hk as (n & Hk & Hv).
  rewrite (H k n Hk) in Hv. discriminate.
Qed.

(** C2: once the car's load has completed, whatever events follow (calls
    of [switchModel] with any key, scroll events on any page, completions
    of the background loads), after each of them at most one registered
    model has [visible = true]; this holds for [main.js] and for the second
    entry point on the main page. *)
Theorem single_visible_after_primary_load
    (gltfScene : Object3D) (evs : list Event) (n : nat) :
  (length (visibleKeys
     (MainJs.run (take n evs)
        (MainJs.dispatch (LoadDone (ReqCar MainJs.carPath) gltfScene)
                         MainJs.boot).2)) <= 1)%nat /\
  (length (visibleKeys
     (Part000.run false (take n evs)
        (Part000.dispatch false (LoadDone (ReqCar Part000.carPath) gltfScene)
                          (Part000.boot false)).2)) <= 1)%nat.
Proof.
  split; apply inv_at_most_one_visible.
  - apply inv_run_main, inv_dispatch_main, inv_boot_main.
  - apply inv_run_part000, inv_dispatch_part000, inv_boot_part000.
Qed.

(** ** [switchModel] with a key that selects no model *)

(** A key that is neither registered nor the name of something
    [Object.prototype] holds reads as [undefined]. *)
Lemma getModel_plain (key : string) (st : State) :
  models st !! key = None -> inheritedName key = false -> getModel key st = None.
Proof.
  intros Hk Hp. unfold getModel. rewrite Hk. unfold inheritedName in Hp.
  apply orb_false_iff in Hp as [Hp Hv]. apply orb_false_iff in Hp as [Hf Hq].
  rewrite Hf, Hq, Hv. reflexivity.
Qed.

Lemma switchModel_unregistered (key : string) (st : State) :
  models st !! key = None -> inheritedName key = false ->
  switchModel (Some key) st = hideCurrent st.
Proof.
  intros H Hp. unfold switchModel.
  destruct (hideCurrent_frame st) as (Hm & _).
  destruct (hideCurrent st) as [[] st1]; simpl in *; [|reflexivity].
  destruct (truthy key); [|reflexivity].
  rewrite getModel_plain; [reflexivity| |exact Hp]. rewrite Hm. exact H.
Qed.

Lemma switchModel_null (st : State) : switchModel None st = hideCurrent st.
Proof. unfold switchModel. destruct (hideCurrent st) as [[] st1]; reflexivity. Qed.




(** C10: in every state [main.js] (or the second entry point) can reach
    in which some model is current, [switchModel(null)] returns and sets
    the current model's [visible] to false; afterwards no registered model
    is visible, [currentModel] still designates the same object, which is
    still in the store and in the registry, now hidden. *)
Theorem switch_null_hides_current
    (b : bool) (evs : list Event) (st : State) (cur : nat) :
  st = MainJs.run evs MainJs.boot \/ st = Part000.run b evs (Part000.boot b) ->
  currentModel st = Some (VModel cur) ->
  (switchModel None st).1 = Returned /\
  isVisible (switchModel None st).2 cur = false /\
  visibleKeys (switchModel None st).2 = [] /\
  currentModel (switchModel None st).2 = Some (VModel cur) /\
  models (switchModel None st).2 = models st /\
  (exists o, heap (switchModel None st).2 !! cur = Some o /\ visible o = false).
Proof.
  intros Hreach Hcur.
  assert (Hinv : inv st) by reach_inv Hreach.
  rewrite switchModel_null.
  destruct (hideCurrent_frame st) as (Hm & Hc & _ & _ & _ & Hlen).
  pose proof (hideCurrent_visible_current st cur Hcur) as Hhid.
  split.
  { destruct (hideCurrent st).1 eqn:E; [reflexivity|].
    apply hideCurrent_throws in E. congruence. }
  split; [exact Hhid|]. split.
  { apply visibleKeys_nil, hideCurrent_none_visible, (inv_visible _ Hinv). }
  split; [congruence|]. split; [exact Hm|].
  destruct (inv_refs _ Hinv) as [_ Hr]. specialize (Hr cur Hcur).
  rewrite <- Hlen in Hr.
  destruct (lookup_lt_is_Some_2 _ _ Hr) as [o Ho]. exists o. split; [exact Ho|].
  unfold isVisible in Hhid. rewrite Ho in Hhid. exact Hhid.
Qed.

Lemma switch_null_hides_current_witness :
  isVisible (switchModel None carLoaded).2 0 = false /\
  visibleKeys (switchModel None carLoaded).2 = [].
Proof.
  assert (Hr : carLoaded = MainJs.run [LoadDone (ReqCar MainJs.carPath) offCentreScene] MainJs.boot \/
               carLoaded = Part000.run false [LoadDone (ReqCar MainJs.carPath) offCentreScene] (Part000.boot false))
    by (left; reflexivity).
  assert (Hc : currentModel carLoaded = Some (VModel 0%nat)) by (vm_compute; reflexivity).
  destruct (switch_null_hides_current false _ carLoaded 0%nat Hr Hc) as (_ & H1 & H2 & _).
  split; assumption.
Defined.

(** ** Scroll events when nothing is registered *)

Lemma switchModel_nothing (modelKey : option string) (st : State) :
  models st = ∅ -> currentModel st = None ->
  (forall key, modelKey = Some key -> inheritedName key = false) ->
  switchModel modelKey st = (Returned, st).
Proof.
  intros Hm Hc Hp. destruct modelKey as [key|].
  - rewrite switchModel_unregistered.
    + unfold hideCurrent. rewrite Hc. reflexivity.
    + rewrite Hm. apply lookup_empty.
    + apply Hp. reflexivity.
  - rewrite switchModel_null. unfold hideCurrent. rewrite Hc. reflexivity.
Qed.

Lemma forEach_fixed {A : Type}
    (callback : A -> nat -> State -> completion * State) (st : State)
    (l : list A) :
  (forall a i, a ∈ l -> callback a i st = (Returned, st)) ->
  forall i, forEach callback l i st = (Returned, st).
Proof.
  induction l as [|a l IH]; intros H i; simpl; [reflexivity|].
  rewrite H by left. simpl. apply IH. intros b j Hb. apply H. right. exact Hb.
Qed.

Lemma visitSection_nothing (w : Page) (s : SectionElement) (st : State) :
  models st = ∅ -> currentModel st = None -> plainSection s ->
  visitSection w s st = (Returned, st).
Proof.
  intros Hm Hc Hp. unfold visitSection. destruct (inRange w s); [|reflexivity].
  apply switchModel_nothing; assumption.
Qed.

Lemma handleScroll_main_nothing (w : Page) (st : State) :
  (2 <= length (sections w))%nat -> Forall plainSection (sections w) ->
  models st = ∅ -> currentModel st = None ->
  MainJs.handleScroll w st = (Returned, st).
Proof.
  intros Hlen Hp Hm Hc. unfold MainJs.handleScroll.
  destruct (lookup_lt_is_Some_2 (sections w) 1%nat Hlen) as [second ->].
  destruct (Qlt_bool _ _).
  - unfold backToCar. rewrite Hc. reflexivity.
  - apply forEach_fixed. intros a i Ha.
    destruct (i =? 0)%nat; [reflexivity|].
    apply visitSection_nothing; try assumption.
    rewrite Forall_forall in Hp. apply Hp, Ha.
Qed.

Lemma handleScroll_part000_nothing (b : bool) (w : Page) (st : State) :
  (b = true \/ (2 <= length (sections w))%nat) ->
  Forall plainSection (sections w) ->
  models st = ∅ -> currentModel st = None ->
  Part000.handleScroll b w st = (Returned, st).
Proof.
  intros Hlen Hp Hm Hc. unfold Part000.handleScroll.
  assert (Hwalk : forEach (fun section (_ : nat) s => visitSection w section s)
                          (sections w) 0%nat st = (Returned, st)).
  { apply forEach_fixed. intros a i Ha. apply visitSection_nothing; try assumption.
    rewrite Forall_forall in Hp. apply Hp, Ha. }
  rewrite Hwalk. destruct b; simpl; [reflexivity|].
  destruct Hlen as [?|Hlen]; [discriminate|].
  destruct (lookup_lt_is_Some_2 (sections w) 1%nat Hlen) as [second ->].
  destruct (Qlt_bool _ _); [|reflexivity].
  unfold backToCar. rewrite Hc. reflexivity.
Qed.

Lemma nothingShown_loadOtherModels (st : State) :
  nothingShown st -> nothingShown (MainJs.loadOtherModels st).
Proof. rewrite loadOtherModels_main_eq. intros H. exact H. Qed.

Lemma nothingShown_settled (r : Request) (st : State) :
  nothingShown st -> nothingShown (settled r st).
Proof. intros H. exact H. Qed.

Lemma total_failure_main (evs : list Event) (st : State) :
  nothingShown st -> Forall failureOrScroll evs ->
  Forall (eq Returned) (MainJs.outcomes evs st) /\
  nothingShown (MainJs.run evs st).
Proof.
  revert st. induction evs as [|ev evs IH]; intros st Hn Hall; simpl.
  - split; [constructor|exact Hn].
  - apply Forall_cons in Hall as [Hev Hall].
    assert (Hstep : (MainJs.dispatch ev st).1 = Returned /\
                    nothingShown (MainJs.dispatch ev st).2).
    { destruct ev as [r g|r|w|k]; simpl in *; try contradiction.
      - destruct (isPending r st); [|auto]. destruct r; simpl; split; try reflexivity.
        + apply nothingShown_loadOtherModels, nothingShown_settled, Hn.
        + exact Hn.
      - destruct Hn as (Hh & Hm & Hc & Hl). destruct Hev as [Hlen Hp].
        rewrite handleScroll_main_nothing by assumption.
        repeat split; assumption. }
    destruct Hstep as [H1 H2]. destruct (IH _ H2 Hall) as [H3 H4].
    split; [constructor; [symmetry; exact H1|exact H3]|exact H4].
Qed.

Lemma total_failure_part000 (b : bool) (evs : list Event) (st : State) :
  nothingShown st -> Forall failureOrScroll evs ->
  Forall (eq Returned) (Part000.outcomes b evs st) /\
  nothingShown (Part000.run b evs st).
Proof.
  revert st. induction evs as [|ev evs IH]; intros st Hn Hall; simpl.
  - split; [constructor|exact Hn].
  - apply Forall_cons in Hall as [Hev Hall].
    assert (Hstep : (Part000.dispatch b ev st).1 = Returned /\
                    nothingShown (Part000.dispatch b ev st).2).
    { destruct ev as [r g|r|w|k]; simpl in *; try contradiction.
      - destruct (isPending r st); [|auto]. destruct r; simpl; split; try reflexivity.
        + apply nothingShown_loadOtherModels, nothingShown_settled, Hn.
        + exact Hn.
      - destruct Hn as (Hh & Hm & Hc & Hl). destruct Hev as [Hlen Hp].
        rewrite handleScroll_part000_nothing by auto.
        repeat split; assumption. }
    destruct Hstep as [H1 H2]. destruct (IH _ H2 Hall) as [H3 H4].
    split; [constructor; [symmetry; exact H1|exact H3]|exact H4].
Qed.

Lemma nothingShown_boot_main : nothingShown MainJs.boot.
Proof. repeat split. Qed.

Lemma nothingShown_boot_part000 (b : bool) : nothingShown (Part000.boot b).
Proof. destruct b; repeat split. Qed.

(** X23: when every load fails, on pages with at least two sections
    none of which is bound to a name inherited from [Object.prototype],
    every handler of the session (the error callbacks and every scroll
    handler call) returns normally, and the state stays the empty one:
    nothing is registered, current, aimed at or visible.  This holds for
    [main.js] and for the second entry point on either page. *)
Theorem total_failure_plain_pages (b : bool) (evs : list Event) :
  Forall failureOrScroll evs ->
  (Forall (eq Returned) (MainJs.outcomes evs MainJs.boot) /\
   nothingShown (MainJs.run evs MainJs.boot) /\
   visibleKeys (MainJs.run evs MainJs.boot) = []) /\
  (Forall (eq Returned) (Part000.outcomes b evs (Part000.boot b)) /\
   nothingShown (Part000.run b evs (Part000.boot b)) /\
   visibleKeys (Part000.run b evs (Part000.boot b)) = []).
Proof.
  intros Hall.
  assert (Hvis : forall st, nothingShown st -> visibleKeys st = []).
  { intros st (_ & Hm & _). apply visibleKeys_nil. intros k n.
    rewrite Hm, lookup_empty. discriminate. }
  destruct (total_failure_main evs _ nothingShown_boot_main Hall) as [H1 H2].
  destruct (total_failure_part000 b evs _ (nothingShown_boot_part000 b) Hall)
    as [H3 H4].
  auto 10.
Qed.

Lemma total_failure_plain_pages_witness :
  Forall (eq Returned)
    (MainJs.outcomes
       [LoadError (ReqCar MainJs.carPath); Scroll pageAtTop;
        LoadError (ReqOther "bedroom" "public/millennium_falcon/scene.gltf")]
       MainJs.boot).
Proof.
  assert (H : Forall failureOrScroll
                [LoadError (ReqCar MainJs.carPath); Scroll pageAtTop;
                 LoadError (ReqOther "bedroom" "public/millennium_falcon/scene.gltf")]).
  { plain_events. }
  exact (proj1 (proj1 (total_failure_plain_pages false _ H))).
Defined.

(** C3 (defect of the code): every load has failed, so nothing is
    registered; a scroll into a section whose [data-model] is
    [constructor] then makes [switchModel] read [models.constructor],
    which is the function [Object] inherited from [Object.prototype]: the
    function becomes [currentModel] and the light's target, and
    [updateMatrixWorld()] throws in the scroll handler.  Both scripts do
    so on the main page, the second one on the solutions page as well. *)
Theorem total_failure_constructor_throws :
  MainJs.outcomes failuresThenConstructor MainJs.boot
  = [Returned; Returned; Returned; Returned; Threw] /\
  models (MainJs.run failuresThenConstructor MainJs.boot) = ∅ /\
  currentModel (MainJs.run failuresThenConstructor MainJs.boot)
  = Some (VFunction "constructor") /\
  lightTarget (MainJs.run failuresThenConstructor MainJs.boot)
  = Some (VFunction "constructor") /\
  Part000.outcomes false failuresThenConstructor (Part000.boot false)
  = [Returned; Returned; Returned; Returned; Threw] /\
  Part000.outcomes true (drop 1 failuresThenConstructor) (Part000.boot true)
  = [Returned; Returned; Returned; Threw].
Proof. vm_compute. repeat split; reflexivity. Qed.

(** The handler also throws on a page with a single section, and, when
    only the car's load has failed, on the way back to the top from a
    section whose model is shown (the shown model is hidden before the
    write to the missing car throws). *)
Example handleScroll_single_section_throws :
  MainJs.handleScroll (mkPage [exampleSection] 0 800) MainJs.boot
  = (Threw, MainJs.boot).
Proof. reflexivity. Qed.

Example handleScroll_missing_car_throws :
  currentModel livingRoomWithoutCar = Some (VModel 0%nat) /\
  isVisible livingRoomWithoutCar 0 = true /\
  (MainJs.handleScroll pageAtTop livingRoomWithoutCar).1 = Threw /\
  isVisible (MainJs.handleScroll pageAtTop livingRoomWithoutCar).2 0 = false.
Proof. vm_compute. repeat split; reflexivity. Qed.

(** ** The home zone *)

Lemma handleScroll_home_main (w : Page) (second : SectionElement) (st : State) :
  sections w !! 1%nat = Some second ->
  scrollY w < lowerBound (innerHeight w) second ->
  MainJs.handleScroll w st = backToCar st.
Proof.
  intros Hs Hlt. unfold MainJs.handleScroll. rewrite Hs.
  apply Qlt_bool_iff in Hlt. rewrite Hlt. reflexivity.
Qed.

Lemma handleScroll_home_part000 (w : Page) (second : SectionElement) (st : State) :
  sections w !! 1%nat = Some second ->
  scrollY w < lowerBound (innerHeight w) second ->
  Part000.handleScroll false w st = backToCar st.
Proof.
  intros Hs Hlt. unfold Part000.handleScroll. simpl. rewrite Hs.
  apply Qlt_bool_iff in Hlt. rewrite Hlt. reflexivity.
Qed.





(** ** The two scroll handlers compared *)

Lemma forEach_skip_first_from (w : Page) (l : list SectionElement)
    (i : nat) (st : State) :
  (1 <= i)%nat ->
  forEach (fun section index s =>
             if (index =? 0)%nat then (Returned, s) else visitSection w section s)
          l i st
  = forEach (fun section (_ : nat) s => visitSection w section s) l i st.
Proof.
  revert i st. induction l as [|a l IH]; intros i st Hi; simpl; [reflexivity|].
  destruct (Nat.eqb_spec i 0); [lia|].
  destruct (visitSection w a st) as [[] st1]; simpl; [apply IH; lia|reflexivity].
Qed.

(** The claim of C6 fails on the code: on a layout whose first section
    reaches below the top of the second, the handler of [main.js] leaves
    the car current while the other one switches to the first section's
    model. *)
Lemma entry_points_differ_on_overlap :
  MainJs.handleScroll overlappingPage bothLoaded = (Returned, bothLoaded) /\
  currentModel bothLoaded = Some (VModel 0%nat) /\
  currentModel (Part000.handleScroll false overlappingPage bothLoaded).2
  = Some (VModel 1%nat) /\
  isVisible (Part000.handleScroll false overlappingPage bothLoaded).2 0 = false /\
  isVisible (MainJs.handleScroll overlappingPage bothLoaded).2 0 = true.
Proof. vm_compute. repeat split; reflexivity. Qed.

(** C6 (amended): on the main page, for every state and every page whose
    first section ends no lower than the second one starts
    ([offsetTop + offsetHeight] of the first is at most [offsetTop] of the
    second), the two scroll handlers end the same way and leave the same
    state: visibility flags, current model and light target. *)
Theorem entry_points_agree_on_main_page (w : Page) (st : State) :
  (forall first second,
      sections w !! 0%nat = Some first -> sections w !! 1%nat = Some second ->
      (offsetTop first + offsetHeight first <= offsetTop second)%Z) ->
  Part000.handleScroll false w st = MainJs.handleScroll w st.
Proof.
  intros Hlayout. unfold Part000.handleScroll, MainJs.handleScroll. simpl.
  destruct (sections w) as [|first [|second rest]] eqn:Es; simpl; try reflexivity.
  destruct (Qlt_bool (scrollY w) (lowerBound (innerHeight w) second)) eqn:Ehome;
    [reflexivity|].
  assert (Hout : inRange w first = false).
  { unfold inRange. apply andb_false_iff. right. apply Qlt_bool_false_iff.
    apply Qlt_bool_false_iff in Ehome.
    eapply Qle_trans; [|exact Ehome].
    unfold upperBound, lowerBound.
    specialize (Hlayout first second eq_refl eq_refl).
    apply Qplus_le_l. rewrite <- inject_Z_plus. rewrite <- Zle_Qle. exact Hlayout. }
  replace (visitSection w first st) with (Returned, st)
    by (unfold visitSection; rewrite Hout; reflexivity).
  simpl. destruct (visitSection w second st) as [[] st1]; simpl; [|reflexivity].
  symmetry. apply forEach_skip_first_from. lia.
Qed.

Lemma entry_points_agree_on_main_page_witness :
  Part000.handleScroll false pageAtTop livingRoomShown
  = MainJs.handleScroll pageAtTop livingRoomShown.
Proof.
  apply entry_points_agree_on_main_page.
  intros first second H0 H1. simpl in H0, H1.
  injection H0 as <-. injection H1 as <-. simpl. lia.
Defined.

(** ** Loads are started without any status check *)

Lemma loadsInFlight_loadOtherModels (key : string) (st : State) :
  loadsInFlight key (MainJs.loadOtherModels st) =
  (loadsInFlight key st
   + length (filter (fun r => requestKey r = key) backgroundRequests))%nat.
Proof.
  unfold loadsInFlight. rewrite loadOtherModels_main_eq. simpl.
  rewrite filter_app, length_app. reflexivity.
Qed.

(** The claim of C5 fails on the code: a second run of [loadOtherModels]
    while the living room is loading starts a second load of it, a run
    after it has loaded starts a new one, and a second [loadCarModel]
    starts a second load of the car. *)
Lemma second_call_loads_again :
  loadsInFlight "livingroom" carFailed = 1%nat /\
  loadsInFlight "livingroom" (MainJs.loadOtherModels carFailed) = 2%nat /\
  is_Some (models bothLoaded !! "livingroom"%string) /\
  loadsInFlight "livingroom" bothLoaded = 0%nat /\
  loadsInFlight "livingroom" (MainJs.loadOtherModels bothLoaded) = 1%nat /\
  loadsInFlight "car" MainJs.boot = 1%nat /\
  loadsInFlight "car" (MainJs.loadCarModel MainJs.boot) = 2%nat.
Proof.
  repeat split; try (vm_compute; reflexivity).
  exists 1%nat. vm_compute. reflexivity.
Qed.

(** C5 (amended): [loadCarModel] and [loadOtherModels] test no status:
    each run starts a load of the car, respectively one load for each of
    the three configured keys, whatever is loading or loaded.  In every
    session of either script they run at most once, so that no key is ever
    requested twice. *)
Theorem loads_unguarded_but_started_once
    (b : bool) (evs : list Event) (st : State) :
  inflight (MainJs.loadCarModel st) = inflight st ++ [ReqCar MainJs.carPath] /\
  inflight (MainJs.loadOtherModels st) = inflight st ++ backgroundRequests /\
  inflight (Part000.loadOtherModels st) = inflight st ++ backgroundRequests /\
  loadsInFlight "livingroom" (MainJs.loadOtherModels st)
  = S (loadsInFlight "livingroom" st) /\
  loadsInFlight "bedroom" (MainJs.loadOtherModels st)
  = S (loadsInFlight "bedroom" st) /\
  loadsInFlight "kitchen" (MainJs.loadOtherModels st)
  = S (loadsInFlight "kitchen" st) /\
  NoDup (requestKey <$> loadCalls (MainJs.run evs MainJs.boot)) /\
  NoDup (requestKey <$> loadCalls (Part000.run b evs (Part000.boot b))).
Proof.
  split; [reflexivity|].
  split; [rewrite loadOtherModels_main_eq; reflexivity|].
  split; [rewrite loadOtherModels_same, loadOtherModels_main_eq; reflexivity|].
  split; [rewrite loadsInFlight_loadOtherModels; simpl; lia|].
  split; [rewrite loadsInFlight_loadOtherModels; simpl; lia|].
  split; [rewrite loadsInFlight_loadOtherModels; simpl; lia|].
  split.
  - apply (inv_loads _ (inv_run_main evs _ inv_boot_main)).
  - apply (inv_loads _ (inv_run_part000 b evs _ (inv_boot_part000 b))).
Qed.

(** ** Failure of one background load *)

Lemma settle_other (r x : Request) (l : list Request) :
  x <> r -> (x ∈ settle r l <-> x ∈ l).
Proof.
  intros Hne. split; [apply settle_subseteq|].
  induction l as [|r' l IH]; simpl; [auto|]. intros Hin.
  apply elem_of_cons in Hin as [->|Hin].
  - destruct (decide (r = r')); [congruence|left].
  - destruct (decide (r = r')); [exact Hin|right; auto].
Qed.

(** Switching and scrolling never touch the registry or the loads. *)
Lemma showModel_registry (v : Value) (st : State) :
  models (showModel v st).2 = models st /\
  inflight (showModel v st).2 = inflight st.
Proof. unfold showModel. destruct v; simpl; auto. Qed.

Lemma switchModel_registry (modelKey : option string) (st : State) :
  models (switchModel modelKey st).2 = models st /\
  inflight (switchModel modelKey st).2 = inflight st.
Proof.
  destruct (hideCurrent_frame st) as (Hm & _ & _ & Hi & _).
  unfold switchModel. destruct (hideCurrent st) as [[] st1]; simpl in *; [|auto].
  destruct modelKey as [key|]; [|auto].
  destruct (truthy key); [|auto].
  destruct (getModel key st1) as [v|]; [|auto].
  destruct (showModel_registry v st1) as [-> ->]. auto.
Qed.

Lemma backToCar_registry (st : State) :
  models (backToCar st).2 = models st /\ inflight (backToCar st).2 = inflight st.
Proof.
  unfold backToCar. destruct (currentModel st) as [cur|]; [|auto].
  case_bool_decide; [|auto].
  destruct (writeVisible_frame cur false st) as (Hm & _ & _ & Hi & _).
  destruct (writeVisible cur false st) as [[] st1]; simpl in *; [|auto].
  destruct (models st1 !! "car"%string); simpl; auto.
Qed.

Lemma handleScroll_main_registry (w : Page) (st : State) :
  models (MainJs.handleScroll w st).2 = models st /\
  inflight (MainJs.handleScroll w st).2 = inflight st.
Proof.
  unfold MainJs.handleScroll.
  destruct (sections w !! 1%nat); [|auto].
  destruct (Qlt_bool _ _); [apply backToCar_registry|].
  apply (forEach_preserves
           (fun s => models s = models st /\ inflight s = inflight st)); [|auto].
  intros a i st' [Hm Hi]. destruct (i =? 0)%nat; [auto|].
  unfold visitSection. destruct (inRange w a); [|auto].
  destruct (switchModel_registry (dataModel a) st') as [-> ->]. auto.
Qed.

Lemma onOtherLoaded_models (k : string) (g : Object3D) (st : State) :
  models (MainJs.onOtherLoaded k g st) = <[k := length (heap st)]> (models st).
Proof. reflexivity. Qed.

Lemma onOtherLoaded_inflight (k : string) (g : Object3D) (st : State) :
  inflight (MainJs.onOtherLoaded k g st) = inflight st.
Proof. reflexivity. Qed.

Lemma keyAbsent_dispatch_main (key : string) (ev : Event) (st : State) :
  keyAbsent key st -> keyAbsent key (MainJs.dispatch ev st).2.
Proof.
  intros (Hm & Hk & Hcar). destruct ev as [r g|r|w|k]; unfold MainJs.dispatch.
  - destruct (isPending r st) eqn:E; [|repeat split; assumption].
    apply isPending_true in E. destruct r as [p|k p]; [destruct (Hcar p E)|].
    cbn [snd]. unfold keyAbsent.
    rewrite onOtherLoaded_models, onOtherLoaded_inflight.
    cbn [settled models inflight heap]. split; [|split].
    + rewrite lookup_insert_ne; [exact Hm|]. intros ->. apply Hk.
      apply list_elem_of_fmap. exists (ReqOther key p). auto.
    + intros Hin. apply Hk. eapply settle_keys_subseteq, Hin.
    + intros p' Hin. apply (Hcar p'). eapply settle_subseteq, Hin.
  - destruct (isPending r st) eqn:E; [|repeat split; assumption].
    apply isPending_true in E. destruct r as [p|k p]; [destruct (Hcar p E)|].
    cbn [snd]. unfold MainJs.onOtherError, keyAbsent.
    cbn [settled models inflight]. split; [exact Hm|]. split.
    + intros Hin. apply Hk. eapply settle_keys_subseteq, Hin.
    + intros p' Hin. apply (Hcar p'). eapply settle_subseteq, Hin.
  - destruct (handleScroll_main_registry w st) as [Em Ei].
    unfold keyAbsent. rewrite Em, Ei. auto.
  - destruct (switchModel_registry k st) as [Em Ei].
    unfold keyAbsent. unfold MainJs.dispatch. rewrite Em, Ei. auto.
Qed.

Lemma keyAbsent_run_main (key : string) (evs : list Event) (st : State) :
  keyAbsent key st -> keyAbsent key (MainJs.run evs st).
Proof.
  revert st. induction evs as [|ev evs IH]; intros st H; simpl; [exact H|].
  apply IH, keyAbsent_dispatch_main, H.
Qed.

(** C8: one load is started per configured entry; when, in any state
    [main.js] reaches, the background load of [key] fails, the error
    callback returns normally and changes nothing but the in-flight list,
    from which only that load is taken: every other load stays in flight
    and still registers its model when it completes, and [key] is not
    registered then nor after any further events. *)
Theorem background_partial_failure
    (evs evs' : list Event) (st : State) (key path : string) :
  st = MainJs.run evs MainJs.boot ->
  ReqOther key path ∈ inflight st ->
  (forall st0, inflight (MainJs.loadOtherModels st0)
               = inflight st0 ++ backgroundRequests) /\
  (forall st0 r, (MainJs.dispatch (LoadError r) st0).1 = Returned) /\
  heap (MainJs.dispatch (LoadError (ReqOther key path)) st).2 = heap st /\
  models (MainJs.dispatch (LoadError (ReqOther key path)) st).2 = models st /\
  currentModel (MainJs.dispatch (LoadError (ReqOther key path)) st).2
  = currentModel st /\
  (forall r, r <> ReqOther key path ->
     (r ∈ inflight (MainJs.dispatch (LoadError (ReqOther key path)) st).2
      <-> r ∈ inflight st)) /\
  (forall key' path' gltfScene,
     ReqOther key' path'
       ∈ inflight (MainJs.dispatch (LoadError (ReqOther key path)) st).2 ->
     is_Some (models (MainJs.dispatch (LoadDone (ReqOther key' path') gltfScene)
                        (MainJs.dispatch (LoadError (ReqOther key path)) st).2).2
              !! key')) /\
  models (MainJs.run evs'
            (MainJs.dispatch (LoadError (ReqOther key path)) st).2) !! key = None.
Proof.
  intros -> Hin.
  set (st := MainJs.run evs MainJs.boot) in *.
  assert (Hinv : inv st) by apply inv_run_main, inv_boot_main.
  assert (Hd : MainJs.dispatch (LoadError (ReqOther key path)) st
               = (Returned, settled (ReqOther key path) st)).
  { simpl. apply isPending_true in Hin. rewrite Hin. reflexivity. }
  rewrite Hd. cbn [fst snd].
  split; [intros st0; rewrite loadOtherModels_main_eq; reflexivity|].
  split.
  { intros st0 r. simpl. destruct (isPending r st0); [|reflexivity].
    destruct r; reflexivity. }
  split; [reflexivity|]. split; [reflexivity|]. split; [reflexivity|].
  split; [intros r Hne; apply settle_other, Hne|].
  split.
  - intros key' path' g Hin'. simpl.
    apply isPending_true in Hin'. simpl in Hin'. rewrite Hin'. simpl.
    rewrite lookup_insert_eq. eauto.
  - apply keyAbsent_run_main.
    destruct (inv_loads _ Hinv) as (H1 & _ & H3 & _).
    split; [exact (H3 _ Hin)|]. split.
    + exact (settle_key_gone _ _ Hin H1).
    + intros p Hp. simpl in Hp. apply settle_subseteq in Hp.
      destruct (inv_carFirst _ Hinv p Hp) as (_ & Hi & _).
      rewrite Hi in Hin. apply list_elem_of_singleton in Hin. discriminate.
Qed.

Lemma background_partial_failure_witness :
  models (MainJs.run afterBedroomFailure
            (MainJs.dispatch (LoadError bedroomRequest) carLoaded).2)
  !! "bedroom"%string = None.
Proof.
  assert (Hr : carLoaded
               = MainJs.run [LoadDone (ReqCar MainJs.carPath) offCentreScene]
                            MainJs.boot) by reflexivity.
  assert (Hin : ReqOther "bedroom" "public/millennium_falcon/scene.gltf"
                  ∈ inflight carLoaded).
  { apply (bool_decide_unpack _). vm_compute. reflexivity. }
  exact (proj2 (proj2 (proj2 (proj2 (proj2 (proj2 (proj2
    (background_partial_failure _ afterBedroomFailure carLoaded _ _ Hr Hin)))))))).
Defined.

(** Scenario B on the table of [main.js]: the car, the living room and
    the kitchen load, the bedroom fails; exactly the three loaded keys are
    registered. *)
Example scenario_bedroom_fails :
  let final := MainJs.run afterBedroomFailure
                 (MainJs.dispatch (LoadError bedroomRequest) carLoaded).2 in
  models final !! "car"%string = Some 0%nat /\
  models final !! "livingroom"%string = Some 1%nat /\
  models final !! "kitchen"%string = Some 2%nat /\
  models final !! "bedroom"%string = None /\
  size (models final) = 3%nat.
Proof. vm_compute. repeat split; reflexivity. Qed.

(** ** What [prepareModel] does to the nodes of a scene *)

(** Induction over a scene graph, with the hypothesis for every child. *)
Lemma Object3D_tree_ind (P : Object3D -> Prop) :
  (forall p s v m c r mat g ch,
      Forall P ch -> P (mkObject3D p s v m c r mat g ch)) ->
  forall o, P o.
Proof.
  intros H. fix IH 1. intros [p s v m c r mat g ch]. apply H.
  induction ch as [|a ch IHch]; constructor; [apply IH|exact IHch].
Qed.

Lemma shallow_set_children (ch : list Object3D) (o : Object3D) :
  shallow (set_children ch o) = shallow o.
Proof. destruct o. reflexivity. Qed.

Lemma nodes_set_children (ch : list Object3D) (o : Object3D) :
  nodes (set_children ch o) = set_children ch o :: concat (map nodes ch).
Proof. destruct o. reflexivity. Qed.

Lemma nodes_unfold (o : Object3D) :
  nodes o = o :: concat (map nodes (children o)).
Proof. destruct o. reflexivity. Qed.

(** [traverse] applies the callback to every node once, in order. *)
Lemma traverse_nodes (f : Object3D -> Object3D) (o : Object3D) :
  shallow <$> nodes (traverse f o) = (fun n => shallow (f n)) <$> nodes o.
Proof.
  induction o as [p s v m c r mat g ch IH] using Object3D_tree_ind.
  cbn [traverse]. rewrite nodes_set_children. cbn [nodes fmap list_fmap].
  rewrite shallow_set_children. f_equal.
  change (list_fmap _ _ ?f ?l) with (f <$> l).
  induction IH as [|a ch Ha _ IHch]; [reflexivity|].
  cbn [map concat]. rewrite !fmap_app. rewrite Ha. f_equal. exact IHch.
Qed.

Lemma tail_nodes (o : Object3D) :
  tail (nodes o) = concat (map nodes (children o)).
Proof. destruct o. reflexivity. Qed.

Lemma prepareModel_unfold (model : Object3D) (isCar : bool) :
  prepareModel model isCar =
  traverse prepareChild
    (set_scale (preparedScale isCar)
       (set_position (vsub (position model) (getCenter (setFromObject model)))
                     model)).
Proof. unfold prepareModel, preparedScale. destruct isCar; reflexivity. Qed.

(** The nodes of the prepared scene, field by field: the callback on the
    moved and rescaled root, then the callback on every descendant. *)
Lemma prepareModel_nodes (model : Object3D) (isCar : bool) :
  shallow <$> nodes (prepareModel model isCar) =
  shallow (prepareChild
             (set_scale (preparedScale isCar)
                (set_position
                   (vsub (position model) (getCenter (setFromObject model)))
                   model)))
  :: ((fun n => shallow (prepareChild n)) <$> tail (nodes model)).
Proof.
  rewrite prepareModel_unfold, traverse_nodes, tail_nodes.
  destruct model. reflexivity.
Qed.

Lemma prepareModel_field {B : Type} (g h : Object3D -> B)
    (model : Object3D) (isCar : bool) :
  (forall n, g (shallow n) = g n) ->
  (forall n, g (prepareChild n) = h n) ->
  (forall p s n, h (set_scale s (set_position p n)) = h n) ->
  g <$> nodes (prepareModel model isCar) = h <$> nodes model.
Proof.
  intros Hsh Hg Hroot.
  transitivity (g <$> (shallow <$> nodes (prepareModel model isCar))).
  { rewrite <- list_fmap_compose. apply list_fmap_ext. intros _ n _. simpl.
    symmetry. apply Hsh. }
  rewrite prepareModel_nodes. cbn [fmap list_fmap].
  rewrite (nodes_unfold model) at 2. cbn [fmap list_fmap].
  rewrite Hsh, Hg, Hroot. f_equal.
  change (list_fmap _ _ ?f ?l) with (f <$> l).
  rewrite <- list_fmap_compose, tail_nodes.
  apply list_fmap_ext. intros _ n _. simpl. rewrite Hsh. apply Hg.
Qed.

Lemma prepareModel_field_tail {B : Type} (g h : Object3D -> B)
    (model : Object3D) (isCar : bool) :
  (forall n, g (shallow n) = g n) ->
  (forall n, g (prepareChild n) = h n) ->
  g <$> tail (nodes (prepareModel model isCar)) = h <$> tail (nodes model).
Proof.
  intros Hsh Hg.
  transitivity (g <$> tail (shallow <$> nodes (prepareModel model isCar))).
  { rewrite <- fmap_tail, <- list_fmap_compose. apply list_fmap_ext.
    intros _ n _. simpl. symmetry. apply Hsh. }
  rewrite prepareModel_nodes. cbn [tail].
  rewrite <- list_fmap_compose.
  apply list_fmap_ext. intros _ n _. simpl. rewrite Hsh. apply Hg.
Qed.

(** X1: [prepareModel] sets [castShadow] and [receiveShadow] on exactly
    the meshes of the scene, the root included: node by node, in traversal
    order, a flag of the result is true if the node is a mesh and is the
    input's flag otherwise; which nodes are meshes does not change. *)
Theorem prepareModel_shadows (model : Object3D) (isCar : bool) :
  castShadow <$> nodes (prepareModel model isCar)
  = (fun n => isMesh n || castShadow n) <$> nodes model /\
  receiveShadow <$> nodes (prepareModel model isCar)
  = (fun n => isMesh n || receiveShadow n) <$> nodes model /\
  isMesh <$> nodes (prepareModel model isCar) = isMesh <$> nodes model /\
  Forall (fun n => isMesh n = true ->
                   castShadow n = true /\ receiveShadow n = true)
         (nodes (prepareModel model isCar)).
Proof.
  assert (H1 : castShadow <$> nodes (prepareModel model isCar)
               = (fun n => isMesh n || castShadow n) <$> nodes model).
  { apply prepareModel_field.
    - intros []; reflexivity.
    - intros n. unfold prepareChild. destruct (isMesh n) eqn:E; simpl; rewrite ?E; reflexivity.
    - intros p s []; reflexivity. }
  assert (H2 : receiveShadow <$> nodes (prepareModel model isCar)
               = (fun n => isMesh n || receiveShadow n) <$> nodes model).
  { apply prepareModel_field.
    - intros []; reflexivity.
    - intros n. unfold prepareChild. destruct (isMesh n) eqn:E; simpl; rewrite ?E; reflexivity.
    - intros p s []; reflexivity. }
  assert (H3 : isMesh <$> nodes (prepareModel model isCar) = isMesh <$> nodes model).
  { apply prepareModel_field.
    - intros []; reflexivity.
    - intros n. unfold prepareChild. destruct (isMesh n) eqn:E; simpl; rewrite ?E; reflexivity.
    - intros p s []; reflexivity. }
  split; [exact H1|]. split; [exact H2|]. split; [exact H3|].
  apply Forall_lookup. intros i n Hn Hmesh.
  assert (Hc : (castShadow <$> nodes (prepareModel model isCar)) !! i = Some (castShadow n))
    by (rewrite list_lookup_fmap, Hn; reflexivity).
  assert (Hr : (receiveShadow <$> nodes (prepareModel model isCar)) !! i = Some (receiveShadow n))
    by (rewrite list_lookup_fmap, Hn; reflexivity).
  assert (Hm : (isMesh <$> nodes (prepareModel model isCar)) !! i = Some (isMesh n))
    by (rewrite list_lookup_fmap, Hn; reflexivity).
  rewrite H1 in Hc. rewrite H2 in Hr. rewrite H3 in Hm.
  rewrite list_lookup_fmap in Hc, Hr, Hm.
  destruct (nodes model !! i) as [n0|]; [|discriminate].
  simpl in Hc, Hr, Hm. injection Hc as Hc. injection Hr as Hr. injection Hm as Hm.
  rewrite Hmesh in Hm. rewrite Hm in Hc, Hr. simpl in Hc, Hr. auto.
Qed.

(** X2: [prepareModel] rewrites the material of every mesh that has one
    and of no other node: [needsUpdate] becomes true, a roughness channel
    that exists becomes 0.6, a metalness channel that exists becomes 0.1,
    and a channel the material does not have is not created. *)
Theorem prepareModel_materials (model : Object3D) (isCar : bool) :
  material <$> nodes (prepareModel model isCar)
  = (fun n => if isMesh n then prepareMaterial <$> material n else material n)
      <$> nodes model /\
  (forall mat, needsUpdate (prepareMaterial mat) = true /\
               roughness (prepareMaterial mat)
               = (fun _ => 6 # 10) <$> roughness mat /\
               metalness (prepareMaterial mat)
               = (fun _ => 1 # 10) <$> metalness mat).
Proof.
  split.
  - apply prepareModel_field.
    + intros []; reflexivity.
    + intros n. unfold prepareChild.
      destruct (isMesh n) eqn:E; simpl; [|reflexivity].
      destruct (material n); reflexivity.
    + intros p s []; reflexivity.
  - intros mat. unfold prepareMaterial. simpl.
    destruct (roughness mat), (metalness mat); auto.
Qed.

(** X3: [prepareModel] changes the placement of the root only: every node
    keeps its [visible] flag and its geometry, every descendant keeps its
    position and scale, and the scene keeps its number of nodes. *)
Theorem prepareModel_keeps_descendants (model : Object3D) (isCar : bool) :
  (fun n => (visible n, geometry n)) <$> nodes (prepareModel model isCar)
  = (fun n => (visible n, geometry n)) <$> nodes model /\
  (fun n => (position n, scale n)) <$> tail (nodes (prepareModel model isCar))
  = (fun n => (position n, scale n)) <$> tail (nodes model) /\
  length (nodes (prepareModel model isCar)) = length (nodes model).
Proof.
  assert (H1 : (fun n => (visible n, geometry n)) <$> nodes (prepareModel model isCar)
               = (fun n => (visible n, geometry n)) <$> nodes model).
  { apply prepareModel_field.
    - intros []; reflexivity.
    - intros n. unfold prepareChild. destruct (isMesh n); reflexivity.
    - intros p s []; reflexivity. }
  split; [exact H1|]. split.
  - apply prepareModel_field_tail.
    + intros []; reflexivity.
    + intros n. unfold prepareChild. destruct (isMesh n); reflexivity.
  - apply (f_equal length) in H1. rewrite !length_fmap in H1. exact H1.
Qed.

(** ** Where [prepareModel] puts the bounding box *)

Lemma Qle_bool_moved (a b a' b' t : Q) :
  a' == a + t -> b' == b + t -> Qle_bool a' b' = Qle_bool a b.
Proof.
  intros Ha Hb. apply eq_true_iff_eq.
  rewrite !Qle_bool_iff, Ha, Hb. apply Qplus_le_l.
Qed.

Lemma qmin_moved (a b a' b' t : Q) :
  a' == a + t -> b' == b + t -> qmin a' b' == qmin a b + t.
Proof.
  intros Ha Hb. unfold qmin. rewrite (Qle_bool_moved a b a' b' t Ha Hb).
  destruct (Qle_bool a b); assumption.
Qed.

Lemma qmax_moved (a b a' b' t : Q) :
  a' == a + t -> b' == b + t -> qmax a' b' == qmax a b + t.
Proof.
  intros Ha Hb. unfold qmax. rewrite (Qle_bool_moved a b a' b' t Ha Hb).
  destruct (Qle_bool a b); assumption.
Qed.

Lemma vmin_moved (t a b a' b' : Vector3) :
  movedBy t a a' -> movedBy t b b' -> movedBy t (vmin a b) (vmin a' b').
Proof.
  intros (H1 & H2 & H3) (H4 & H5 & H6).
  repeat split; simpl; apply qmin_moved; assumption.
Qed.

Lemma vmax_moved (t a b a' b' : Vector3) :
  movedBy t a a' -> movedBy t b b' -> movedBy t (vmax a b) (vmax a' b').
Proof.
  intros (H1 & H2 & H3) (H4 & H5 & H6).
  repeat split; simpl; apply qmax_moved; assumption.
Qed.

Lemma expandByPoint_moved (t : Vector3) (b b' : Box3) (p p' : Vector3) :
  boxMovedBy t b b' -> movedBy t p p' ->
  boxMovedBy t (expandByPoint b p) (expandByPoint b' p').
Proof.
  intros Hb Hp. destruct b as [[lo hi]|], b' as [[lo' hi']|]; simpl in *;
    try contradiction.
  - destruct Hb as [Hlo Hhi]. split; [apply vmin_moved|apply vmax_moved]; assumption.
  - split; assumption.
Qed.

Lemma fold_expandByPoint_moved (t : Vector3) (pts pts' : list Vector3) :
  Forall2 (movedBy t) pts pts' ->
  forall b b', boxMovedBy t b b' ->
  boxMovedBy t (fold_left expandByPoint pts b) (fold_left expandByPoint pts' b').
Proof.
  induction 1 as [|p p' pts pts' Hp _ IH]; intros b b' Hb; simpl; [exact Hb|].
  apply IH, expandByPoint_moved; assumption.
Qed.

Lemma applyToPoint_moved (t : Vector3) (m m' : Matrix4) (x : Vector3) :
  matrixMovedBy t m m' -> movedBy t (applyToPoint m x) (applyToPoint m' x).
Proof.
  intros [(S1 & S2 & S3) (P1 & P2 & P3)]. simpl in *.
  repeat split; simpl.
  - rewrite S1, P1. ring.
  - rewrite S2, P2. ring.
  - rewrite S3, P3. ring.
Qed.

Lemma applyMatrix4_moved (t : Vector3) (m m' : Matrix4) (b : Box3) :
  matrixMovedBy t m m' -> boxMovedBy t (applyMatrix4 m b) (applyMatrix4 m' b).
Proof.
  intros Hm. destruct b as [[lo hi]|]; [|exact I].
  unfold applyMatrix4, setFromPoints.
  apply fold_expandByPoint_moved; [|exact I].
  induction (corners lo hi) as [|c cs IH]; cbn [map]; constructor;
    [apply applyToPoint_moved, Hm|exact IH].
Qed.

Lemma union_moved (t : Vector3) (a a' b b' : Box3) :
  boxMovedBy t a a' -> boxMovedBy t b b' ->
  boxMovedBy t (union a b) (union a' b').
Proof.
  intros Ha Hb.
  destruct a as [[lo1 hi1]|], a' as [[lo1' hi1']|]; simpl in Ha; try contradiction;
    destruct b as [[lo2 hi2]|], b' as [[lo2' hi2']|]; simpl in Hb; try contradiction;
    simpl; auto.
  destruct Ha, Hb. split; [apply vmin_moved|apply vmax_moved]; assumption.
Qed.

Lemma multiplyMatrices_moved (t : Vector3) (parent parent' local : Matrix4) :
  matrixMovedBy t parent parent' ->
  matrixMovedBy t (multiplyMatrices parent local)
                  (multiplyMatrices parent' local).
Proof.
  intros Hm. split.
  - destruct Hm as [(S1 & S2 & S3) _]. simpl.
    repeat split; simpl; [rewrite S1|rewrite S2|rewrite S3]; reflexivity.
  - simpl. apply applyToPoint_moved, Hm.
Qed.

Lemma fold_children_moved (t : Vector3) (ch : list Object3D) :
  Forall (fun o => forall parent parent' box box',
              matrixMovedBy t parent parent' -> boxMovedBy t box box' ->
              boxMovedBy t (expandByObject parent o box)
                           (expandByObject parent' o box')) ch ->
  forall w w' box box',
    matrixMovedBy t w w' -> boxMovedBy t box box' ->
    boxMovedBy t (fold_left (fun b c => expandByObject w c b) ch box)
                 (fold_left (fun b c => expandByObject w' c b) ch box').
Proof.
  induction 1 as [|c ch Hc _ IH]; intros w w' box box' Hw Hb; simpl; [exact Hb|].
  apply IH; [exact Hw|]. apply Hc; assumption.
Qed.

(** Moving the parent moves the box of the subtree. *)
Lemma expandByObject_moved (t : Vector3) (o : Object3D) :
  forall parent parent' box box',
    matrixMovedBy t parent parent' -> boxMovedBy t box box' ->
    boxMovedBy t (expandByObject parent o box) (expandByObject parent' o box').
Proof.
  induction o as [p s v m c r mat g ch IH] using Object3D_tree_ind.
  intros parent parent' box box' Hm Hb. cbn [expandByObject].
  pose proof (multiplyMatrices_moved t parent parent' (Mat4 s p) Hm) as Hw.
  apply fold_children_moved; [exact IH|exact Hw|].
  destruct g as [pts|]; [|exact Hb].
  apply union_moved; [exact Hb|]. apply applyMatrix4_moved, Hw.
Qed.

(** Moving the root of a scene moves its box. *)
Lemma setFromObject_moved (t : Vector3) (model : Object3D) :
  boxMovedBy t (setFromObject model)
               (setFromObject (set_position (vadd (position model) t) model)).
Proof.
  destruct model as [p s v m c r mat g ch]. unfold setFromObject, set_position.
  cbn [expandByObject position scale visible isMesh castShadow receiveShadow
       material geometry children].
  assert (Hw : matrixMovedBy t (multiplyMatrices identity (Mat4 s p))
                               (multiplyMatrices identity (Mat4 s (vadd p t)))).
  { split; simpl; repeat split; simpl; ring. }
  apply fold_children_moved; [|exact Hw|].
  - apply Forall_forall. intros o _. apply expandByObject_moved.
  - destruct g as [pts|]; [|exact I].
    apply union_moved; [exact I|]. apply applyMatrix4_moved, Hw.
Qed.

(** The translation step of [prepareModel], taken alone, centres the box
    of the scene at the origin (an empty box has its centre there by
    convention). *)
Lemma centre_after_translation (model : Object3D) :
  veq (getCenter
         (setFromObject
            (set_position
               (vsub (position model) (getCenter (setFromObject model)))
               model)))
      origin.
Proof.
  set (c := getCenter (setFromObject model)).
  pose proof (setFromObject_moved (Vec3 (- vx c) (- vy c) (- vz c)) model) as H.
  change (vadd (position model) (Vec3 (- vx c) (- vy c) (- vz c)))
    with (vsub (position model) c) in H.
  subst c.
  destruct (setFromObject model) as [[lo hi]|];
    destruct (setFromObject (set_position _ model)) as [[lo' hi']|];
    simpl in H; try contradiction.
  - destruct H as [(L1 & L2 & L3) (H1 & H2 & H3)]. simpl in *.
    repeat split; simpl.
    + rewrite L1, H1. ring.
    + rewrite L2, H2. ring.
    + rewrite L3, H3. ring.
  - repeat split; reflexivity.
Qed.

Lemma fold_children_traverse (parent : Matrix4) (ch : list Object3D) :
  Forall (fun o => forall parent box,
              expandByObject parent (traverse prepareChild o) box
              = expandByObject parent o box) ch ->
  forall box,
    fold_left (fun b c => expandByObject parent c b)
              (map (traverse prepareChild) ch) box
    = fold_left (fun b c => expandByObject parent c b) ch box.
Proof.
  induction 1 as [|c ch Hc _ IH]; intros box; simpl; [reflexivity|].
  rewrite Hc. apply IH.
Qed.

(** The callback of [prepareModel] writes nothing the box depends on. *)
Lemma expandByObject_traverse (o : Object3D) :
  forall parent box,
    expandByObject parent (traverse prepareChild o) box
    = expandByObject parent o box.
Proof.
  induction o as [p s v m c r mat g ch IH] using Object3D_tree_ind.
  intros parent box. cbn [traverse]. unfold prepareChild.
  cbn [isMesh]. destruct m; cbn [set_children expandByObject position scale
    visible isMesh castShadow receiveShadow material geometry children];
    apply fold_children_traverse, IH.
Qed.

Lemma set_scale_same (s : Vector3) (o : Object3D) :
  scale o = s -> set_scale s o = o.
Proof. destruct o. simpl. intros ->. reflexivity. Qed.

Lemma prepareModel_centred_at_target_scale (model : Object3D) (isCar : bool) :
  scale model = preparedScale isCar ->
  veq (getCenter (setFromObject (prepareModel model isCar))) origin.
Proof.
  intros Hs. rewrite prepareModel_unfold. unfold setFromObject.
  rewrite expandByObject_traverse.
  rewrite set_scale_same by (destruct model; exact Hs).
  apply centre_after_translation.
Qed.

(** X4: when the scene handed to [prepareModel] already has the scale the
    call writes (1.2 for the car, 0.8 otherwise), the bounding box of the
    returned node is centred at the origin, whatever its position and
    subtree. *)
Theorem prepareModel_centred_when_scale_kept (model : Object3D) (isCar : bool) :
  scale model = preparedScale isCar ->
  veq (getCenter (setFromObject (prepareModel model isCar))) origin.
Proof. apply prepareModel_centred_at_target_scale. Qed.

Lemma prepareModel_centred_when_scale_kept_witness :
  veq (getCenter (setFromObject
                    (prepareModel (set_scale (preparedScale true) offCentreScene) true)))
      origin.
Proof.
  apply prepareModel_centred_when_scale_kept. reflexivity.
Defined.

(** X5: preparing a scene a second time with the same flag centres its
    bounding box at the origin, for every scene: the second call measures
    the box under the scale the first one wrote. *)
Theorem prepareModel_twice_centred (model : Object3D) (isCar : bool) :
  veq (getCenter
         (setFromObject (prepareModel (prepareModel model isCar) isCar)))
      origin /\
  scale (prepareModel (prepareModel model isCar) isCar) = preparedScale isCar.
Proof.
  split.
  - apply prepareModel_centred_at_target_scale.
    rewrite prepareModel_scale. destruct isCar; reflexivity.
  - rewrite prepareModel_scale. destruct isCar; reflexivity.
Qed.

Lemma fold_children_noVertices (parent : Matrix4) (ch : list Object3D) :
  Forall (fun o => Forall (fun n => geometry n = None \/ geometry n = Some [])
                          (nodes o) ->
                   forall parent box, expandByObject parent o box = box) ch ->
  Forall (fun n => geometry n = None \/ geometry n = Some [])
         (concat (map nodes ch)) ->
  forall box, fold_left (fun b c => expandByObject parent c b) ch box = box.
Proof.
  induction 1 as [|c ch Hc _ IH]; intros Hall box; simpl; [reflexivity|].
  cbn [map concat] in Hall. apply Forall_app in Hall as [H1 H2].
  rewrite (Hc H1). apply IH, H2.
Qed.

Lemma expandByObject_noVertices (o : Object3D) :
  noVertices o -> forall parent box, expandByObject parent o box = box.
Proof.
  unfold noVertices.
  induction o as [p s v m c r mat g ch IH] using Object3D_tree_ind.
  intros Hall parent box. cbn [nodes] in Hall.
  apply Forall_cons in Hall as [Hg Hch]. cbn [geometry] in Hg.
  cbn [expandByObject].
  rewrite (fold_children_noVertices _ ch IH Hch).
  destruct Hg as [->| ->]; [reflexivity|].
  destruct box as [[lo hi]|]; reflexivity.
Qed.

(** X6: for a scene without any vertex (no geometry, or geometries with
    an empty vertex list) the measured box is empty, [prepareModel] takes
    the origin as its centre and leaves the position of the root as it was;
    the scale is written all the same. *)
Theorem prepareModel_without_vertices (model : Object3D) (isCar : bool) :
  noVertices model ->
  setFromObject model = makeEmpty /\
  veq (position (prepareModel model isCar)) (position model) /\
  scale (prepareModel model isCar) = preparedScale isCar.
Proof.
  intros Hno.
  assert (Hbox : setFromObject model = makeEmpty)
    by (apply expandByObject_noVertices, Hno).
  split; [exact Hbox|]. split.
  - rewrite prepareModel_position, Hbox. simpl.
    repeat split; simpl; ring.
  - rewrite prepareModel_scale. destruct isCar; reflexivity.
Qed.

Lemma prepareModel_without_vertices_witness :
  veq (position (prepareModel emptyScene false)) (Vec3 3 4 5).
Proof.
  assert (H : noVertices emptyScene).
  { unfold noVertices. simpl.
    constructor; [left; reflexivity|].
    constructor; [right; reflexivity|constructor]. }
  exact (proj1 (proj2 (prepareModel_without_vertices emptyScene false H))).
Defined.

(** ** Repeating a switch *)

Lemma alter_visible_twice (b c : bool) (i : nat) (h : list Object3D) :
  alter (set_visible b) i (alter (set_visible c) i h)
  = alter (set_visible b) i h.
Proof.
  rewrite list_alter_alter_eq. apply list_alter_ext; [|reflexivity].
  intros [] _. reflexivity.
Qed.

Lemma hideCurrent_twice (st : State) :
  hideCurrent (hideCurrent st).2 = hideCurrent st.
Proof.
  unfold hideCurrent. destruct (currentModel st) as [[m|f| |]|] eqn:E; simpl;
    rewrite E; simpl; try reflexivity.
  unfold assignVisible, with_heap. simpl.
  rewrite alter_visible_twice. reflexivity.
Qed.

(** What a read of [models] yields, unless it is the primitive [true],
    depends on the registry only. *)
Lemma getModel_stable (key : string) (st st' : State) (v : Value) :
  getModel key st = Some v -> v <> VTrue -> models st' = models st ->
  getModel key st' = Some v.
Proof.
  unfold getModel. intros H Hv ->.
  destruct (models st !! key); [exact H|].
  destruct (bool_decide _); [exact H|].
  destruct (String.eqb key "__proto__"); [exact H|].
  destruct (String.eqb key "visible"); [|discriminate].
  destruct (protoVisible st) as [[]|]; congruence.
Qed.

(** [showModel] once more, after the current value has been hidden. *)
Lemma showModel_again (v : Value) (st : State) :
  andThen (hideCurrent (showModel v st).2) (showModel v) = showModel v st.
Proof.
  destruct v as [m|f| |]; unfold showModel, hideCurrent; simpl; try reflexivity.
  unfold assignVisible, with_heap, aimLight, assignCurrent. simpl.
  rewrite !alter_visible_twice. reflexivity.
Qed.

(** X7: a second [switchModel] with the same key changes nothing: for
    every state and every key (registered or not, inherited or not, [null]
    included), switching twice ends as the first switch ended and leaves
    exactly the state the first switch left. *)
Theorem switchModel_twice (modelKey : option string) (st : State) :
  switchModel modelKey (switchModel modelKey st).2 = switchModel modelKey st.
Proof.
  pose proof (hideCurrent_twice st) as Htw.
  unfold switchModel at 2 3.
  destruct (hideCurrent st) as [[] st1] eqn:Eh; simpl in *.
  2: { unfold switchModel. rewrite Htw. reflexivity. }
  destruct modelKey as [key|];
    [|unfold switchModel; cbn [snd]; rewrite Htw; reflexivity].
  destruct (truthy key) eqn:Et;
    [|unfold switchModel; cbn [snd]; rewrite Htw; simpl; rewrite Et; reflexivity].
  destruct (getModel key st1) as [v|] eqn:Eg;
    [|unfold switchModel; cbn [snd]; rewrite Htw; simpl; rewrite Et, Eg;
      reflexivity].
  transitivity (andThen (hideCurrent (showModel v st1).2) (showModel v));
    [|apply showModel_again].
  unfold switchModel. rewrite Et.
  destruct (decide (v = VTrue)) as [->|Hv]; [reflexivity|].
  destruct (hideCurrent_frame (showModel v st1).2) as (Hm & _).
  destruct (showModel_registry v st1) as [Hm1 _].
  destruct (hideCurrent (showModel v st1).2) as [[] st3]; simpl in *; [|reflexivity].
  rewrite (getModel_stable key st1 st3 v Eg Hv) by congruence. reflexivity.
Qed.

(** ** When [switchModel] throws *)

Lemma showModel_throws (v : Value) (st : State) :
  (showModel v st).1 = Threw <-> forall n, v <> VModel n.
Proof.
  destruct v as [m|f| |]; simpl; split; try discriminate; try reflexivity.
  intros H. destruct (H m eq_refl).
Qed.

(** A read of [models] yields something that is not a scene exactly for
    an unregistered key that names a function of [Object.prototype],
    [__proto__], or [visible] while [Object.prototype.visible] is [true]. *)
Lemma getModel_not_scene (key : string) (st : State) :
  (exists v, getModel key st = Some v /\ forall n, v <> VModel n) <->
  models st !! key = None /\
  (key ∈ objectPrototypeFunctions \/ key = "__proto__"%string \/
   (key = "visible"%string /\ protoVisible st = Some true)).
Proof.
  unfold getModel. destruct (models st !! key) as [m|].
  { split; [|intros [? _]; discriminate].
    intros (v & [= <-] & H). destruct (H m eq_refl). }
  case_bool_decide as Hf.
  { split; [auto|]. intros _. eexists. split; [reflexivity|discriminate]. }
  destruct (String.eqb_spec key "__proto__") as [Hp|Hp].
  { split; [auto|]. intros _. eexists. split; [reflexivity|discriminate]. }
  destruct (String.eqb_spec key "visible") as [Hv|Hv].
  - destruct (protoVisible st) as [[]|].
    + split; [auto 6|]. intros _. eexists. split; [reflexivity|discriminate].
    + split; [intros (v & ? & _); discriminate|].
      intros (_ & [?|[?|(_ & ?)]]); [tauto|tauto|discriminate].
    + split; [intros (v & ? & _); discriminate|].
      intros (_ & [?|[?|(_ & ?)]]); [tauto|tauto|discriminate].
  - split; [intros (v & ? & _); discriminate|].
    intros (_ & [?|[?|(? & _)]]); tauto.
Qed.

Lemma getModel_scene_or_not (key : string) (st : State) (v : Value) :
  getModel key st = Some v ->
  (exists n, v = VModel n) \/ (forall n, v <> VModel n).
Proof. intros _. destruct v; [left; eauto|right..]; discriminate. Qed.

Lemma hideCurrent_protoVisible (st : State) :
  protoVisible (hideCurrent st).2 =
  if bool_decide (currentModel st = Some VObjectPrototype) then Some false
  else protoVisible st.
Proof.
  unfold hideCurrent. destruct (currentModel st) as [[m|f| |]|]; reflexivity.
Qed.

Lemma truthy_inherited (key : string) :
  key ∈ objectPrototypeFunctions \/ key = "__proto__"%string \/
  key = "visible"%string -> truthy key = true.
Proof.
  intros [H|[->| ->]]; try reflexivity.
  destruct key; [|reflexivity]. exfalso. revert H.
  apply (bool_decide_unpack _). vm_compute. reflexivity.
Qed.

(** [switchModel] throws in exactly two situations: [currentModel]
    is the primitive [true] (the write of [visible] on it throws), or the
    key is not registered and names something [models] inherits from
    [Object.prototype]: one of its functions, [__proto__], or [visible]
    while [Object.prototype.visible] is [true] and is not about to be
    cleared because [Object.prototype] is the current value.  With any
    other key, [null] and the empty string included, it returns. *)
Lemma switchModel_throws (modelKey : option string) (st : State) :
  (switchModel modelKey st).1 = Threw <->
  currentModel st = Some VTrue \/
  (exists key, modelKey = Some key /\ models st !! key = None /\
     (key ∈ objectPrototypeFunctions \/ key = "__proto__"%string \/
      (key = "visible"%string /\ protoVisible st = Some true /\
       currentModel st <> Some VObjectPrototype))).
Proof.
  pose proof (hideCurrent_throws st) as Hth.
  pose proof (hideCurrent_protoVisible st) as Hpv.
  destruct (hideCurrent_frame st) as (Hm & _).
  unfold switchModel.
  destruct (hideCurrent st) as [[] st1]; simpl in *.
  2: { split; [intros _; left; apply Hth; reflexivity|reflexivity]. }
  assert (Hnt : currentModel st <> Some VTrue).
  { intros H. apply Hth in H. discriminate. }
  assert (Hvis : protoVisible st1 = Some true <->
                 protoVisible st = Some true /\
                 currentModel st <> Some VObjectPrototype).
  { rewrite Hpv. case_bool_decide; split; try tauto; discriminate. }
  pose proof (fun key => getModel_not_scene key st1) as Hg.
  split.
  - intros H. right. destruct modelKey as [key|]; [|discriminate].
    destruct (truthy key); [|discriminate].
    destruct (getModel key st1) as [v|] eqn:Eg; [|discriminate].
    pose proof (proj1 (showModel_throws v st1) H) as Hv.
    destruct (proj1 (Hg key)) as (Hk & Hc); [rewrite Eg; eauto|].
    exists key. rewrite <- Hm. split; [reflexivity|]. split; [exact Hk|].
    rewrite <- Hvis. exact Hc.
  - intros [H|(key & -> & Hk & Hc)]; [contradiction|].
    rewrite truthy_inherited by tauto.
    rewrite <- Hm, <- Hvis in *.
    destruct (proj2 (Hg key) (conj Hk Hc)) as (v & -> & Hv).
    exact (proj2 (showModel_throws v st1) Hv).
Qed.

(** ** Keys that are not inherited names *)

Lemma getModel_plain_scene (key : string) (st : State) (v : Value) :
  inheritedName key = false -> getModel key st = Some v ->
  exists n, v = VModel n /\ models st !! key = Some n.
Proof.
  intros Hp Hg. destruct (models st !! key) as [n|] eqn:Ek.
  - unfold getModel in Hg. rewrite Ek in Hg. injection Hg as <-. eauto.
  - rewrite (getModel_plain key st Ek Hp) in Hg. discriminate.
Qed.

(** With a key that is no inherited name, a switch in a state whose
    [currentModel] is not the primitive [true] returns, and leaves such a
    state. *)
Lemma switchModel_plain (modelKey : option string) (st : State) :
  currentModel st <> Some VTrue ->
  (forall key, modelKey = Some key -> inheritedName key = false) ->
  (switchModel modelKey st).1 = Returned /\
  currentModel (switchModel modelKey st).2 <> Some VTrue.
Proof.
  intros Hnt Hp.
  pose proof (hideCurrent_throws st) as Hth.
  destruct (hideCurrent_frame st) as (_ & Hc & _).
  unfold switchModel. destruct (hideCurrent st) as [[] st1]; simpl in *.
  2: { exfalso. apply Hnt, Hth. reflexivity. }
  rewrite <- Hc in Hnt.
  destruct modelKey as [key|]; [|auto].
  destruct (truthy key); [|auto].
  destruct (getModel key st1) as [v|] eqn:Eg; [|auto].
  destruct (getModel_plain_scene key st1 v (Hp key eq_refl) Eg) as (n & -> & _).
  simpl. split; [reflexivity|discriminate].
Qed.

Lemma forEach_returns {A : Type} (P : State -> Prop)
    (callback : A -> nat -> State -> completion * State) (l : list A) :
  (forall a i st, a ∈ l -> P st ->
                  (callback a i st).1 = Returned /\ P (callback a i st).2) ->
  forall i st, P st ->
    (forEach callback l i st).1 = Returned /\ P (forEach callback l i st).2.
Proof.
  induction l as [|a l IH]; intros H i st Hst; simpl; [auto|].
  destruct (H a i st) as [H1 H2]; [left|exact Hst|].
  destruct (callback a i st) as [[] st1]; simpl in *; [|discriminate].
  apply IH; [|exact H2]. intros b j s Hb. apply H. right. exact Hb.
Qed.

Lemma visitSection_plain (w : Page) (s : SectionElement) (st : State) :
  currentModel st <> Some VTrue -> plainSection s ->
  (visitSection w s st).1 = Returned /\
  currentModel (visitSection w s st).2 <> Some VTrue.
Proof.
  intros Hnt Hp. unfold visitSection. destruct (inRange w s); [|auto].
  apply switchModel_plain; assumption.
Qed.

(** The walk over the sections of a page without inherited names. *)
Lemma walk_plain_main (w : Page) (st : State) :
  Forall plainSection (sections w) -> currentModel st <> Some VTrue ->
  (forEach (fun section index s =>
              if (index =? 0)%nat then (Returned, s)
              else visitSection w section s) (sections w) 0%nat st).1
  = Returned /\
  currentModel
    (forEach (fun section index s =>
                if (index =? 0)%nat then (Returned, s)
                else visitSection w section s) (sections w) 0%nat st).2
  <> Some VTrue.
Proof.
  intros Hp Hnt. rewrite Forall_forall in Hp.
  apply (forEach_returns (fun s => currentModel s <> Some VTrue)); [|exact Hnt].
  intros a i s Ha Hs. destruct (i =? 0)%nat; [auto|].
  apply visitSection_plain; auto.
Qed.

Lemma walk_plain_part000 (w : Page) (st : State) :
  Forall plainSection (sections w) -> currentModel st <> Some VTrue ->
  (forEach (fun section (_ : nat) s => visitSection w section s)
           (sections w) 0%nat st).1 = Returned /\
  currentModel
    (forEach (fun section (_ : nat) s => visitSection w section s)
             (sections w) 0%nat st).2 <> Some VTrue.
Proof.
  intros Hp Hnt. rewrite Forall_forall in Hp.
  apply (forEach_returns (fun s => currentModel s <> Some VTrue)); [|exact Hnt].
  intros a i s Ha Hs. apply visitSection_plain; auto.
Qed.

(** ** When the scroll handler throws *)

(** The block for the top of the page throws when something is current
    that is the primitive [true] (the write of [visible] on it throws) or
    that cannot be replaced by the car, because no car is registered. *)
Lemma backToCar_throws (st : State) :
  (backToCar st).1 = Threw <->
  exists cur, currentModel st = Some cur /\
              (cur = VTrue \/ models st !! "car"%string = None).
Proof.
  unfold backToCar. destruct (currentModel st) as [cur|] eqn:Ec.
  2: { simpl. split; [discriminate|]. intros (c & ? & _). discriminate. }
  destruct (writeVisible_frame cur false st) as (Hm & _).
  pose proof (writeVisible_throws cur false st) as Hth.
  case_bool_decide as Hne.
  - destruct (writeVisible cur false st) as [[] st1]; simpl in *.
    + rewrite Hm. destruct (models st !! "car"%string) as [car|]; simpl.
      * split; [discriminate|]. intros (c & [= <-] & [->|?]); [|discriminate].
        destruct Hth as [_ Hth]. discriminate (Hth eq_refl).
      * split; eauto.
    + split; [|reflexivity]. intros _. exists cur. split; [reflexivity|].
      left. apply Hth. reflexivity.
  - simpl. split; [discriminate|]. intros (c & [= <-] & [->|Hcar]).
    + destruct (models st !! "car"%string); discriminate.
    + rewrite Hcar in Hne. discriminate.
Qed.

Lemma handleScroll_main_throws (w : Page) (st : State) :
  Forall plainSection (sections w) -> currentModel st <> Some VTrue ->
  (MainJs.handleScroll w st).1 = Threw <->
  sections w !! 1%nat = None \/
  (exists second, sections w !! 1%nat = Some second /\
                  scrollY w < lowerBound (innerHeight w) second /\
                  is_Some (currentModel st) /\
                  models st !! "car"%string = None).
Proof.
  intros Hp Hnt. unfold MainJs.handleScroll.
  destruct (sections w !! 1%nat) as [second|] eqn:Es.
  - destruct (Qlt_bool _ _) eqn:Eh.
    + rewrite backToCar_throws. apply Qlt_bool_iff in Eh. split.
      * intros (cur & Hc & [->|Hcar]); [contradiction|].
        right. exists second. rewrite Hc. eauto.
      * intros [?|(s2 & [= <-] & _ & [cur Hc] & H2)]; [discriminate|eauto].
    + destruct (walk_plain_main w st Hp Hnt) as [-> _].
      split; [discriminate|].
      intros [?|(s2 & [= <-] & Hlt & _)]; [discriminate|].
      apply Qlt_bool_iff in Hlt. congruence.
  - simpl. split; auto.
Qed.

Lemma handleScroll_part000_throws (b : bool) (w : Page) (st : State) :
  Forall plainSection (sections w) -> currentModel st <> Some VTrue ->
  (Part000.handleScroll b w st).1 = Threw <->
  b = false /\ (MainJs.handleScroll w st).1 = Threw.
Proof.
  intros Hp Hnt.
  destruct (walk_plain_part000 w st Hp Hnt) as [Hw _].
  destruct (walk_plain_main w st Hp Hnt) as [Hw' _].
  unfold Part000.handleScroll, MainJs.handleScroll. destruct b; simpl.
  - rewrite Hw. split; [discriminate|]. intros [? _]. discriminate.
  - destruct (sections w !! 1%nat) as [second|]; [|simpl; tauto].
    destruct (Qlt_bool _ _); [tauto|]. rewrite Hw, Hw'. tauto.
Qed.



(** X22: [switchModel] throws in exactly two situations: [currentModel]
    is the primitive [true] (the write of [visible] on it throws), or the
    key is not registered and names something [models] inherits from
    [Object.prototype]: one of its functions, [__proto__], or [visible]
    while [Object.prototype.visible] is [true] and is not about to be
    cleared because [Object.prototype] is the current value.  With any
    other key, [null] and the empty string included, it returns. *)
Theorem switchModel_throws_iff (modelKey : option string) (st : State) :
  (switchModel modelKey st).1 = Threw <->
  currentModel st = Some VTrue \/
  (exists key, modelKey = Some key /\ models st !! key = None /\
     (key ∈ objectPrototypeFunctions \/ key = "__proto__"%string \/
      (key = "visible"%string /\ protoVisible st = Some true /\
       currentModel st <> Some VObjectPrototype))).
Proof. apply switchModel_throws. Qed.

(** ** What a session keeps *)

Lemma handleScroll_part000_registry (b : bool) (w : Page) (st : State) :
  models (Part000.handleScroll b w st).2 = models st /\
  inflight (Part000.handleScroll b w st).2 = inflight st.
Proof.
  unfold Part000.handleScroll.
  assert (Hwalk : models (forEach (fun section (_ : nat) s => visitSection w section s)
                                  (sections w) 0%nat st).2 = models st /\
                  inflight (forEach (fun section (_ : nat) s => visitSection w section s)
                                    (sections w) 0%nat st).2 = inflight st).
  { apply (forEach_preserves
             (fun s => models s = models st /\ inflight s = inflight st)); [|auto].
    intros a i st' [Hm Hi]. unfold visitSection. destruct (inRange w a); [|auto].
    destruct (switchModel_registry (dataModel a) st') as [-> ->]. auto. }
  destruct b; simpl; [exact Hwalk|].
  destruct (sections w !! 1%nat); [|auto].
  destruct (Qlt_bool _ _); [apply backToCar_registry|exact Hwalk].
Qed.

Lemma onOtherLoaded_part000_models (b : bool) (k : string) (g : Object3D)
    (st : State) :
  models (Part000.onOtherLoaded b k g st) = <[k := length (heap st)]> (models st).
Proof.
  unfold Part000.onOtherLoaded, alloc. cbn [fst snd].
  destruct (b && String.eqb k "livingroom" && _); reflexivity.
Qed.

Lemma onCarLoaded_models (g : Object3D) (st : State) :
  models (MainJs.onCarLoaded g st) = <["car"%string := length (heap st)]> (models st).
Proof. reflexivity. Qed.

(** One event never takes a key out of the registry nor binds it to
    another object. *)
Lemma registered_dispatch_main (ev : Event) (st : State) (k : string) (n : nat) :
  inv st -> models st !! k = Some n ->
  models (MainJs.dispatch ev st).2 !! k = Some n.
Proof.
  intros Hinv Hk. destruct ev as [r g|r|w|key]; unfold MainJs.dispatch.
  - destruct (isPending r st) eqn:E; [|exact Hk].
    apply isPending_true in E.
    destruct (inv_loads _ Hinv) as (_ & _ & H3 & _). specialize (H3 r E).
    destruct r as [p|k' p]; cbn [snd].
    + destruct (inv_carFirst _ Hinv p E) as (Hm & _).
      rewrite Hm, lookup_empty in Hk. discriminate.
    + rewrite onOtherLoaded_models. cbn [settled models].
      rewrite lookup_insert_ne; [exact Hk|]. intros ->. simpl in H3. congruence.
  - destruct (isPending r st) eqn:E; [|exact Hk].
    destruct r as [p|k' p]; cbn [snd]; exact Hk.
  - destruct (handleScroll_main_registry w st) as [-> _]. exact Hk.
  - cbn [snd]. destruct (switchModel_registry key st) as [-> _]. exact Hk.
Qed.

Lemma registered_dispatch_part000 (b : bool) (ev : Event) (st : State)
    (k : string) (n : nat) :
  inv st -> models st !! k = Some n ->
  models (Part000.dispatch b ev st).2 !! k = Some n.
Proof.
  intros Hinv Hk. destruct ev as [r g|r|w|key]; unfold Part000.dispatch.
  - destruct (isPending r st) eqn:E; [|exact Hk].
    apply isPending_true in E.
    destruct (inv_loads _ Hinv) as (_ & _ & H3 & _). specialize (H3 r E).
    destruct r as [p|k' p]; cbn [snd].
    + destruct (inv_carFirst _ Hinv p E) as (Hm & _).
      rewrite Hm, lookup_empty in Hk. discriminate.
    + rewrite onOtherLoaded_part000_models. cbn [settled models].
      rewrite lookup_insert_ne; [exact Hk|]. intros ->. simpl in H3. congruence.
  - destruct (isPending r st) eqn:E; [|exact Hk].
    destruct r as [p|k' p]; cbn [snd]; exact Hk.
  - destruct (handleScroll_part000_registry b w st) as [-> _]. exact Hk.
  - cbn [snd]. destruct (switchModel_registry key st) as [-> _]. exact Hk.
Qed.

Lemma registered_run_main (evs : list Event) (st : State) (k : string) (n : nat) :
  inv st -> models st !! k = Some n ->
  models (MainJs.run evs st) !! k = Some n.
Proof.
  revert st. induction evs as [|ev evs IH]; intros st Hinv Hk; simpl; [exact Hk|].
  apply IH; [apply inv_dispatch_main, Hinv|].
  apply registered_dispatch_main; assumption.
Qed.

Lemma registered_run_part000 (b : bool) (evs : list Event) (st : State)
    (k : string) (n : nat) :
  inv st -> models st !! k = Some n ->
  models (Part000.run b evs st) !! k = Some n.
Proof.
  revert st. induction evs as [|ev evs IH]; intros st Hinv Hk; simpl; [exact Hk|].
  apply IH; [apply inv_dispatch_part000, Hinv|].
  apply registered_dispatch_part000; assumption.
Qed.

(** X9: a model that is registered stays registered, under the same key
    and as the same object of the store, whatever events follow in the
    session (loads that complete or fail, scrolls, switches); this holds for
    both scripts. *)
Theorem registration_persists
    (b : bool) (evs evs' : list Event) (st : State) (k : string) (n : nat) :
  models st !! k = Some n ->
  (st = MainJs.run evs MainJs.boot ->
   models (MainJs.run evs' st) !! k = Some n /\
   is_Some (heap (MainJs.run evs' st) !! n)) /\
  (st = Part000.run b evs (Part000.boot b) ->
   models (Part000.run b evs' st) !! k = Some n /\
   is_Some (heap (Part000.run b evs' st) !! n)).
Proof.
  intros Hk. split; intros ->.
  - pose proof (inv_run_main evs _ inv_boot_main) as Hinv.
    pose proof (registered_run_main evs' _ k n Hinv Hk) as H.
    split; [exact H|]. apply lookup_lt_is_Some_2.
    destruct (inv_refs _ (inv_run_main evs' _ Hinv)) as [Hr _]. eapply Hr, H.
  - pose proof (inv_run_part000 b evs _ (inv_boot_part000 b)) as Hinv.
    pose proof (registered_run_part000 b evs' _ k n Hinv Hk) as H.
    split; [exact H|]. apply lookup_lt_is_Some_2.
    destruct (inv_refs _ (inv_run_part000 b evs' _ Hinv)) as [Hr _]. eapply Hr, H.
Qed.

Lemma registration_persists_witness :
  models (MainJs.run afterBedroomFailure carLoaded) !! "car"%string = Some 0%nat.
Proof.
  assert (Hk : models carLoaded !! "car"%string = Some 0%nat)
    by (vm_compute; reflexivity).
  assert (Hr : carLoaded
               = MainJs.run [LoadDone (ReqCar MainJs.carPath) offCentreScene]
                            MainJs.boot) by reflexivity.
  exact (proj1 (proj1 (registration_persists false _ afterBedroomFailure
                         carLoaded _ _ Hk) Hr)).
Defined.

(** ** The two pointers *)

Lemma pointersSound_frame (st st' : State) :
  models st' = models st -> currentModel st' = currentModel st ->
  lightTarget st' = lightTarget st ->
  pointersSound st -> pointersSound st'.
Proof.
  intros Hm Hc Hl [H1 H2]. unfold pointersSound. rewrite Hm, Hc, Hl. auto.
Qed.

Lemma pointersSound_hideCurrent (st : State) :
  pointersSound st -> pointersSound (hideCurrent st).2.
Proof.
  destruct (hideCurrent_frame st) as (Hm & Hc & Hl & _).
  apply pointersSound_frame; assumption.
Qed.

Lemma pointersSound_showModel (st : State) (v : Value) :
  (forall m, v = VModel m -> exists k, models st !! k = Some m) ->
  pointersSound st -> pointersSound (showModel v st).2.
Proof.
  intros Hreg [H1 H2]. destruct v as [m|f| |]; split; simpl;
    try exact H2; intros n [=]; subst; apply Hreg; reflexivity.
Qed.

Lemma pointersSound_switchModel (modelKey : option string) (st : State) :
  pointersSound st -> pointersSound (switchModel modelKey st).2.
Proof.
  intros H. pose proof (pointersSound_hideCurrent st H) as H1.
  unfold switchModel. destruct (hideCurrent st) as [[] st1]; simpl in *;
    [|exact H1].
  destruct modelKey as [key|]; [|exact H1].
  destruct (truthy key); [|exact H1].
  destruct (getModel key st1) as [v|] eqn:E; [|exact H1].
  apply pointersSound_showModel; [|exact H1].
  intros m ->. exists key. apply getModel_model, E.
Qed.

Lemma pointersSound_backToCar (st : State) :
  pointersSound st -> pointersSound (backToCar st).2.
Proof.
  intros H. unfold backToCar.
  destruct (currentModel st) as [cur|] eqn:Ec; [|exact H].
  case_bool_decide; [|exact H].
  assert (H1 : pointersSound (writeVisible cur false st).2).
  { destruct (writeVisible_frame cur false st) as (Hm & Hc & Hl & _).
    revert H. apply pointersSound_frame; assumption. }
  destruct (writeVisible cur false st) as [[] st1]; simpl in *; [|exact H1].
  destruct (models st1 !! "car"%string) as [car|] eqn:E; [|exact H1].
  simpl. split; simpl; intros n [= <-]; eauto.
Qed.

Lemma pointersSound_visitSection (w : Page) (s : SectionElement) (st : State) :
  pointersSound st -> pointersSound (visitSection w s st).2.
Proof.
  intros H. unfold visitSection. destruct (inRange w s); [|exact H].
  apply pointersSound_switchModel, H.
Qed.

Lemma pointersSound_handleScroll_main (w : Page) (st : State) :
  pointersSound st -> pointersSound (MainJs.handleScroll w st).2.
Proof.
  intros H. unfold MainJs.handleScroll.
  destruct (sections w !! 1%nat); [|exact H].
  destruct (Qlt_bool _ _); [apply pointersSound_backToCar, H|].
  apply forEach_preserves; [|exact H].
  intros a i st' Hs. destruct (i =? 0)%nat; [exact Hs|].
  apply pointersSound_visitSection, Hs.
Qed.


(** With an empty registry no pointer holds a scene. *)
Lemma pointersSound_empty (st : State) (n : nat) :
  pointersSound st -> models st = ∅ ->
  currentModel st <> Some (VModel n) /\ lightTarget st <> Some (VModel n).
Proof.
  intros [H1 H2] Hm. split; intros E.
  - destruct (H1 n E) as [k Hk]. rewrite Hm, lookup_empty in Hk. discriminate.
  - destruct (H2 n E) as [k Hk]. rewrite Hm, lookup_empty in Hk. discriminate.
Qed.

Lemma pointersSound_onCarLoaded (st : State) (p : string) (g : Object3D) :
  inv st -> pointersSound st -> ReqCar p ∈ inflight st ->
  pointersSound (MainJs.onCarLoaded g (settled (ReqCar p) st)).
Proof.
  intros Hinv Hps Hin. destruct (inv_carFirst _ Hinv p Hin) as (Hm & _).
  split.
  - intros n. change (Some (VModel (length (heap st))) = Some (VModel n) ->
      exists k, <["car"%string := length (heap st)]> (models st) !! k = Some n).
    intros [= <-]. exists "car"%string. apply lookup_insert_eq.
  - intros n. change (lightTarget st = Some (VModel n) -> exists k,
      <["car"%string := length (heap st)]> (models st) !! k = Some n).
    intros Hl. destruct (pointersSound_empty st n Hps Hm) as [_ H]. contradiction.
Qed.

Lemma pointersSound_onOtherLoaded (b : bool) (st : State) (k p : string)
    (g : Object3D) :
  inv st -> pointersSound st -> ReqOther k p ∈ inflight st ->
  pointersSound (MainJs.onOtherLoaded k g (settled (ReqOther k p) st)) /\
  pointersSound (Part000.onOtherLoaded b k g (settled (ReqOther k p) st)).
Proof.
  intros Hinv [H1 H2] Hin.
  destruct (inv_loads _ Hinv) as (_ & _ & H3 & _). specialize (H3 _ Hin).
  simpl in H3.
  assert (Hkeep : forall n, (exists k0, models st !! k0 = Some n) ->
                  exists k0, <[k := length (heap st)]> (models st) !! k0 = Some n).
  { intros n [k0 Hk0]. exists k0.
    rewrite lookup_insert_ne; [exact Hk0|]. intros ->. congruence. }
  assert (Hmain : pointersSound (MainJs.onOtherLoaded k g (settled (ReqOther k p) st))).
  { split; intros n; rewrite onOtherLoaded_models.
    - change (currentModel st = Some (VModel n) -> exists k0,
        <[k := length (heap st)]> (models st) !! k0 = Some n).
      intros Hn. apply Hkeep, H1, Hn.
    - change (lightTarget st = Some (VModel n) -> exists k0,
        <[k := length (heap st)]> (models st) !! k0 = Some n).
      intros Hn. apply Hkeep, H2, Hn. }
  split; [exact Hmain|].
  unfold Part000.onOtherLoaded, alloc. cbn [fst snd].
  destruct (b && String.eqb k "livingroom" && _) eqn:E; [|exact Hmain].
  split.
  - intros n. simpl. intros [= <-]. exists k. apply lookup_insert_eq.
  - intros n. simpl. intros Hn. apply Hkeep, H2, Hn.
Qed.

Lemma pointersSound_dispatch_main (ev : Event) (st : State) :
  inv st -> pointersSound st -> pointersSound (MainJs.dispatch ev st).2.
Proof.
  intros Hinv H. destruct ev as [r g|r|w|k]; unfold MainJs.dispatch.
  - destruct (isPending r st) eqn:E; [|exact H].
    apply isPending_true in E. destruct r as [p|k p]; cbn [snd].
    + apply pointersSound_onCarLoaded; assumption.
    + apply (pointersSound_onOtherLoaded false); assumption.
  - destruct (isPending r st) eqn:E; [|exact H].
    destruct r as [p|k p]; cbn [snd]; exact H.
  - apply pointersSound_handleScroll_main, H.
  - apply pointersSound_switchModel, H.
Qed.


Lemma pointersSound_initial (st : State) :
  currentModel st = None -> lightTarget st = None -> pointersSound st.
Proof. intros Hc Hl. split; intros n; rewrite ?Hc, ?Hl; discriminate. Qed.

Lemma pointersSound_run_main (evs : list Event) (st : State) :
  inv st -> pointersSound st -> pointersSound (MainJs.run evs st).
Proof.
  revert st. induction evs as [|ev evs IH]; intros st Hinv H; simpl; [exact H|].
  apply IH; [apply inv_dispatch_main, Hinv|].
  apply pointersSound_dispatch_main; assumption.
Qed.


(** ** Sessions that never hand an inherited name to [switchModel] *)


Lemma tidy_not_true (st : State) : tidy st -> currentModel st <> Some VTrue.
Proof. intros (_ & H & _) E. destruct (H _ E) as [n ?]. discriminate. Qed.

















Lemma pointersSound_boot (b : bool) :
  pointersSound MainJs.boot /\ pointersSound (Part000.boot b).
Proof. split; apply pointersSound_initial; destruct b; reflexivity. Qed.





(** ** Sessions in which the car has loaded *)

Lemma backToCar_not_true (st : State) :
  currentModel st <> Some VTrue -> currentModel (backToCar st).2 <> Some VTrue.
Proof.
  intros Hnt. unfold backToCar.
  destruct (currentModel st) as [cur|] eqn:Ec; [|simpl; rewrite Ec; exact Hnt].
  case_bool_decide; [|simpl; rewrite Ec; exact Hnt].
  destruct (writeVisible_frame cur false st) as (_ & Hc & _).
  destruct (writeVisible cur false st) as [[] st1]; simpl in *;
    [|rewrite Hc, Ec; exact Hnt].
  destruct (models st1 !! "car"%string); simpl; [discriminate|].
  rewrite Hc, Ec. exact Hnt.
Qed.

Lemma handleScroll_main_not_true (w : Page) (st : State) :
  Forall plainSection (sections w) -> currentModel st <> Some VTrue ->
  currentModel (MainJs.handleScroll w st).2 <> Some VTrue.
Proof.
  intros Hp Hnt. unfold MainJs.handleScroll.
  destruct (sections w !! 1%nat); [|exact Hnt].
  destruct (Qlt_bool _ _); [apply backToCar_not_true, Hnt|].
  apply walk_plain_main; assumption.
Qed.

Lemma handleScroll_part000_not_true (b : bool) (w : Page) (st : State) :
  Forall plainSection (sections w) -> currentModel st <> Some VTrue ->
  currentModel (Part000.handleScroll b w st).2 <> Some VTrue.
Proof.
  intros Hp Hnt. unfold Part000.handleScroll.
  destruct (walk_plain_part000 w st Hp Hnt) as [_ Hw].
  destruct b; simpl; [exact Hw|].
  destruct (sections w !! 1%nat); [|exact Hnt].
  destruct (Qlt_bool _ _); [apply backToCar_not_true, Hnt|exact Hw].
Qed.

Lemma onOtherLoaded_part000_not_true (b : bool) (k : string) (g : Object3D)
    (st : State) :
  currentModel st <> Some VTrue ->
  currentModel (Part000.onOtherLoaded b k g st) <> Some VTrue.
Proof.
  intros Hnt. unfold Part000.onOtherLoaded, alloc. cbn [fst snd].
  destruct (b && String.eqb k "livingroom" && _); [discriminate|exact Hnt].
Qed.

(** An event that names no inherited property leaves [currentModel]
    different from the primitive [true]. *)
Lemma dispatch_not_true (b : bool) (ev : Event) (st : State) :
  plainEvent ev -> currentModel st <> Some VTrue ->
  currentModel (MainJs.dispatch ev st).2 <> Some VTrue /\
  currentModel (Part000.dispatch b ev st).2 <> Some VTrue.
Proof.
  intros Hev Hnt. destruct ev as [r g|r|w|k]; unfold MainJs.dispatch, Part000.dispatch.
  - destruct (isPending r st); [|auto]. destruct r as [p|k p]; cbn [snd].
    + split; discriminate.
    + split; [exact Hnt|apply onOtherLoaded_part000_not_true, Hnt].
  - destruct (isPending r st); [|auto]. destruct r as [p|k p]; cbn [snd]; auto.
  - split; [apply handleScroll_main_not_true|apply handleScroll_part000_not_true];
      assumption.
  - assert (Hk : forall key, k = Some key -> inheritedName key = false)
      by (intros key ->; exact Hev).
    split; apply switchModel_plain; assumption.
Qed.

Lemma dispatch_main_returns (ev : Event) (st : State) :
  secondSectionPresent ev -> plainEvent ev ->
  currentModel st <> Some VTrue -> is_Some (models st !! "car"%string) ->
  (MainJs.dispatch ev st).1 = Returned.
Proof.
  intros Hev Hp Hnt [c Hc]. destruct ev as [r g|r|w|k]; unfold MainJs.dispatch.
  - destruct (isPending r st); [destruct r|]; reflexivity.
  - destruct (isPending r st); [destruct r|]; reflexivity.
  - destruct (MainJs.handleScroll w st).1 eqn:E; [reflexivity|].
    apply handleScroll_main_throws in E as [E|(s2 & _ & _ & _ & E)];
      try assumption.
    + simpl in Hev. apply lookup_ge_None in E. lia.
    + congruence.
  - apply switchModel_plain; [exact Hnt|]. intros key ->. exact Hp.
Qed.

Lemma dispatch_part000_returns (b : bool) (ev : Event) (st : State) :
  secondSectionPresent ev -> plainEvent ev ->
  currentModel st <> Some VTrue -> is_Some (models st !! "car"%string) ->
  (Part000.dispatch b ev st).1 = Returned.
Proof.
  intros Hev Hp Hnt [c Hc]. destruct ev as [r g|r|w|k]; unfold Part000.dispatch.
  - destruct (isPending r st); [destruct r|]; reflexivity.
  - destruct (isPending r st); [destruct r|]; reflexivity.
  - destruct (Part000.handleScroll b w st).1 eqn:E; [reflexivity|].
    apply handleScroll_part000_throws in E as [_ E]; try assumption.
    apply handleScroll_main_throws in E as [E|(s2 & _ & _ & _ & E)];
      try assumption.
    + simpl in Hev. apply lookup_ge_None in E. lia.
    + congruence.
  - apply switchModel_plain; [exact Hnt|]. intros key ->. exact Hp.
Qed.

Lemma outcomes_main_return (evs : list Event) (st : State) :
  inv st -> is_Some (models st !! "car"%string) ->
  currentModel st <> Some VTrue ->
  Forall secondSectionPresent evs -> Forall plainEvent evs ->
  Forall (eq Returned) (MainJs.outcomes evs st).
Proof.
  revert st. induction evs as [|ev evs IH]; intros st Hinv Hcar Hnt Hall Hpl;
    simpl; [constructor|].
  apply Forall_cons in Hall as [Hev Hall].
  apply Forall_cons in Hpl as [Hp Hpl]. constructor.
  - symmetry. apply dispatch_main_returns; assumption.
  - apply IH; [apply inv_dispatch_main, Hinv| | |exact Hall|exact Hpl].
    + destruct Hcar as [c Hc]. exists c.
      apply registered_dispatch_main; assumption.
    + apply (dispatch_not_true false); assumption.
Qed.

Lemma outcomes_part000_return (b : bool) (evs : list Event) (st : State) :
  inv st -> is_Some (models st !! "car"%string) ->
  currentModel st <> Some VTrue ->
  Forall secondSectionPresent evs -> Forall plainEvent evs ->
  Forall (eq Returned) (Part000.outcomes b evs st).
Proof.
  revert st. induction evs as [|ev evs IH]; intros st Hinv Hcar Hnt Hall Hpl;
    simpl; [constructor|].
  apply Forall_cons in Hall as [Hev Hall].
  apply Forall_cons in Hpl as [Hp Hpl]. constructor.
  - symmetry. apply dispatch_part000_returns; assumption.
  - apply IH; [apply inv_dispatch_part000, Hinv| | |exact Hall|exact Hpl].
    + destruct Hcar as [c Hc]. exists c.
      apply registered_dispatch_part000; assumption.
    + apply (dispatch_not_true b); assumption.
Qed.

(** X11: once the car is registered no handler of the session throws any
    more, provided [currentModel] is not the primitive [true], every page
    that is scrolled has a second section, and no later event names a
    property inherited from [Object.prototype]: every later load callback,
    scroll handler call and switch returns normally, in both scripts. *)
Theorem no_throw_once_car_registered
    (b : bool) (evs evs' : list Event) (st : State) :
  is_Some (models st !! "car"%string) ->
  currentModel st <> Some VTrue ->
  Forall secondSectionPresent evs' ->
  Forall plainEvent evs' ->
  (st = MainJs.run evs MainJs.boot ->
   Forall (eq Returned) (MainJs.outcomes evs' st)) /\
  (st = Part000.run b evs (Part000.boot b) ->
   Forall (eq Returned) (Part000.outcomes b evs' st)).
Proof.
  intros Hcar Hnt Hall Hpl. split; intros ->.
  - apply outcomes_main_return; [|assumption..].
    apply inv_run_main, inv_boot_main.
  - apply outcomes_part000_return; [|assumption..].
    apply inv_run_part000, inv_boot_part000.
Qed.

Lemma no_throw_once_car_registered_witness :
  Forall (eq Returned) (MainJs.outcomes afterBedroomFailure carLoaded).
Proof.
  assert (Hcar : is_Some (models carLoaded !! "car"%string))
    by (exists 0%nat; vm_compute; reflexivity).
  assert (Hnt : currentModel carLoaded <> Some VTrue)
    by (vm_compute; discriminate).
  assert (Hall : Forall secondSectionPresent afterBedroomFailure).
  { unfold afterBedroomFailure. repeat constructor. }
  assert (Hpl : Forall plainEvent afterBedroomFailure) by plain_events.
  assert (Hr : carLoaded
               = MainJs.run [LoadDone (ReqCar MainJs.carPath) offCentreScene]
                            MainJs.boot) by reflexivity.
  exact (proj1 (no_throw_once_car_registered false _ afterBedroomFailure
                  carLoaded Hcar Hnt Hall Hpl) Hr).
Defined.

(** ** The order of the loads *)

Lemma backgroundRequests_other (r : Request) :
  r ∈ backgroundRequests -> exists k p, r = ReqOther k p /\ k <> "car"%string.
Proof.
  intros H. destruct (otherKeys_not_car r H) as [Hne (k & p & ->)].
  exists k, p. split; [reflexivity|exact Hne].
Qed.

Lemma settle_subseteq_list (r : Request) (l k : list Request) :
  l ⊆ k -> settle r l ⊆ k.
Proof. intros H x Hx. apply H. eapply settle_subseteq, Hx. Qed.

Lemma carThenBackground_handlers (cp : string) (st st' : State) :
  models st' = models st -> inflight st' = inflight st ->
  loadCalls st' = loadCalls st ->
  carThenBackground cp st -> carThenBackground cp st'.
Proof.
  intros Hm Hi Hl. unfold carThenBackground. rewrite Hm, Hi, Hl. auto.
Qed.

Lemma switchModel_loadCalls (modelKey : option string) (st : State) :
  loadCalls (switchModel modelKey st).2 = loadCalls st.
Proof.
  destruct (hideCurrent_frame st) as (_ & _ & _ & _ & Hl & _).
  unfold switchModel. destruct (hideCurrent st) as [[] st1]; simpl in *; [|auto].
  destruct modelKey as [key|]; [|auto].
  destruct (truthy key); [|auto].
  destruct (getModel key st1) as [v|]; [|auto].
  rewrite <- Hl. unfold showModel. destruct v; reflexivity.
Qed.

Lemma backToCar_loadCalls (st : State) :
  loadCalls (backToCar st).2 = loadCalls st.
Proof.
  unfold backToCar. destruct (currentModel st) as [cur|]; [|auto].
  case_bool_decide; [|auto].
  destruct (writeVisible_frame cur false st) as (_ & _ & _ & _ & Hl & _).
  destruct (writeVisible cur false st) as [[] st1]; simpl in *; [|auto].
  destruct (models st1 !! "car"%string); simpl; auto.
Qed.

Lemma handleScroll_main_loadCalls (w : Page) (st : State) :
  loadCalls (MainJs.handleScroll w st).2 = loadCalls st.
Proof.
  unfold MainJs.handleScroll.
  destruct (sections w !! 1%nat); [|auto].
  destruct (Qlt_bool _ _); [apply backToCar_loadCalls|].
  apply (forEach_preserves (fun s => loadCalls s = loadCalls st)); [|auto].
  intros a i st' H. destruct (i =? 0)%nat; [auto|].
  unfold visitSection. destruct (inRange w a); [|auto].
  rewrite switchModel_loadCalls. exact H.
Qed.

Lemma handleScroll_part000_loadCalls (b : bool) (w : Page) (st : State) :
  loadCalls (Part000.handleScroll b w st).2 = loadCalls st.
Proof.
  unfold Part000.handleScroll.
  assert (Hwalk : loadCalls (forEach (fun section (_ : nat) s => visitSection w section s)
                                     (sections w) 0%nat st).2 = loadCalls st).
  { apply (forEach_preserves (fun s => loadCalls s = loadCalls st)); [|auto].
    intros a i st' H. unfold visitSection. destruct (inRange w a); [|auto].
    rewrite switchModel_loadCalls. exact H. }
  destruct b; simpl; [exact Hwalk|].
  destruct (sections w !! 1%nat); [|auto].
  destruct (Qlt_bool _ _); [apply backToCar_loadCalls|exact Hwalk].
Qed.

Lemma onOtherLoaded_part000_loads (b : bool) (k : string) (g : Object3D)
    (st : State) :
  inflight (Part000.onOtherLoaded b k g st) = inflight st /\
  loadCalls (Part000.onOtherLoaded b k g st) = loadCalls st.
Proof.
  unfold Part000.onOtherLoaded, alloc. cbn [fst snd].
  destruct (b && String.eqb k "livingroom" && _); split; reflexivity.
Qed.

Lemma carThenBackground_dispatch (b : bool) (cp : string) (ev : Event)
    (st : State) :
  carThenBackground cp st ->
  carThenBackground cp (MainJs.dispatch ev st).2 /\
  carThenBackground cp (Part000.dispatch b ev st).2.
Proof.
  intros H.
  assert (Hload : forall r, r ∈ inflight st ->
            (r = ReqCar cp /\ inflight st = [ReqCar cp] /\
             loadCalls st = [ReqCar cp] /\ models st = ∅) \/
            (exists k p, r = ReqOther k p /\
               loadCalls st = ReqCar cp :: backgroundRequests /\
               inflight st ⊆ backgroundRequests)).
  { intros r Hr. destruct H as [(Hi & Hl & Hm)|(Hl & Hi)].
    - left. rewrite Hi in Hr. apply list_elem_of_singleton in Hr. auto.
    - right. destruct (backgroundRequests_other r (Hi r Hr)) as (k & p & -> & _).
      eauto 6. }
  destruct ev as [r g|r|w|k]; unfold MainJs.dispatch, Part000.dispatch.
  - destruct (isPending r st) eqn:E; [|auto].
    apply isPending_true in E.
    destruct (Hload r E) as [(-> & Hi & Hl & Hm)|(k & p & -> & Hl & Hi)]; cbn [snd].
    + assert (Hgoal : carThenBackground cp
                        (MainJs.onCarLoaded g (settled (ReqCar cp) st))).
      { right. unfold MainJs.onCarLoaded, alloc. cbn [fst snd].
        rewrite loadOtherModels_main_eq. simpl. rewrite Hi, Hl, settle_single.
        split; [reflexivity|]. intros x Hx. exact Hx. }
      split; exact Hgoal.
    + split; right.
      * rewrite onOtherLoaded_inflight. split; [exact Hl|].
        apply settle_subseteq_list, Hi.
      * destruct (onOtherLoaded_part000_loads b k g (settled (ReqOther k p) st))
          as [-> ->].
        split; [exact Hl|]. apply settle_subseteq_list, Hi.
  - destruct (isPending r st) eqn:E; [|auto].
    apply isPending_true in E.
    destruct (Hload r E) as [(-> & Hi & Hl & Hm)|(k & p & -> & Hl & Hi)]; cbn [snd].
    + assert (Hgoal : carThenBackground cp (MainJs.onCarError (settled (ReqCar cp) st))).
      { right. unfold MainJs.onCarError. rewrite loadOtherModels_main_eq. simpl.
        rewrite Hi, Hl, settle_single.
        split; [reflexivity|]. intros x Hx. exact Hx. }
      split; exact Hgoal.
    + split; right; (split; [exact Hl|apply settle_subseteq_list, Hi]).
  - split.
    + revert H. apply carThenBackground_handlers.
      * apply handleScroll_main_registry.
      * apply handleScroll_main_registry.
      * apply handleScroll_main_loadCalls.
    + revert H. apply carThenBackground_handlers.
      * apply handleScroll_part000_registry.
      * apply handleScroll_part000_registry.
      * apply handleScroll_part000_loadCalls.
  - split; cbn [snd]; revert H; apply carThenBackground_handlers;
      try apply switchModel_registry; apply switchModel_loadCalls.
Qed.

Lemma backgroundOnly_dispatch (ev : Event) (st : State) :
  backgroundOnly st -> backgroundOnly (Part000.dispatch true ev st).2.
Proof.
  intros (Hl & Hi & Hc).
  destruct ev as [r g|r|w|k]; unfold Part000.dispatch.
  - destruct (isPending r st) eqn:E; [|repeat split; assumption].
    apply isPending_true in E.
    destruct (backgroundRequests_other r (Hi r E)) as (k & p & -> & Hne).
    cbn [snd].
    destruct (onOtherLoaded_part000_loads true k g (settled (ReqOther k p) st))
      as [Ei El].
    unfold backgroundOnly. rewrite Ei, El, onOtherLoaded_part000_models.
    split; [exact Hl|]. split; [apply settle_subseteq_list, Hi|].
    rewrite lookup_insert_ne by exact Hne. exact Hc.
  - destruct (isPending r st) eqn:E; [|repeat split; assumption].
    apply isPending_true in E.
    destruct (backgroundRequests_other r (Hi r E)) as (k & p & -> & Hne).
    cbn [snd]. split; [exact Hl|]. split; [|exact Hc].
    apply settle_subseteq_list, Hi.
  - destruct (handleScroll_part000_registry true w st) as [Em Ei].
    unfold backgroundOnly.
    rewrite Em, Ei, handleScroll_part000_loadCalls. auto.
  - cbn [snd]. destruct (switchModel_registry k st) as [Em Ei].
    unfold backgroundOnly. rewrite Em, Ei, switchModel_loadCalls. auto.
Qed.

(** X12: the loads of a session.  On the main page, in both scripts, the
    car's load is started first and alone; the three background loads are
    started when it settles, whether it succeeded or failed, and no other
    load is ever started.  On the solutions page only the three background
    loads are started, and no car is ever registered. *)
Theorem loads_in_order (evs : list Event) :
  carThenBackground MainJs.carPath (MainJs.run evs MainJs.boot) /\
  carThenBackground Part000.carPath (Part000.run false evs (Part000.boot false)) /\
  backgroundOnly (Part000.run true evs (Part000.boot true)).
Proof.
  split; [|split].
  - assert (H : carThenBackground MainJs.carPath MainJs.boot)
      by (left; repeat split).
    revert H. generalize MainJs.boot. induction evs as [|ev evs IH];
      intros st H; simpl; [exact H|].
    apply IH. apply (carThenBackground_dispatch false), H.
  - assert (H : carThenBackground Part000.carPath (Part000.boot false))
      by (left; repeat split).
    revert H. generalize (Part000.boot false). induction evs as [|ev evs IH];
      intros st H; simpl; [exact H|].
    apply IH. apply (carThenBackground_dispatch false), H.
  - assert (H : backgroundOnly (Part000.boot true)).
    { split; [reflexivity|]. split; [intros x Hx; exact Hx|reflexivity]. }
    revert H. generalize (Part000.boot true). induction evs as [|ev evs IH];
      intros st H; simpl; [exact H|].
    apply IH. apply backgroundOnly_dispatch, H.
Qed.

(** ** Registered models keep the scale of their kind *)

Lemma scaleByKey_heap (st st' : State) :
  models st' = models st ->
  (forall n o, heap st !! n = Some o ->
               exists o', heap st' !! n = Some o' /\ scale o' = scale o) ->
  scaleByKey st -> scaleByKey st'.
Proof.
  intros Hm Hh H k n Hk. rewrite Hm in Hk.
  destruct (H k n Hk) as (o & Ho & Hs).
  destruct (Hh n o Ho) as (o' & Ho' & Hs'). exists o'. split; [exact Ho'|congruence].
Qed.

Lemma alter_visible_scale (b : bool) (r : nat) (h : list Object3D) (n : nat)
    (o : Object3D) :
  h !! n = Some o ->
  exists o', alter (set_visible b) r h !! n = Some o' /\ scale o' = scale o.
Proof.
  intros Ho. destruct (decide (r = n)) as [->|Hne].
  - rewrite list_lookup_alter_eq, Ho. simpl. eexists. split; [reflexivity|].
    destruct o. reflexivity.
  - rewrite list_lookup_alter_ne by exact Hne. eauto.
Qed.

Lemma scaleByKey_assignVisible (r : nat) (b : bool) (st : State) :
  scaleByKey st -> scaleByKey (assignVisible r b st).
Proof.
  apply scaleByKey_heap; [reflexivity|]. intros n o. apply alter_visible_scale.
Qed.

Lemma scaleByKey_writeVisible (v : Value) (b : bool) (st : State) :
  scaleByKey st -> scaleByKey (writeVisible v b st).2.
Proof.
  destruct v as [m|f| |]; simpl; [apply scaleByKey_assignVisible|auto..].
Qed.

Lemma scaleByKey_hideCurrent (st : State) :
  scaleByKey st -> scaleByKey (hideCurrent st).2.
Proof.
  unfold hideCurrent. destruct (currentModel st); [|auto].
  apply scaleByKey_writeVisible.
Qed.

Lemma scaleByKey_showModel (v : Value) (st : State) :
  scaleByKey st -> scaleByKey (showModel v st).2.
Proof.
  destruct v as [m|f| |]; simpl; try (intros H; exact H).
  apply scaleByKey_heap; [reflexivity|]. intros n o.
  apply alter_visible_scale.
Qed.

Lemma scaleByKey_switchModel (modelKey : option string) (st : State) :
  scaleByKey st -> scaleByKey (switchModel modelKey st).2.
Proof.
  intros H. pose proof (scaleByKey_hideCurrent st H) as H1.
  unfold switchModel. destruct (hideCurrent st) as [[] st1]; simpl in *;
    [|exact H1].
  destruct modelKey as [key|]; [|exact H1].
  destruct (truthy key); [|exact H1].
  destruct (getModel key st1); [|exact H1].
  apply scaleByKey_showModel, H1.
Qed.

Lemma scaleByKey_backToCar (st : State) :
  scaleByKey st -> scaleByKey (backToCar st).2.
Proof.
  intros H. unfold backToCar. destruct (currentModel st) as [cur|]; [|exact H].
  case_bool_decide; [|exact H].
  pose proof (scaleByKey_writeVisible cur false st H) as H1.
  destruct (writeVisible cur false st) as [[] st1]; simpl in *; [|exact H1].
  destruct (models st1 !! "car"%string) as [car|]; [|exact H1].
  simpl. revert H1. apply scaleByKey_heap; [reflexivity|].
  intros n o. apply alter_visible_scale.
Qed.

Lemma scaleByKey_handleScroll (b : bool) (w : Page) (st : State) :
  scaleByKey st ->
  scaleByKey (MainJs.handleScroll w st).2 /\
  scaleByKey (Part000.handleScroll b w st).2.
Proof.
  intros H.
  assert (Hvisit : forall a st', scaleByKey st' ->
                                 scaleByKey (visitSection w a st').2).
  { intros a st' Hs. unfold visitSection. destruct (inRange w a); [|exact Hs].
    apply scaleByKey_switchModel, Hs. }
  assert (Hwalk : scaleByKey
                    (forEach (fun section (_ : nat) s => visitSection w section s)
                             (sections w) 0%nat st).2).
  { apply forEach_preserves; [|exact H]. intros a i st'. apply Hvisit. }
  unfold MainJs.handleScroll, Part000.handleScroll. split.
  - destruct (sections w !! 1%nat); [|exact H].
    destruct (Qlt_bool _ _); [apply scaleByKey_backToCar, H|].
    apply forEach_preserves; [|exact H].
    intros a i st' Hs. destruct (i =? 0)%nat; [exact Hs|apply Hvisit, Hs].
  - destruct b; simpl; [exact Hwalk|].
    destruct (sections w !! 1%nat); [|exact H].
    destruct (Qlt_bool _ _); [apply scaleByKey_backToCar, H|exact Hwalk].
Qed.

(** Registering a freshly prepared object under a key of its kind. *)
Lemma scaleByKey_register (st : State) (k : string) (o : Object3D)
    (cur : option Value) :
  scaleByKey st ->
  scale o = preparedScale (bool_decide (k = "car"%string)) ->
  scaleByKey (mkState (heap st ++ [o]) (<[k := length (heap st)]> (models st))
                      (protoVisible st) cur (lightTarget st) (inflight st)
                      (loadCalls st)).
Proof.
  intros H Ho k' n. cbn [models heap]. intros Hk.
  apply lookup_insert_Some in Hk as [[<- <-]|[_ Hk]].
  - exists o. split; [|exact Ho].
    rewrite lookup_app_r by lia. rewrite Nat.sub_diag. reflexivity.
  - destruct (H k' n Hk) as (o' & Ho' & Hs). exists o'. split; [|exact Hs].
    rewrite lookup_app_l; [exact Ho'|]. eapply lookup_lt_Some, Ho'.
Qed.

Lemma scaleByKey_loads (st : State) (i l : list Request) :
  scaleByKey st ->
  scaleByKey (mkState (heap st) (models st) (protoVisible st) (currentModel st)
                      (lightTarget st) i l).
Proof. intros H. exact H. Qed.

Lemma scaleByKey_dispatch (b : bool) (ev : Event) (st : State) :
  inv st -> scaleByKey st ->
  scaleByKey (MainJs.dispatch ev st).2 /\
  scaleByKey (Part000.dispatch b ev st).2.
Proof.
  intros Hinv H. destruct ev as [r g|r|w|k]; unfold MainJs.dispatch, Part000.dispatch.
  - destruct (isPending r st) eqn:E; [|auto].
    apply isPending_true in E. destruct r as [p|k p]; cbn [snd].
    + assert (Hgoal : scaleByKey (MainJs.onCarLoaded g (settled (ReqCar p) st))).
      { unfold MainJs.onCarLoaded, alloc. cbn [fst snd].
        rewrite loadOtherModels_main_eq.
        apply (scaleByKey_register st "car" (prepareModel g true)
                 (Some (VModel (length (heap st))))); [exact H|].
        rewrite prepareModel_scale. reflexivity. }
      split; exact Hgoal.
    + assert (Hk : k <> "car"%string).
      { destruct (inv_loads _ Hinv) as (_ & _ & _ & H4). eapply H4, E. }
      assert (Hmain : scaleByKey (MainJs.onOtherLoaded k g (settled (ReqOther k p) st))).
      { apply (scaleByKey_register st k (set_visible false (prepareModel g false))
                 (currentModel st)); [exact H|].
        rewrite bool_decide_eq_false_2 by exact Hk.
        transitivity (scale (prepareModel g false)).
        - destruct (prepareModel g false); reflexivity.
        - rewrite prepareModel_scale. reflexivity. }
      split; [exact Hmain|].
      unfold Part000.onOtherLoaded, alloc. cbn [fst snd].
      destruct (b && String.eqb k "livingroom" && _); [|exact Hmain].
      apply scaleByKey_assignVisible. exact Hmain.
  - destruct (isPending r st) eqn:E; [|auto].
    destruct r as [p|k p]; cbn [snd]; split; try exact H;
      unfold MainJs.onCarError, Part000.onCarError;
      rewrite ?loadOtherModels_same, loadOtherModels_main_eq; exact H.
  - apply scaleByKey_handleScroll, H.
  - split; cbn [snd]; apply scaleByKey_switchModel, H.
Qed.

(** X13: in every state either script reaches, the object registered
    under [car] has scale (1.2, 1.2, 1.2) and the object registered under
    any other key has scale (0.8, 0.8, 0.8): the scale [prepareModel] wrote
    when the model was loaded is never changed by a switch or a scroll. *)
Theorem registered_scale_by_key (b : bool) (evs : list Event) :
  scaleByKey (MainJs.run evs MainJs.boot) /\
  scaleByKey (Part000.run b evs (Part000.boot b)).
Proof.
  assert (H0 : forall st, models st = ∅ -> scaleByKey st).
  { intros st Hm k n Hk. rewrite Hm, lookup_empty in Hk. discriminate. }
  split.
  - assert (H : inv MainJs.boot /\ scaleByKey MainJs.boot)
      by (split; [apply inv_boot_main|apply H0; reflexivity]).
    revert H. generalize MainJs.boot. induction evs as [|ev evs IH];
      intros st [Hinv H]; simpl; [exact H|].
    apply IH. split; [apply inv_dispatch_main, Hinv|].
    apply (scaleByKey_dispatch false); assumption.
  - assert (H : inv (Part000.boot b) /\ scaleByKey (Part000.boot b))
      by (split; [apply inv_boot_part000|apply H0; destruct b; reflexivity]).
    revert H. generalize (Part000.boot b). induction evs as [|ev evs IH];
      intros st [Hinv H]; simpl; [exact H|].
    apply IH. split; [apply inv_dispatch_part000, Hinv|].
    apply (scaleByKey_dispatch b); assumption.
Qed.

(** ** Which model a scroll selects *)

Lemma forEach_app {A : Type}
    (callback : A -> nat -> State -> completion * State)
    (l1 l2 : list A) (i : nat) (st : State) :
  forEach callback (l1 ++ l2) i st
  = andThen (forEach callback l1 i st)
            (fun st1 => forEach callback l2 (i + length l1) st1).
Proof.
  revert i st. induction l1 as [|a l1 IH]; intros i st; simpl.
  - rewrite Nat.add_0_r. reflexivity.
  - destruct (callback a i st) as [[] st1]; simpl; [|reflexivity].
    rewrite IH. replace (S i + length l1)%nat with (i + S (length l1))%nat by lia.
    reflexivity.
Qed.

Lemma forEach_out_of_range (w : Page) (l : list SectionElement) (i : nat)
    (st : State) :
  Forall (fun x => inRange w x = false) l ->
  forEach (fun section index s =>
             if (index =? 0)%nat then (Returned, s)
             else visitSection w section s) l i st = (Returned, st)
  /\ forEach (fun section (_ : nat) s => visitSection w section s) l i st
     = (Returned, st).
Proof.
  intros H. split; apply forEach_fixed; intros a j Ha;
    rewrite Forall_forall in H; specialize (H a Ha);
    unfold visitSection; rewrite H; [destruct (j =? 0)%nat|]; reflexivity.
Qed.

Lemma visibleKeys_single (st : State) (k : string) (n : nat) :
  inv st -> models st !! k = Some n -> isVisible st n = true ->
  visibleKeys st = [k].
Proof.
  intros Hinv Hk Hv.
  assert (Hin : k ∈ visibleKeys st) by (apply elem_of_visibleKeys; eauto).
  pose proof (inv_at_most_one_visible st Hinv) as Hlen.
  destruct (visibleKeys st) as [|a [|b l]]; simpl in Hlen.
  - inversion Hin.
  - apply list_elem_of_singleton in Hin. congruence.
  - lia.
Qed.

(** A switch to a registered key, in a state of a session whose
    [currentModel] is not the primitive [true]. *)
Lemma switchModel_registered (st : State) (key : string) (m : nat) :
  inv st -> currentModel st <> Some VTrue ->
  truthy key = true -> models st !! key = Some m ->
  (switchModel (Some key) st).1 = Returned /\
  inv (switchModel (Some key) st).2 /\
  currentModel (switchModel (Some key) st).2 = Some (VModel m) /\
  lightTarget (switchModel (Some key) st).2 = Some (VModel m) /\
  isVisible (switchModel (Some key) st).2 m = true /\
  visibleKeys (switchModel (Some key) st).2 = [key].
Proof.
  intros Hinv Hnt Ht Hk.
  pose proof (inv_switchModel (Some key) st Hinv) as Hinv'.
  destruct (switchModel_registry (Some key) st) as [Hreg _].
  destruct (hideCurrent_frame st) as (Hm & _ & _ & _ & _ & Hlen).
  pose proof (hideCurrent_throws st) as Hth.
  assert (Hsw : switchModel (Some key) st
                = showModel (VModel m) (hideCurrent st).2).
  { unfold switchModel. destruct (hideCurrent st) as [[] st1]; simpl in *.
    - rewrite Ht. rewrite <- Hm in Hk.
      rewrite (proj2 (getModel_model key st1 m) Hk). reflexivity.
    - exfalso. apply Hnt, Hth. reflexivity. }
  rewrite Hsw in *.
  assert (Hvis : isVisible (showModel (VModel m) (hideCurrent st).2).2 m = true).
  { unfold showModel, isVisible. simpl. rewrite list_lookup_alter_eq.
    destruct (inv_refs _ Hinv) as [Hr _]. specialize (Hr _ _ Hk).
    rewrite <- Hlen in Hr.
    destruct (lookup_lt_is_Some_2 _ _ Hr) as [o ->]. reflexivity. }
  split; [reflexivity|]. split; [exact Hinv'|]. split; [reflexivity|].
  split; [reflexivity|]. split; [exact Hvis|].
  apply (visibleKeys_single _ key m Hinv'); [|exact Hvis].
  rewrite Hreg. exact Hk.
Qed.

(** A switch that selects nothing, in such a state. *)
Lemma switchModel_selects_nothing (st : State) (modelKey : option string) :
  inv st -> currentModel st <> Some VTrue ->
  (forall key, modelKey = Some key -> inheritedName key = false) ->
  (forall key, modelKey = Some key -> truthy key = true ->
               models st !! key = None) ->
  switchModel modelKey st = hideCurrent st /\
  (switchModel modelKey st).1 = Returned /\
  visibleKeys (switchModel modelKey st).2 = [].
Proof.
  intros Hinv Hnt Hplain Hnone.
  pose proof (hideCurrent_throws st) as Hth.
  assert (Hsw : switchModel modelKey st = hideCurrent st).
  { destruct modelKey as [key|]; [|apply switchModel_null].
    destruct (truthy key) eqn:Et.
    - apply switchModel_unregistered; auto.
    - unfold switchModel. rewrite Et.
      destruct (hideCurrent st) as [[] st1]; reflexivity. }
  split; [exact Hsw|]. rewrite Hsw. split.
  - destruct (hideCurrent st).1; [reflexivity|].
    exfalso. apply Hnt, Hth. reflexivity.
  - apply visibleKeys_nil, hideCurrent_none_visible, (inv_visible _ Hinv).
Qed.

Lemma walkState_visitSection (w : Page) (s : SectionElement) (st0 st : State) :
  plainSection s \/ inRange w s = false -> walkState st0 st ->
  (visitSection w s st).1 = Returned /\ walkState st0 (visitSection w s st).2.
Proof.
  intros [Hp|Hout] (Hinv & Hm & Hnt).
  - destruct (visitSection_plain w s st Hnt Hp) as [Hr Hnt'].
    split; [exact Hr|]. split; [apply inv_visitSection, Hinv|].
    split; [|exact Hnt'].
    unfold visitSection. destruct (inRange w s); [|exact Hm].
    destruct (switchModel_registry (dataModel s) st) as [-> _]. exact Hm.
  - unfold visitSection. rewrite Hout. simpl.
    split; [reflexivity|]. split; [exact Hinv|split; [exact Hm|exact Hnt]].
Qed.

(** The handler of [main.js] past the home zone, when [s] is the last
    section in range and is not the first section of the page: all that
    remains of the earlier sections is a state of the session with the same
    registry, on which the handler's last act is the switch for [s]. *)
Lemma handleScroll_main_last_in_range
    (w : Page) (st : State) (pre post : list SectionElement)
    (s second : SectionElement) :
  inv st -> currentModel st <> Some VTrue ->
  Forall (fun x => plainSection x \/ inRange w x = false) pre ->
  sections w = pre ++ s :: post -> pre <> [] ->
  sections w !! 1%nat = Some second ->
  lowerBound (innerHeight w) second <= scrollY w ->
  inRange w s = true ->
  Forall (fun x => inRange w x = false) post ->
  exists st1, walkState st st1 /\
              MainJs.handleScroll w st = switchModel (dataModel s) st1.
Proof.
  intros Hinv Hnt Hplain Hsec Hpre Hsnd Hhome Hin Hpost.
  set (cb := fun (section : SectionElement) (index : nat) (s0 : State) =>
               if (index =? 0)%nat then (Returned, s0)
               else visitSection w section s0).
  assert (Hwalk : (forEach cb pre 0%nat st).1 = Returned /\
                  walkState st (forEach cb pre 0%nat st).2).
  { apply (forEach_returns (walkState st));
      [|split; [exact Hinv|split; [reflexivity|exact Hnt]]].
    intros a i st' Ha Hs. unfold cb. destruct (i =? 0)%nat; [auto|].
    apply walkState_visitSection; [|exact Hs].
    rewrite Forall_forall in Hplain. apply (Hplain a Ha). }
  destruct Hwalk as [Hret Hst1].
  exists (forEach cb pre 0%nat st).2. split; [exact Hst1|].
  unfold MainJs.handleScroll. rewrite Hsnd.
  apply Qlt_bool_false_iff in Hhome. rewrite Hhome.
  fold cb. rewrite Hsec, forEach_app.
  destruct (forEach cb pre 0%nat st) as [[] st1]; simpl in *; [|discriminate].
  destruct pre as [|a pre']; [congruence|]. simpl.
  unfold cb at 1. simpl. unfold visitSection. rewrite Hin.
  destruct (switchModel (dataModel s) st1) as [[] st2]; simpl; [|reflexivity].
  apply (forEach_out_of_range w post _ st2 Hpost).
Qed.

Lemma Forall_plain_parts (w : Page) (pre post : list SectionElement)
    (s : SectionElement) (l : list SectionElement) :
  l = pre ++ s :: post -> Forall plainSection l ->
  Forall (fun x => plainSection x \/ inRange w x = false) pre /\ plainSection s.
Proof.
  intros -> H. apply Forall_app in H as [H1 H2].
  apply Forall_cons in H2 as [H2 _]. split; [|exact H2].
  eapply Forall_impl; [exact H1|]. intros x Hx. left. exact Hx.
Qed.

(** X14: in a state of a session of [main.js] whose [currentModel] is
    not the primitive [true], on a page scrolled past the home zone none of
    whose sections is bound to a name inherited from [Object.prototype], if
    the last section in range (not the first of the page) names a registered
    model, the handler returns with that model current, visible, aimed at by
    the light, and the only visible one. *)
Theorem scroll_shows_last_section_in_range
    (evs : list Event) (w : Page) (pre post : list SectionElement)
    (s second : SectionElement) (key : string) (m : nat) :
  currentModel (MainJs.run evs MainJs.boot) <> Some VTrue ->
  Forall plainSection (sections w) ->
  sections w = pre ++ s :: post -> pre <> [] ->
  sections w !! 1%nat = Some second ->
  lowerBound (innerHeight w) second <= scrollY w ->
  inRange w s = true ->
  Forall (fun x => inRange w x = false) post ->
  dataModel s = Some key -> truthy key = true ->
  models (MainJs.run evs MainJs.boot) !! key = Some m ->
  exists st', MainJs.handleScroll w (MainJs.run evs MainJs.boot) = (Returned, st') /\
              currentModel st' = Some (VModel m) /\
              lightTarget st' = Some (VModel m) /\
              isVisible st' m = true /\ visibleKeys st' = [key].
Proof.
  intros Hnt Hplain Hsec Hpre Hsnd Hhome Hin Hpost Hkey Ht Hk.
  pose proof (inv_run_main evs _ inv_boot_main) as Hinv.
  destruct (Forall_plain_parts w pre post s _ Hsec Hplain) as [Hp _].
  destruct (handleScroll_main_last_in_range w _ pre post s second
              Hinv Hnt Hp Hsec Hpre Hsnd Hhome Hin Hpost)
    as (st1 & (Hinv1 & Hm1 & Hnt1) & Heq).
  rewrite Heq, Hkey. rewrite <- Hm1 in Hk.
  destruct (switchModel_registered st1 key m Hinv1 Hnt1 Ht Hk)
    as (H0 & _ & H1 & H2 & H3 & H4).
  destruct (switchModel (Some key) st1) as [c st']; simpl in *. subst c.
  exists st'. auto.
Qed.

(** X16: in a state of a session of [main.js] whose [currentModel] is
    not the primitive [true], on a page scrolled past the home zone none of
    whose sections is bound to a name inherited from [Object.prototype], if
    the last section in range (not the first of the page) selects no model
    (no [data-model] attribute, an empty one, or a key that is not
    registered, for instance because its load failed or has not finished),
    the handler returns and leaves no model visible; the registry is
    unchanged. *)
Theorem scroll_into_unloaded_section_shows_nothing
    (evs : list Event) (w : Page) (pre post : list SectionElement)
    (s second : SectionElement) :
  currentModel (MainJs.run evs MainJs.boot) <> Some VTrue ->
  Forall plainSection (sections w) ->
  sections w = pre ++ s :: post -> pre <> [] ->
  sections w !! 1%nat = Some second ->
  lowerBound (innerHeight w) second <= scrollY w ->
  inRange w s = true ->
  Forall (fun x => inRange w x = false) post ->
  (forall key, dataModel s = Some key -> truthy key = true ->
               models (MainJs.run evs MainJs.boot) !! key = None) ->
  exists st', MainJs.handleScroll w (MainJs.run evs MainJs.boot) = (Returned, st') /\
              visibleKeys st' = [] /\
              models st' = models (MainJs.run evs MainJs.boot).
Proof.
  intros Hnt Hplain Hsec Hpre Hsnd Hhome Hin Hpost Hnone.
  pose proof (inv_run_main evs _ inv_boot_main) as Hinv.
  destruct (Forall_plain_parts w pre post s _ Hsec Hplain) as [Hp Hs].
  destruct (handleScroll_main_last_in_range w _ pre post s second
              Hinv Hnt Hp Hsec Hpre Hsnd Hhome Hin Hpost)
    as (st1 & (Hinv1 & Hm1 & Hnt1) & Heq).
  rewrite Heq. rewrite <- Hm1 in Hnone.
  destruct (switchModel_selects_nothing st1 (dataModel s) Hinv1 Hnt1 Hs Hnone)
    as (_ & Hr & Hv).
  destruct (switchModel_registry (dataModel s) st1) as [Hreg _].
  destruct (switchModel (dataModel s) st1) as [c st']; simpl in *. subst c.
  exists st'. split; [reflexivity|]. split; [exact Hv|]. congruence.
Qed.

Lemma scroll_shows_last_section_in_range_witness :
  exists st', MainJs.handleScroll pageAtLivingRoom bothLoaded = (Returned, st') /\
              currentModel st' = Some (VModel 1%nat) /\
              lightTarget st' = Some (VModel 1%nat) /\
              isVisible st' 1 = true /\ visibleKeys st' = ["livingroom"%string].
Proof.
  apply (scroll_shows_last_section_in_range carAndLivingRoomLoad pageAtLivingRoom
           [mkSection 0 1000 (Some "kitchen"%string)] [] exampleSection
           exampleSection "livingroom" 1%nat).
  - vm_compute. discriminate.
  - plain_events.
  - reflexivity.
  - discriminate.
  - reflexivity.
  - apply Qle_bool_iff. reflexivity.
  - reflexivity.
  - constructor.
  - reflexivity.
  - reflexivity.
  - vm_compute. reflexivity.
Defined.

Lemma scroll_into_unloaded_section_shows_nothing_witness :
  exists st', MainJs.handleScroll pageAtBedroom bothLoaded = (Returned, st') /\
              visibleKeys st' = [] /\ models st' = models bothLoaded.
Proof.
  apply (scroll_into_unloaded_section_shows_nothing carAndLivingRoomLoad
           pageAtBedroom [mkSection 0 1000 (Some "kitchen"%string)] []
           (mkSection 1000 600 (Some "bedroom"%string))
           (mkSection 1000 600 (Some "bedroom"%string))).
  - vm_compute. discriminate.
  - plain_events.
  - reflexivity.
  - discriminate.
  - reflexivity.
  - apply Qle_bool_iff. reflexivity.
  - reflexivity.
  - constructor.
  - intros key [= <-] _. vm_compute. reflexivity.
Defined.


(** ** Pages whose sections follow one another *)

Lemma upper_le_lower (ih : Z) (a b : SectionElement) :
  (offsetTop a + offsetHeight a <= offsetTop b)%Z ->
  upperBound ih a <= lowerBound ih b.
Proof.
  intros H. unfold upperBound, lowerBound.
  apply Qplus_le_l. rewrite <- inject_Z_plus. rewrite <- Zle_Qle. exact H.
Qed.

Lemma lower_le_lower (ih : Z) (a b : SectionElement) :
  (offsetTop a <= offsetTop b)%Z -> lowerBound ih a <= lowerBound ih b.
Proof.
  intros H. unfold lowerBound. apply Qplus_le_l. rewrite <- Zle_Qle. exact H.
Qed.

Lemma inRange_excludes_later (w : Page) (a b : SectionElement) :
  (offsetTop a + offsetHeight a <= offsetTop b)%Z ->
  inRange w a = true -> inRange w b = false.
Proof.
  intros H Ha. apply inRange_iff in Ha as [_ Hlt].
  unfold inRange. apply andb_false_iff. left.
  destruct (Qle_bool (lowerBound (innerHeight w) b) (scrollY w)) eqn:E;
    [|reflexivity].
  apply Qle_bool_iff in E. exfalso.
  pose proof (upper_le_lower (innerHeight w) a b H) as Hul.
  apply (Qlt_irrefl (scrollY w)).
  eapply Qlt_le_trans; [exact Hlt|]. eapply Qle_trans; eassumption.
Qed.

Lemma inRange_excludes_earlier (w : Page) (a b : SectionElement) :
  (offsetTop a + offsetHeight a <= offsetTop b)%Z ->
  inRange w b = true -> inRange w a = false.
Proof.
  intros H Hb. apply inRange_iff in Hb as [Hlo _].
  unfold inRange. apply andb_false_iff. right. apply Qlt_bool_false_iff.
  eapply Qle_trans; [|exact Hlo]. apply upper_le_lower, H.
Qed.

(** X15: in a state of a session of [main.js] whose [currentModel] is
    not the primitive [true], on a page whose sections follow one another,
    a scroll offset inside the range of a section other than the first
    whose model is registered makes the handler return with that model
    current, visible, aimed at by the light, and the only visible one. *)
Theorem scroll_shows_section_of_stacked_page
    (evs : list Event) (w : Page) (i : nat) (s : SectionElement)
    (key : string) (m : nat) :
  currentModel (MainJs.run evs MainJs.boot) <> Some VTrue ->
  stacked (sections w) ->
  (1 <= i)%nat -> sections w !! i = Some s ->
  inRange w s = true ->
  dataModel s = Some key -> truthy key = true ->
  models (MainJs.run evs MainJs.boot) !! key = Some m ->
  exists st', MainJs.handleScroll w (MainJs.run evs MainJs.boot) = (Returned, st') /\
              currentModel st' = Some (VModel m) /\
              lightTarget st' = Some (VModel m) /\
              isVisible st' m = true /\ visibleKeys st' = [key].
Proof.
  intros Hnt [Hh Hst] Hi Hs Hin Hkey Ht Hk.
  pose proof (inv_run_main evs _ inv_boot_main) as Hinv.
  pose proof (lookup_lt_Some _ _ _ Hs) as Hlen.
  destruct (lookup_lt_is_Some_2 (sections w) 1%nat) as [second Hsnd]; [lia|].
  assert (Hhome : lowerBound (innerHeight w) second <= scrollY w).
  { apply inRange_iff in Hin as [Hlo _].
    eapply Qle_trans; [|exact Hlo]. apply lower_le_lower.
    destruct (decide (i = 1%nat)) as [->|Hne].
    - rewrite Hs in Hsnd. injection Hsnd as <-. lia.
    - assert (H1i : (1 < i)%nat) by lia.
      pose proof (Hst _ _ _ _ H1i Hsnd Hs). pose proof (Hh _ _ Hsnd). lia. }
  assert (Hpost : Forall (fun x => inRange w x = false) (drop (S i) (sections w))).
  { apply Forall_lookup. intros j x Hx. rewrite lookup_drop in Hx.
    apply (inRange_excludes_later w s x); [|exact Hin].
    apply (Hst i (S i + j)%nat); [lia|exact Hs|exact Hx]. }
  assert (Hbefore : Forall (fun x => plainSection x \/ inRange w x = false)
                           (take i (sections w))).
  { apply Forall_lookup. intros j x Hx. right.
    assert (Hj : (j < i)%nat).
    { apply lookup_lt_Some in Hx. rewrite length_take in Hx. lia. }
    rewrite lookup_take_lt in Hx by exact Hj.
    apply (inRange_excludes_earlier w x s); [|exact Hin].
    apply (Hst j i); assumption. }
  assert (Hpre : take i (sections w) <> []).
  { intros E. apply (f_equal length) in E. rewrite length_take in E.
    simpl in E. lia. }
  assert (Hsec : sections w = take i (sections w) ++ s :: drop (S i) (sections w)).
  { symmetry. apply take_drop_middle, Hs. }
  destruct (handleScroll_main_last_in_range w _ _ _ s second
              Hinv Hnt Hbefore Hsec Hpre Hsnd Hhome Hin Hpost)
    as (st1 & (Hinv1 & Hm1 & Hnt1) & Heq).
  rewrite Heq, Hkey. rewrite <- Hm1 in Hk.
  destruct (switchModel_registered st1 key m Hinv1 Hnt1 Ht Hk)
    as (H0 & _ & H1 & H2 & H3 & H4).
  destruct (switchModel (Some key) st1) as [c st']; simpl in *. subst c.
  exists st'. auto.
Qed.

Lemma scroll_shows_section_of_stacked_page_witness :
  exists st', MainJs.handleScroll pageAtLivingRoom bothLoaded = (Returned, st') /\
              currentModel st' = Some (VModel 1%nat) /\
              lightTarget st' = Some (VModel 1%nat) /\
              isVisible st' 1 = true /\ visibleKeys st' = ["livingroom"%string].
Proof.
  apply (scroll_shows_section_of_stacked_page carAndLivingRoomLoad
           pageAtLivingRoom 1%nat exampleSection "livingroom" 1%nat).
  - vm_compute. discriminate.
  - split.
    + intros [|[|i]] a H; simpl in H; try discriminate;
        injection H as <-; simpl; lia.
    + intros [|[|i]] [|[|j]] a b Hij Ha Hb; simpl in Ha, Hb;
        try discriminate; try lia.
      injection Ha as <-. injection Hb as <-. simpl. lia.
  - lia.
  - reflexivity.
  - reflexivity.
  - reflexivity.
  - reflexivity.
  - vm_compute. reflexivity.
Defined.

(** ** Back in the home zone *)

Lemma backToCar_visibility (st : State) (c : nat) :
  inv st -> currentModel st <> Some VTrue ->
  models st !! "car"%string = Some c ->
  exists st', backToCar st = (Returned, st') /\
              inv st' /\ currentModel st' = Some (VModel c) /\
              (isVisible st' c = true <->
               currentModel st <> Some (VModel c) \/ isVisible st c = true).
Proof.
  intros Hinv Hnt Hcar.
  pose proof (inv_backToCar st Hinv) as Hinv'.
  destruct (inv_carCurrent _ Hinv) as [cur Hcur]; [eauto|].
  destruct (inv_refs _ Hinv) as [Hr _]. specialize (Hr _ _ Hcar).
  unfold backToCar in *. rewrite Hcur, Hcar in *.
  case_bool_decide as Hne.
  - destruct (writeVisible_frame cur false st) as (Hm & _ & _ & _ & _ & Hlen).
    pose proof (writeVisible_throws cur false st) as Hth.
    destruct (writeVisible cur false st) as [[] st1]; simpl in *.
    + rewrite Hm, Hcar in *. simpl in *. eexists. split; [reflexivity|].
      split; [exact Hinv'|]. split; [reflexivity|].
      split; [intros _; left; exact Hne|intros _].
      unfold isVisible. simpl. rewrite list_lookup_alter_eq.
      rewrite <- Hlen in Hr.
      destruct (lookup_lt_is_Some_2 _ _ Hr) as [o ->]. reflexivity.
    + exfalso. apply Hnt. f_equal. apply Hth. reflexivity.
  - exists st. split; [reflexivity|]. split; [exact Hinv|].
    simpl in Hne. split; [congruence|]. split; [auto|].
    intros [H|H]; [congruence|exact H].
Qed.

(** X17: in a state of a session with the car registered and
    [currentModel] not the primitive [true], a scroll into the home zone
    returns with the car current, and the car is visible afterwards exactly
    when something else was current before or the car was already visible:
    a car that is current but hidden (after a switch that selected nothing)
    stays hidden.  No other registered model is visible.  The second entry
    point behaves the same on the main page. *)
Theorem home_zone_visibility
    (evs : list Event) (st : State) (w : Page) (second : SectionElement)
    (c : nat) :
  st = MainJs.run evs MainJs.boot \/
  st = Part000.run false evs (Part000.boot false) ->
  currentModel st <> Some VTrue ->
  sections w !! 1%nat = Some second ->
  scrollY w < lowerBound (innerHeight w) second ->
  models st !! "car"%string = Some c ->
  exists st', MainJs.handleScroll w st = (Returned, st') /\
              Part000.handleScroll false w st = (Returned, st') /\
              currentModel st' = Some (VModel c) /\
              (isVisible st' c = true <->
               currentModel st <> Some (VModel c) \/ isVisible st c = true) /\
              (forall k n, models st' !! k = Some n ->
                           isVisible st' n = true -> n = c).
Proof.
  intros Hreach Hnt Hs Hlt Hcar.
  assert (Hinv : inv st) by reach_inv Hreach.
  rewrite (handleScroll_home_main w second st Hs Hlt).
  rewrite (handleScroll_home_part000 w second st Hs Hlt).
  destruct (backToCar_visibility st c Hinv Hnt Hcar)
    as (st' & Heq & Hinv' & Hc & Hv).
  exists st'. split; [exact Heq|]. split; [exact Heq|]. split; [exact Hc|].
  split; [exact Hv|]. intros k n Hk Hvis.
  pose proof (inv_visible _ Hinv' k n Hk Hvis). congruence.
Qed.

Lemma home_zone_visibility_witness :
  exists st', MainJs.handleScroll pageAtTop (MainJs.run carHiddenEvents MainJs.boot)
              = (Returned, st') /\
              Part000.handleScroll false pageAtTop
                (MainJs.run carHiddenEvents MainJs.boot) = (Returned, st') /\
              currentModel st' = Some (VModel 0%nat) /\
              (isVisible st' 0 = true <->
               currentModel (MainJs.run carHiddenEvents MainJs.boot)
               <> Some (VModel 0%nat) \/
               isVisible (MainJs.run carHiddenEvents MainJs.boot) 0 = true) /\
              (forall k n, models st' !! k = Some n ->
                           isVisible st' n = true -> n = 0%nat).
Proof.
  apply (home_zone_visibility carHiddenEvents _ pageAtTop exampleSection 0%nat).
  - left. reflexivity.
  - vm_compute. discriminate.
  - reflexivity.
  - reflexivity.
  - vm_compute. reflexivity.
Defined.

(** The car that a stale section has hidden is still hidden after the
    way back to the top. *)
Example hidden_car_stays_hidden :
  currentModel (MainJs.run carHiddenEvents MainJs.boot) = Some (VModel 0%nat) /\
  isVisible (MainJs.run carHiddenEvents MainJs.boot) 0 = false /\
  MainJs.handleScroll pageAtTop (MainJs.run carHiddenEvents MainJs.boot)
  = (Returned, MainJs.run carHiddenEvents MainJs.boot).
Proof. vm_compute. repeat split; reflexivity. Qed.

(** Once [currentModel] is the primitive [true], every switch and every
    scroll that reaches a model throws at the write that hides the current
    model: a scroll into the section of the living room, which is
    registered, shows nothing. *)
Example scroll_with_true_current_throws :
  currentModel (MainJs.run sessionToTrueLoaded MainJs.boot) = Some VTrue /\
  models (MainJs.run sessionToTrueLoaded MainJs.boot) !! "livingroom"%string
  = Some 1%nat /\
  (MainJs.handleScroll pageAtLivingRoom
     (MainJs.run sessionToTrueLoaded MainJs.boot)).1 = Threw /\
  visibleKeys (MainJs.handleScroll pageAtLivingRoom
                 (MainJs.run sessionToTrueLoaded MainJs.boot)).2 = [].
Proof. vm_compute. repeat split; reflexivity. Qed.


(** ** The solutions page *)







(** The living room that loads first on the solutions page is shown; on
    the main page with a failed car it is registered but not shown. *)
Example livingRoom_shown_on_solutions_only :
  visibleKeys (Part000.run true livingRoomLoadOnSolutions (Part000.boot true))
  = ["livingroom"%string] /\
  lightTarget (Part000.run true livingRoomLoadOnSolutions (Part000.boot true))
  = None /\
  visibleKeys (Part000.run false
                 (LoadError (ReqCar Part000.carPath) :: livingRoomLoadOnSolutions)
                 (Part000.boot false)) = [] /\
  currentModel (Part000.run false
                  (LoadError (ReqCar Part000.carPath) :: livingRoomLoadOnSolutions)
                  (Part000.boot false)) = None.
Proof. vm_compute. repeat split; reflexivity. Qed.

(** The handler on the solutions page when [s] is the last section in
    range: every section counts, the first included. *)
Lemma handleScroll_solutions_last_in_range
    (w : Page) (st : State) (pre post : list SectionElement)
    (s : SectionElement) :
  inv st -> currentModel st <> Some VTrue ->
  Forall (fun x => plainSection x \/ inRange w x = false) pre ->
  sections w = pre ++ s :: post ->
  inRange w s = true ->
  Forall (fun x => inRange w x = false) post ->
  exists st1, walkState st st1 /\
              Part000.handleScroll true w st = switchModel (dataModel s) st1.
Proof.
  intros Hinv Hnt Hplain Hsec Hin Hpost.
  set (cb := fun (section : SectionElement) (_ : nat) (s0 : State) =>
               visitSection w section s0).
  assert (Hwalk : (forEach cb pre 0%nat st).1 = Returned /\
                  walkState st (forEach cb pre 0%nat st).2).
  { apply (forEach_returns (walkState st));
      [|split; [exact Hinv|split; [reflexivity|exact Hnt]]].
    intros a i st' Ha Hs. unfold cb.
    apply walkState_visitSection; [|exact Hs].
    rewrite Forall_forall in Hplain. apply (Hplain a Ha). }
  destruct Hwalk as [Hret Hst1].
  exists (forEach cb pre 0%nat st).2. split; [exact Hst1|].
  unfold Part000.handleScroll. simpl.
  fold cb. rewrite Hsec, forEach_app.
  destruct (forEach cb pre 0%nat st) as [[] st1]; simpl in *; [|discriminate].
  unfold cb at 1. unfold visitSection. rewrite Hin.
  destruct (switchModel (dataModel s) st1) as [[] st2]; simpl; [|reflexivity].
  apply (forEach_out_of_range w post _ st2 Hpost).
Qed.

(** X19: on the solutions page, in a state of a session whose
    [currentModel] is not the primitive [true], on a page none of whose
    sections is bound to a name inherited from [Object.prototype], if the
    last section in range (the first section of the page included, and on a
    page of any length) names a registered model, the handler returns with
    that model current, visible, aimed at by the light, and the only visible
    one. *)
Theorem solutions_scroll_shows_last_section_in_range
    (evs : list Event) (w : Page) (pre post : list SectionElement)
    (s : SectionElement) (key : string) (m : nat) :
  currentModel (Part000.run true evs (Part000.boot true)) <> Some VTrue ->
  Forall plainSection (sections w) ->
  sections w = pre ++ s :: post ->
  inRange w s = true ->
  Forall (fun x => inRange w x = false) post ->
  dataModel s = Some key -> truthy key = true ->
  models (Part000.run true evs (Part000.boot true)) !! key = Some m ->
  exists st', Part000.handleScroll true w (Part000.run true evs (Part000.boot true))
              = (Returned, st') /\
              currentModel st' = Some (VModel m) /\
              lightTarget st' = Some (VModel m) /\
              isVisible st' m = true /\ visibleKeys st' = [key].
Proof.
  intros Hnt Hplain Hsec Hin Hpost Hkey Ht Hk.
  pose proof (inv_run_part000 true evs _ (inv_boot_part000 true)) as Hinv.
  destruct (Forall_plain_parts w pre post s _ Hsec Hplain) as [Hp _].
  destruct (handleScroll_solutions_last_in_range w _ pre post s
              Hinv Hnt Hp Hsec Hin Hpost) as (st1 & (Hinv1 & Hm1 & Hnt1) & Heq).
  rewrite Heq, Hkey. rewrite <- Hm1 in Hk.
  destruct (switchModel_registered st1 key m Hinv1 Hnt1 Ht Hk)
    as (H0 & _ & H1 & H2 & H3 & H4).
  destruct (switchModel (Some key) st1) as [c st']; simpl in *. subst c.
  exists st'. auto.
Qed.

Lemma solutions_scroll_shows_last_section_in_range_witness :
  exists st', Part000.handleScroll true
                (mkPage [mkSection 0 600 (Some "livingroom"%string)] 0 800)
                (Part000.run true livingRoomLoadOnSolutions (Part000.boot true))
              = (Returned, st') /\
              currentModel st' = Some (VModel 0%nat) /\
              lightTarget st' = Some (VModel 0%nat) /\
              isVisible st' 0 = true /\ visibleKeys st' = ["livingroom"%string].
Proof.
  apply (solutions_scroll_shows_last_section_in_range livingRoomLoadOnSolutions
           (mkPage [mkSection 0 600 (Some "livingroom"%string)] 0 800)
           [] [] (mkSection 0 600 (Some "livingroom"%string)) "livingroom" 0%nat).
  - vm_compute. discriminate.
  - plain_events.
  - reflexivity.
  - reflexivity.
  - constructor.
  - reflexivity.
  - reflexivity.
  - vm_compute. reflexivity.
Defined.

(** ** One visible model, everywhere *)

(** X20: at most one registered model is visible in every state of every
    session, from page load on: on the solutions page as well, and before
    the car's load has settled, when no model is registered, none is
    visible and [currentModel] holds no scene. *)
Theorem single_visible_in_every_session (b : bool) (evs : list Event) :
  (length (visibleKeys (MainJs.run evs MainJs.boot)) <= 1)%nat /\
  (length (visibleKeys (Part000.run b evs (Part000.boot b))) <= 1)%nat /\
  (forall p, ReqCar p ∈ inflight (MainJs.run evs MainJs.boot) ->
             visibleKeys (MainJs.run evs MainJs.boot) = [] /\
             models (MainJs.run evs MainJs.boot) = ∅ /\
             forall n, currentModel (MainJs.run evs MainJs.boot)
                       <> Some (VModel n)).
Proof.
  pose proof (inv_run_main evs _ inv_boot_main) as Hinv.
  split; [apply inv_at_most_one_visible, Hinv|].
  split; [apply inv_at_most_one_visible, inv_run_part000, inv_boot_part000|].
  intros p Hp. destruct (inv_carFirst _ Hinv p Hp) as (Hm & _).
  split; [|split; [exact Hm|]].
  - apply visibleKeys_nil. intros k n. rewrite Hm, lookup_empty. discriminate.
  - intros n.
    assert (Hps : pointersSound (MainJs.run evs MainJs.boot)).
    { apply pointersSound_run_main; [apply inv_boot_main|].
      apply (pointersSound_boot b). }
    apply (pointersSound_empty _ n Hps Hm).
Qed.

Lemma single_visible_in_every_session_witness :
  visibleKeys (MainJs.run [Scroll pageAtConstructor] MainJs.boot) = [] /\
  models (MainJs.run [Scroll pageAtConstructor] MainJs.boot) = ∅.
Proof.
  assert (Hin : ReqCar MainJs.carPath
                  ∈ inflight (MainJs.run [Scroll pageAtConstructor] MainJs.boot)).
  { apply (bool_decide_unpack _). vm_compute. reflexivity. }
  destruct (single_visible_in_every_session false [Scroll pageAtConstructor])
    as (_ & _ & H).
  destruct (H _ Hin) as (H1 & H2 & _). split; assumption.
Defined.


(** ** Background loads and what is shown *)

(** X21: on the main page, in a state of a session of [main.js], a
    background load that completes registers its model hidden and changes
    neither the current model, nor the light's target, nor which keys are
    visible; a background load that fails changes none of these either. *)
Theorem background_load_keeps_view
    (evs : list Event) (key path : string) (gltfScene : Object3D) :
  ReqOther key path ∈ inflight (MainJs.run evs MainJs.boot) ->
  (models (MainJs.dispatch (LoadDone (ReqOther key path) gltfScene)
             (MainJs.run evs MainJs.boot)).2 !! key
   = Some (length (heap (MainJs.run evs MainJs.boot))) /\
   isVisible (MainJs.dispatch (LoadDone (ReqOther key path) gltfScene)
                (MainJs.run evs MainJs.boot)).2
             (length (heap (MainJs.run evs MainJs.boot))) = false /\
   currentModel (MainJs.dispatch (LoadDone (ReqOther key path) gltfScene)
                   (MainJs.run evs MainJs.boot)).2
   = currentModel (MainJs.run evs MainJs.boot) /\
   lightTarget (MainJs.dispatch (LoadDone (ReqOther key path) gltfScene)
                  (MainJs.run evs MainJs.boot)).2
   = lightTarget (MainJs.run evs MainJs.boot) /\
   (forall k, k ∈ visibleKeys (MainJs.dispatch (LoadDone (ReqOther key path) gltfScene)
                                 (MainJs.run evs MainJs.boot)).2
              <-> k ∈ visibleKeys (MainJs.run evs MainJs.boot))) /\
  (currentModel (MainJs.dispatch (LoadError (ReqOther key path))
                   (MainJs.run evs MainJs.boot)).2
   = currentModel (MainJs.run evs MainJs.boot) /\
   visibleKeys (MainJs.dispatch (LoadError (ReqOther key path))
                  (MainJs.run evs MainJs.boot)).2
   = visibleKeys (MainJs.run evs MainJs.boot)).
Proof.
  intros Hin.
  pose proof (inv_run_main evs _ inv_boot_main) as Hinv.
  set (st := MainJs.run evs MainJs.boot) in *. clearbody st.
  assert (Hp : isPending (ReqOther key path) st = true)
    by (apply isPending_true, Hin).
  unfold MainJs.dispatch. rewrite Hp. cbn [snd].
  set (model := set_visible false (prepareModel gltfScene false)).
  assert (Hst' : MainJs.onOtherLoaded key gltfScene (settled (ReqOther key path) st)
                 = mkState (heap st ++ [model])
                           (<[key := length (heap st)]> (models st))
                           (protoVisible st) (currentModel st) (lightTarget st)
                           (settle (ReqOther key path) (inflight st))
                           (loadCalls st)) by reflexivity.
  rewrite Hst'. clear Hst'.
  assert (Hnew : isVisible (mkState (heap st ++ [model])
                              (<[key := length (heap st)]> (models st))
                              (protoVisible st) (currentModel st) (lightTarget st)
                              (settle (ReqOther key path) (inflight st))
                              (loadCalls st)) (length (heap st)) = false).
  { unfold isVisible. cbn [heap]. rewrite lookup_app_r by lia.
    rewrite Nat.sub_diag. reflexivity. }
  assert (Hold : forall n, (n < length (heap st))%nat ->
            isVisible (mkState (heap st ++ [model])
                         (<[key := length (heap st)]> (models st))
                         (protoVisible st) (currentModel st) (lightTarget st)
                         (settle (ReqOther key path) (inflight st))
                         (loadCalls st)) n = isVisible st n).
  { intros n Hn. unfold isVisible. cbn [heap].
    rewrite lookup_app_l by exact Hn. reflexivity. }
  assert (Hfree : models st !! key = None).
  { destruct (inv_loads _ Hinv) as (_ & _ & H3 & _). exact (H3 _ Hin). }
  split; [|split; reflexivity].
  split; [cbn [models]; apply lookup_insert_eq|].
  split; [exact Hnew|]. split; [reflexivity|]. split; [reflexivity|].
  intros k. rewrite !elem_of_visibleKeys. cbn [models]. split.
  - intros (n & Hk & Hv).
    apply lookup_insert_Some in Hk as [[<- <-]|[Hne Hk]]; [congruence|].
    exists n. split; [exact Hk|]. rewrite <- Hold; [exact Hv|].
    destruct (inv_refs _ Hinv) as [Hr _]. eapply Hr, Hk.
  - intros (n & Hk & Hv). exists n. split.
    + rewrite lookup_insert_ne; [exact Hk|]. intros <-. congruence.
    + rewrite Hold; [exact Hv|]. apply isVisible_valid, Hv.
Qed.

Lemma background_load_keeps_view_witness :
  currentModel (MainJs.dispatch (LoadDone bedroomRequest offCentreScene) carLoaded).2
  = currentModel carLoaded.
Proof.
  assert (Hin : ReqOther "bedroom" "public/millennium_falcon/scene.gltf"
                  ∈ inflight (MainJs.run
                     [LoadDone (ReqCar MainJs.carPath) offCentreScene] MainJs.boot)).
  { apply (bool_decide_unpack _). vm_compute. reflexivity. }
  exact (proj1 (proj2 (proj2 (proj1
    (background_load_keeps_view _ "bedroom" "public/millennium_falcon/scene.gltf"
       offCentreScene Hin))))).
Defined.
